(** * pqtest: ephemeral PostgreSQL test databases

    A shallow embedding of [pqtest.go] and of the parts of the Go standard
    library it calls ([time], [path/filepath], [strings], [math/rand],
    [net/url], [database/sql]), followed by the properties of the naming
    scheme, the schema loader, the garbage collector and the provisioner. *)

From Stdlib Require Import ZArith Lia Bool List.
From Stdlib Require Import Ascii String.
From stdpp Require Import base option list strings sorting.

Local Open Scope Z_scope.

(** ** Bounded checks

    Several facts about calendar arithmetic and digit strings range over a
    finite interval of integers; they are settled by running a boolean test
    over the whole interval. *)

Fixpoint all_from (P : Z -> bool) (n : nat) (z : Z) : bool :=
  match n with
  | O => true
  | S n' => if P z then all_from P n' (z + 1) else false
  end.

(** ** Byte strings and their order

    Go strings are byte sequences and [<] on them is the bytewise
    lexicographic order, which is [String.compare]. *)

Module Str.

Definition lt (a b : string) : Prop := String.compare a b = Lt.

Definition ltb (a b : string) : bool := String.ltb a b.

Fixpoint all_chars (P : ascii -> bool) (s : string) : bool :=
  match s with
  | EmptyString => true
  | String c s' => P c && all_chars P s'
  end.

Definition is_digit (c : ascii) : bool :=
  let n := N_of_ascii c in ((48 <=? n) && (n <=? 57))%N.

Definition is_lower (c : ascii) : bool :=
  let n := N_of_ascii c in ((97 <=? n) && (n <=? 122))%N.

(** [s[i:]] and [s[:i]] for [0 <= i <= len(s)]. *)
Fixpoint drop (n : nat) (s : string) : string :=
  match n, s with
  | O, _ => s
  | S n', String _ s' => drop n' s'
  | S _, EmptyString => EmptyString
  end.

Fixpoint take (n : nat) (s : string) : string :=
  match n, s with
  | O, _ => EmptyString
  | S n', String c s' => String c (take n' s')
  | S _, EmptyString => EmptyString
  end.

Fixpoint repeat (c : ascii) (n : nat) : string :=
  match n with
  | O => EmptyString
  | S n' => String c (repeat c n')
  end.

Fixpoint concat (l : list string) : string :=
  match l with
  | nil => EmptyString
  | s :: l' => s +:+ concat l'
  end.

End Str.

(** ** Package [time]

    A [Time] is an instant, counted in nanoseconds since the Unix epoch (Go
    stores whole seconds and a nanosecond part in [0, 10^9); the integer
    division below is the floor, so both views agree).  Only UTC is used by
    the program.  Integers are unbounded here: the saturation of [Add] at the
    ends of Go's representable range is outside the model. *)

Module GoTime.

Definition Time := Z.
Definition Duration := Z.

Definition Second : Duration := 1000000000.
Definition Minute : Duration := 60 * Second.

Definition Add (t : Time) (d : Duration) : Time := t + d.

(** [t.Unix()]: whole seconds since the epoch. *)
Definition Unix (t : Time) : Z := t / Second.

Definition secondsPerDay : Z := 86400.

(** Proleptic Gregorian date of a day of a 400-year era; eras start on
    1 March of a year divisible by 400, [doe] is the day of the era. *)
Definition civil_of_doe (doe : Z) : Z * Z * Z :=
  let yoe := (doe - doe / 1460 + doe / 36524 - doe / 146096) / 365 in
  let doy := doe - (365 * yoe + yoe / 4 - yoe / 100) in
  let mp := (5 * doy + 2) / 153 in
  let d := doy - (153 * mp + 2) / 5 + 1 in
  let m := if mp <? 10 then mp + 3 else mp - 9 in
  (if m <=? 2 then yoe + 1 else yoe, m, d).

(** Year, month and day of the day number [z] (days since 1970-01-01). *)
Definition civil_from_days (z : Z) : Z * Z * Z :=
  let z' := z + 719468 in
  let era := z' / 146097 in
  let '(y, m, d) := civil_of_doe (z' mod 146097) in
  (y + era * 400, m, d).

(** [t.UTC().Date()] and [t.UTC().Clock()]. *)
Definition Date (t : Time) : Z * Z * Z :=
  civil_from_days (Unix t / secondsPerDay).

Definition Clock (t : Time) : Z * Z * Z :=
  let r := Unix t mod secondsPerDay in
  (r / 3600, r mod 3600 / 60, r mod 60).

Definition Year (t : Time) : Z := fst (fst (Date t)).

Definition digit (n : Z) : ascii := ascii_of_N (48 + Z.to_N n).

(** Decimal digits of [u >= 0], most significant first. *)
Fixpoint utoa (fuel : nat) (u : Z) (acc : string) : string :=
  match fuel with
  | O => acc
  | S f =>
      let acc' := String (digit (u mod 10)) acc in
      if u / 10 =? 0 then acc' else utoa f (u / 10) acc'
  end.

Definition decimal (u : Z) : string :=
  utoa (S (Z.to_nat (Z.log2 u))) u EmptyString.

(** [appendInt]: the decimal form of [x], zero-padded to [width]; a
    negative number gets a minus sign before the padding, and a number
    wider than [width] keeps all its digits. *)
Definition appendInt (x : Z) (width : nat) : string :=
  let ds := decimal (Z.abs x) in
  (if x <? 0 then "-" else "")
    +:+ Str.repeat "0"%char (width - String.length ds) +:+ ds.

(** The layout elements that occur in the program's layout. *)
Inductive chunk : Type :=
| stdLongYear     (* "2006" *)
| stdZeroMonth    (* "01" *)
| stdZeroDay      (* "02" *)
| stdHour         (* "15" *)
| stdZeroMinute   (* "04" *)
| stdZeroSecond   (* "05" *)
| literal (c : ascii).

(** Splits a layout into its elements.  Only the six elements above are
    recognised; every other byte is copied (Go knows more elements, none
    of which occurs in [timeFormat]). *)
Fixpoint chunks (fuel : nat) (layout : string) : list chunk :=
  match fuel with
  | O => nil
  | S f =>
      match layout with
      | EmptyString => nil
      | String c rest =>
          if String.prefix "2006" layout then stdLongYear :: chunks f (Str.drop 4 layout)
          else if String.prefix "01" layout then stdZeroMonth :: chunks f (Str.drop 2 layout)
          else if String.prefix "02" layout then stdZeroDay :: chunks f (Str.drop 2 layout)
          else if String.prefix "15" layout then stdHour :: chunks f (Str.drop 2 layout)
          else if String.prefix "04" layout then stdZeroMinute :: chunks f (Str.drop 2 layout)
          else if String.prefix "05" layout then stdZeroSecond :: chunks f (Str.drop 2 layout)
          else literal c :: chunks f rest
      end
  end.

Definition render (t : Time) (c : chunk) : string :=
  let '(year, month, day) := Date t in
  let '(hour, min, sec) := Clock t in
  match c with
  | stdLongYear => appendInt year 4
  | stdZeroMonth => appendInt month 2
  | stdZeroDay => appendInt day 2
  | stdHour => appendInt hour 2
  | stdZeroMinute => appendInt min 2
  | stdZeroSecond => appendInt sec 2
  | literal c => String c EmptyString
  end.

(** [t.UTC().Format(layout)]. *)
Definition Format (t : Time) (layout : string) : string :=
  Str.concat (map (render t) (chunks (String.length layout) layout)).

End GoTime.

(** ** The program: names *)

Definition timeFormat : string := "20060102150405".

(** [formatDBName] *)
Definition formatDBName (suffix : string) (t : GoTime.Time) : string :=
  "pqtest_" +:+ GoTime.Format t timeFormat +:+ "Z_" +:+ suffix.

(** ** The inventory query of the garbage collector *)

Module SQL.

(** [s LIKE p] on byte strings: [%] matches any run of bytes, [_] any
    single byte, every other byte itself (the pattern of the program has
    no escape character). *)
Fixpoint like (p s : string) {struct p} : bool :=
  match p with
  | EmptyString => match s with EmptyString => true | _ => false end
  | String c p' =>
      if Ascii.eqb c "%" then
        (fix star (s : string) : bool :=
           like p' s || match s with
                        | EmptyString => false
                        | String _ s' => star s'
                        end) s
      else
        match s with
        | EmptyString => false
        | String d s' => (Ascii.eqb c "_" || Ascii.eqb c d) && like p' s'
        end
  end.

End SQL.

Definition gcDur : GoTime.Duration := 3 * GoTime.Minute.

(** [gcTime] and the bound passed as [$1], for a reading [now] of the clock. *)
Definition gcTime (now : GoTime.Time) : GoTime.Time := GoTime.Add now (- gcDur).

Definition gcBound (now : GoTime.Time) : string := formatDBName "db" (gcTime now).

(** The [WHERE] clause: [datname LIKE 'pqtest_%' AND datname < $1]. *)
Definition gcWhere (bound datname : string) : bool :=
  SQL.like "pqtest_%" datname && Str.ltb datname bound.

(** ** Packages [strings] and [path/filepath] (Unix separator) *)

Module Strings.

Definition HasSuffix (s suffix : string) : bool :=
  (String.length suffix <=? String.length s)%nat
  && String.eqb (Str.drop (String.length s - String.length suffix) s) suffix.

Definition TrimSuffix (s suffix : string) : string :=
  if HasSuffix s suffix
  then Str.take (String.length s - String.length suffix) s
  else s.

Fixpoint has_byte (c : ascii) (s : string) : bool :=
  match s with
  | EmptyString => false
  | String d s' => Ascii.eqb c d || has_byte c s'
  end.

(** [strings.Split(s, sep)] for a one-byte separator. *)
Fixpoint split (sep : ascii) (s : string) : list string :=
  match s with
  | EmptyString => [EmptyString]
  | String c s' =>
      if Ascii.eqb c sep then EmptyString :: split sep s'
      else match split sep s' with
           | h :: t => String c h :: t
           | [] => [String c EmptyString]
           end
  end.

(** [strings.Join(elems, sep)] *)
Fixpoint join (sep : string) (elems : list string) : string :=
  match elems with
  | [] => EmptyString
  | [e] => e
  | e :: rest => e +:+ sep +:+ join sep rest
  end.

End Strings.

Module Filepath.

Definition slash : ascii := "/"%char.

(** The path without its trailing slashes. *)
Fixpoint trim_slashes (path : string) : string :=
  match path with
  | EmptyString => EmptyString
  | String c rest =>
      match trim_slashes rest with
      | EmptyString => if Ascii.eqb c slash then EmptyString else String c EmptyString
      | r => String c r
      end
  end.

(** What follows the last slash (the whole path if it has none). *)
Fixpoint last_element (path : string) : string :=
  match path with
  | EmptyString => EmptyString
  | String c rest =>
      if Strings.has_byte slash rest then last_element rest
      else if Ascii.eqb c slash then rest else path
  end.

(** [filepath.Base] *)
Definition Base (path : string) : string :=
  if String.eqb path "" then "."
  else
    let path := last_element (trim_slashes path) in
    if String.eqb path "" then "/" else path.

(** [filepath.Ext]: from the last dot of the last element on. *)
Fixpoint Ext (path : string) : string :=
  match path with
  | EmptyString => EmptyString
  | String c rest =>
      match Ext rest with
      | EmptyString =>
          if Strings.has_byte slash rest then EmptyString
          else if Ascii.eqb c "." then path else EmptyString
      | e => e
      end
  end.

(** One element of [Clean]'s scan; [out] holds the elements kept so far,
    last first. *)
Definition clean_step (rooted : bool) (out : list string) (elem : string) : list string :=
  if String.eqb elem "" || String.eqb elem "." then out
  else if String.eqb elem ".." then
    match out with
    | top :: below =>
        if String.eqb top ".." then elem :: out else below
    | [] => if rooted then [] else [elem]
    end
  else elem :: out.

(** [filepath.Clean] *)
Definition Clean (path : string) : string :=
  if String.eqb path "" then "."
  else
    let rooted := String.prefix "/" path in
    let out := rev (fold_left (clean_step rooted) (Strings.split slash path) []) in
    let body := Strings.join "/" out in
    if rooted then "/" +:+ body
    else if String.eqb body "" then "." else body.

(** [filepath.Join] of two elements. *)
Definition Join (dir name : string) : string :=
  if negb (String.eqb dir "") then Clean (dir +:+ "/" +:+ name)
  else if negb (String.eqb name "") then Clean name
  else "".

End Filepath.

(** A Go [error] value; [None] is [nil]. *)
Definition error : Type := string.

(** ** Packages [os] and [path/filepath]: walking a directory *)

Module OS.

(** What [os.Lstat] and the directory listing report below one path. *)
#[warnings="-register-all"]
Inductive node : Type :=
| NotDir                                  (* a file, or anything but a directory *)
| Dir (entries : list (string * node))    (* entries in the order the system lists them *)
| DirUnreadable (e : error)               (* a directory whose listing fails *)
| Missing (e : error).                    (* [Lstat] fails *)

Record FileInfo : Type := { IsDir : bool }.

End OS.

Module Walk.
Import OS.

Definition WalkFunc (S : Type) : Type :=
  string -> FileInfo -> option error -> S -> option error * S.

(** [readDirNames] sorts the names with [sort.Strings]; an entry travels
    with its name. *)
Fixpoint insert_by_name {T : Type} (x : string * T) (l : list (string * T))
  : list (string * T) :=
  match l with
  | [] => [x]
  | y :: l' =>
      if String.leb (fst x) (fst y) then x :: l else y :: insert_by_name x l'
  end.

Definition sort_by_name {T : Type} (l : list (string * T)) : list (string * T) :=
  fold_right insert_by_name [] l.

(** Runs the visits of a directory's entries in order, up to the first error. *)
Fixpoint run_all {S : Type} (l : list (S -> option error * S)) (s : S)
  : option error * S :=
  match l with
  | [] => (None, s)
  | f :: l' =>
      match f s with
      | (Some e, s') => (Some e, s')
      | (None, s') => run_all l' s'
      end
  end.

(** [walk]: the function is called on the node itself and then, for a
    directory, on its entries in the order of their names.  ([SkipDir] is
    not modelled; the function of the program never returns it.) *)
Fixpoint walk {S : Type} (walkFn : WalkFunc S) (path : string) (n : node)
  : S -> option error * S :=
  match n with
  | NotDir => walkFn path {| IsDir := false |} None
  | Missing e => walkFn path {| IsDir := false |} (Some e)
  | DirUnreadable e => walkFn path {| IsDir := true |} (Some e)
  | Dir entries => fun s =>
      match walkFn path {| IsDir := true |} None s with
      | (Some e, s') => (Some e, s')
      | (None, s') =>
          run_all
            (map snd
               (sort_by_name
                  (map (fun en => (fst en, walk walkFn (Filepath.Join path (fst en)) (snd en)))
                     entries)))
            s'
      end
  end.

End Walk.

(** ** Package [net/url]: the URL structure and its string form *)

Module URL.

Record Userinfo : Type := {
  username : string;
  password : string;
  passwordSet : bool
}.

Record URL : Type := {
  Scheme : string;
  Opaque : string;
  User : option Userinfo;
  Host : string;
  Path : string;
  RawPath : string;
  OmitHost : bool;
  ForceQuery : bool;
  RawQuery : string;
  Fragment : string;
  RawFragment : string
}.

Inductive encoding : Type :=
| encodePath | encodeUserPassword | encodeHost | encodeFragment.

Definition byte_in (c : ascii) (set : string) : bool := Strings.has_byte c set.

Definition is_alnum (c : ascii) : bool :=
  let n := N_of_ascii c in
  (((97 <=? n) && (n <=? 122)) || ((65 <=? n) && (n <=? 90)) || ((48 <=? n) && (n <=? 57)))%N.

Definition dquote : ascii := ascii_of_N 34.

Definition shouldEscape (c : ascii) (mode : encoding) : bool :=
  if is_alnum c then false
  else if match mode with encodeHost => true | _ => false end
          && (byte_in c "!$&'()*+,;=:[]<>" || Ascii.eqb c dquote) then false
  else if byte_in c "-_.~" then false
  else if byte_in c "$&+,/:;=?@" then
    match mode with
    | encodePath => Ascii.eqb c "?"
    | encodeUserPassword => byte_in c "@/?:"
    | encodeHost => true
    | encodeFragment => false
    end
  else if match mode with encodeFragment => true | _ => false end
          && byte_in c "!()*" then false
  else true.

Definition upperhex : string := "0123456789ABCDEF".

Definition hex_digit (n : N) : ascii :=
  match String.get (N.to_nat n) upperhex with
  | Some c => c
  | None => "0"%char
  end.

(** [escape]: every byte that must be escaped becomes [%XX]. *)
Fixpoint escape (s : string) (mode : encoding) : string :=
  match s with
  | EmptyString => EmptyString
  | String c rest =>
      if shouldEscape c mode then
        String "%" (String (hex_digit (N_of_ascii c / 16))
                      (String (hex_digit (N_of_ascii c mod 16)) (escape rest mode)))
      else String c (escape rest mode)
  end.

Definition unhex (c : ascii) : option N :=
  let n := N_of_ascii c in
  if ((48 <=? n) && (n <=? 57))%N then Some (n - 48)%N
  else if ((97 <=? n) && (n <=? 102))%N then Some (n - 97 + 10)%N
  else if ((65 <=? n) && (n <=? 70))%N then Some (n - 65 + 10)%N
  else None.

(** [unescape] in a mode other than the host's: [%XX] becomes the byte. *)
Fixpoint unescape (s : string) : option string :=
  match s with
  | EmptyString => Some EmptyString
  | String c rest =>
      if Ascii.eqb c "%" then
        match rest with
        | String h (String l rest') =>
            match unhex h, unhex l, unescape rest' with
            | Some a, Some b, Some r => Some (String (ascii_of_N (a * 16 + b)) r)
            | _, _, _ => None
            end
        | _ => None
        end
      else
        match unescape rest with
        | Some r => Some (String c r)
        | None => None
        end
  end.

Definition validEncoded (s : string) (mode : encoding) : bool :=
  Str.all_chars
    (fun c => byte_in c "!$&'()*+,;=:@[]%" || negb (shouldEscape c mode)) s.

(** [u.EscapedPath()] *)
Definition EscapedPath (u : URL) : string :=
  if negb (String.eqb (RawPath u) "") && validEncoded (RawPath u) encodePath
     && match unescape (RawPath u) with
        | Some p => String.eqb p (Path u)
        | None => false
        end
  then RawPath u
  else if String.eqb (Path u) "*" then "*"
  else escape (Path u) encodePath.

(** [u.EscapedFragment()] *)
Definition EscapedFragment (u : URL) : string :=
  if negb (String.eqb (RawFragment u) "") && validEncoded (RawFragment u) encodeFragment
     && match unescape (RawFragment u) with
        | Some f => String.eqb f (Fragment u)
        | None => false
        end
  then RawFragment u
  else escape (Fragment u) encodeFragment.

Definition Userinfo_String (ui : Userinfo) : string :=
  escape (username ui) encodeUserPassword
  +:+ (if passwordSet ui then ":" +:+ escape (password ui) encodeUserPassword else "").

(** What [String] writes before the path when there is no opaque part. *)
Definition authority (u : URL) : string :=
  if negb (String.eqb (Scheme u) "") || negb (String.eqb (Host u) "") || bool_decide (is_Some (User u))
  then
    if OmitHost u && String.eqb (Host u) "" && negb (bool_decide (is_Some (User u))) then ""
    else
      (if negb (String.eqb (Host u) "") || negb (String.eqb (Path u) "")
          || bool_decide (is_Some (User u)) then "//" else "")
      +:+ match User u with Some ui => Userinfo_String ui +:+ "@" | None => "" end
      +:+ (if negb (String.eqb (Host u) "") then escape (Host u) encodeHost else "")
  else "".

Definition scheme_part (u : URL) : string :=
  if negb (String.eqb (Scheme u) "") then Scheme u +:+ ":" else "".

(** What [String] writes after the path. *)
Definition query_and_fragment (u : URL) : string :=
  (if ForceQuery u || negb (String.eqb (RawQuery u) "") then "?" +:+ RawQuery u else "")
  +:+ (if negb (String.eqb (Fragment u) "") then "#" +:+ EscapedFragment u else "").

Definition first_segment (path : string) : string :=
  match Strings.split "/" path with
  | seg :: _ => seg
  | [] => ""
  end.

(** [u.String()] *)
Definition String_ (u : URL) : string :=
  scheme_part u
  +:+ (if negb (String.eqb (Opaque u) "") then Opaque u
       else
         let head := scheme_part u +:+ authority u in
         let path := EscapedPath u in
         authority u
         +:+ (if negb (String.eqb path "") && negb (String.prefix "/" path)
                 && negb (String.eqb (Host u) "") then "/" else "")
         +:+ (if String.eqb head "" && Strings.has_byte ":" (first_segment path)
              then "./" else "")
         +:+ path)
  +:+ query_and_fragment u.

(** The administrative URL of the program as [url.Parse] delivers it. *)
Definition parsed_default : URL :=
  {| Scheme := "postgres"; Opaque := ""; User := None; Host := "";
     Path := "/postgres"; RawPath := ""; OmitHost := false; ForceQuery := false;
     RawQuery := "sslmode=disable"; Fragment := ""; RawFragment := "" |}.

End URL.

(** ** The world around the program

    [Env] holds what the outside world answers and never changes during a
    call; [State] holds what a call consumes and emits. *)

Record Env : Type := {
  clock : nat -> GoTime.Time;          (* successive readings of [time.Now()] *)
  draws : nat -> Z;                    (* successive outputs of the random source *)
  caller : string;                     (* file reported by [runtime.Caller(2)] in [mkdb] *)
  lstat : string -> OS.node;           (* the file tree below a path *)
  ReadFile : string -> string * option error;     (* [ioutil.ReadFile] *)
  Parse : string -> URL.URL + error;   (* [url.Parse] *)
  open_err : string -> string -> option error;    (* [sql.Open(driver, dsn)] *)
  pg_database : list string;           (* column [datname], in the server's order *)
  query_err : option error;            (* [db.Query] fails *)
  scan_err : nat -> option error;      (* [rows.Scan] fails on the i-th row *)
  rows_stop : option (nat * error);    (* iteration ends after k rows with [rows.Err()] *)
  exec_err : string -> string -> option error     (* [db.Exec(stmt)] on a data source *)
}.

Inductive Event : Type :=
| EvOpen (driver dsn : string)
| EvClose (dsn : string)
| EvQuery (dsn query : string) (args : list string)
| EvExec (dsn stmt : string)
| EvGo (dsn stmt : string)             (* [go db.Exec(stmt)]: dispatched, result dropped *)
| EvPrintln (line : string)
| EvFatal (args : list string).

Record State : Type := {
  ticks : nat;                         (* readings of the clock taken so far *)
  drawn : nat;                         (* random numbers taken so far *)
  trace : list Event                   (* what the call has done, oldest first *)
}.

(** How a computation ends: with a value, by a [Fatal] that does not
    return, or by a run-time panic. *)
Inductive Outcome (A : Type) : Type :=
| Ret (a : A)
| Exit
| Panic.
Arguments Ret {A} a.
Arguments Exit {A}.
Arguments Panic {A}.

Definition M (A : Type) : Type := State -> Outcome A * State.

Definition ret {A : Type} (a : A) : M A := fun st => (Ret a, st).

Definition bind {A B : Type} (m : M A) (k : A -> M B) : M B :=
  fun st =>
    match m st with
    | (Ret a, st') => k a st'
    | (Exit, st') => (Exit, st')
    | (Panic, st') => (Panic, st')
    end.

Notation "x <- m ;; k" := (bind m (fun x => k))
  (at level 100, m at next level, right associativity).
Notation "m ;;; k" := (bind m (fun _ => k))
  (at level 100, right associativity).

Definition panic {A : Type} : M A := fun st => (Panic, st).

Definition emit (ev : Event) : M unit :=
  fun st => (Ret tt, {| ticks := ticks st; drawn := drawn st; trace := trace st ++ [ev] |}).

(** A [Fataler]: its [Fatal] either ends the calling goroutine or process
    (as [*testing.T] and [*log.Logger] do) or returns. *)
Record Fataler : Type := { returns : bool }.

Definition Fatal (f : Fataler) (args : list string) : M unit :=
  emit (EvFatal args) ;;;
  if returns f then ret tt else (fun st => (Exit, st)).

(** A non-nil [*sql.DB], known by its data source; the nil pointer is
    [None] in [option DB]. *)
Record DB : Type := { dsn : string }.

Definition quote : ascii := ascii_of_N 34.

Fixpoint double_quotes (s : string) : string :=
  match s with
  | EmptyString => EmptyString
  | String c rest =>
      if Ascii.eqb c quote then String quote (String quote (double_quotes rest))
      else String c (double_quotes rest)
  end.

Fixpoint until_nul (s : string) : string :=
  match s with
  | EmptyString => EmptyString
  | String c rest => if Ascii.eqb c zero then EmptyString else String c (until_nul rest)
  end.

(** [pq.QuoteIdentifier] *)
Definition QuoteIdentifier (name : string) : string :=
  String quote (double_quotes (until_nul name)) +:+ String quote EmptyString.

Section Program.
Variable env : Env.

Definition Now : M GoTime.Time :=
  fun st => (Ret (clock env (ticks st)),
             {| ticks := S (ticks st); drawn := drawn st; trace := trace st |}).

(** [random.Intn(n)]: panics unless [n > 0], else some number in [0, n). *)
Definition Intn (n : Z) : M Z :=
  if n <=? 0 then panic
  else fun st => (Ret (draws env (drawn st) mod n),
                  {| ticks := ticks st; drawn := S (drawn st); trace := trace st |}).

(** [s[i]] *)
Definition index (s : string) (i : Z) : M ascii :=
  if i <? 0 then panic
  else match String.get (Z.to_nat i) s with
       | Some c => ret c
       | None => panic
       end.

Definition chars : string := "abcdefghijklmnopqrstuvwxyz".

(** The loop [for i := 0; i < 10; i++ { s += string(chars[random.Intn(len(chars))]) }],
    with [n] iterations left. *)
Fixpoint randomLetters (n : nat) (s : string) : M string :=
  match n with
  | O => ret s
  | S n' =>
      i <- Intn (Z.of_nat (String.length chars)) ;;
      c <- index chars i ;;
      randomLetters n' (s +:+ String c EmptyString)
  end.

(** [randomDBName] *)
Definition randomDBName (file : string) : M string :=
  s <- randomLetters 10 "" ;;
  let suffix := s in
  let withoutExt := Strings.TrimSuffix (Filepath.Base file) ".go" in
  let suffix :=
    if negb (String.eqb withoutExt "") then suffix +:+ "_" +:+ withoutExt else suffix in
  now <- Now ;;
  ret (formatDBName suffix now).

(** *** [database/sql] *)

Definition sql_Open (driver dataSource : string) : M (option DB * option error) :=
  emit (EvOpen driver dataSource) ;;;
  match open_err env driver dataSource with
  | Some e => ret (None, Some e)
  | None => ret (Some {| dsn := dataSource |}, None)
  end.

Definition Close (db : DB) : M unit := emit (EvClose (dsn db)).

Definition Exec (db : DB) (stmt : string) : M (option error) :=
  emit (EvExec (dsn db) stmt) ;;; ret (exec_err env (dsn db) stmt).

(** [go db.Exec(stmt)]: the statement is built now, sent some time later,
    and whatever [Exec] returns is discarded. *)
Definition go_Exec (db : DB) (stmt : string) : M unit := emit (EvGo (dsn db) stmt).

(** The rows of a result set: for each row what [Scan] returns and the
    value it stores, and what [Err] reports once [Next] has returned false. *)
Record Rows : Type := {
  scans : list (option error * string);
  Err : option error
}.

(** The inventory query of the program. *)
Definition q : string :=
"
		SELECT datname FROM pg_database
		WHERE datname LIKE 'pqtest_%' AND datname < $1
	".

(** What the server selects: it knows the one query the program sends. *)
Definition select (query : string) (args : list string) : list string :=
  if String.eqb query q then
    match args with
    | [bound] => List.filter (gcWhere bound) (pg_database env)
    | _ => []
    end
  else [].

Definition delivered (rows : list string) : list string :=
  match rows_stop env with
  | Some (k, _) => firstn k rows
  | None => rows
  end.

Definition Query (db : DB) (query : string) (args : list string)
  : M (option Rows * option error) :=
  emit (EvQuery (dsn db) query args) ;;;
  match query_err env with
  | Some e => ret (None, Some e)
  | None =>
      ret (Some {| scans := imap (fun i name => (scan_err env i, name))
                              (delivered (select query args));
                   Err := option_map snd (rows_stop env) |}, None)
  end.

(** The loop [for rows.Next() { ... rows.Scan(&name) ... names = append(names, name) }]. *)
Fixpoint scanAll (rows : list (option error * string)) (names : list string)
  : list string + error :=
  match rows with
  | [] => inl names
  | (Some err, _) :: _ => inr err
  | (None, name) :: rest => scanAll rest (names ++ [name])
  end.

(** The loop [for i, name := range names { if i > 5 { break }; go db.Exec(...) }],
    entered at index [i]. *)
Fixpoint dropLoop (db : DB) (i : Z) (names : list string) : M unit :=
  match names with
  | [] => ret tt
  | name :: rest =>
      if i >? 5 then ret tt
      else
        go_Exec db ("DROP DATABASE " +:+ QuoteIdentifier name) ;;;
        dropLoop db (i + 1) rest
  end.

(** [garbageCollectDBs] *)
Definition garbageCollectDBs (db : DB) : M (option error) :=
  now <- Now ;;
  let gcTime := GoTime.Add now (- gcDur) in
  r <- Query db q [formatDBName "db" gcTime] ;;
  match r with
  | (_, Some err) => ret (Some err)
  | (None, None) => panic
  | (Some rows, None) =>
      match scanAll (scans rows) [] with
      | inr err => ret (Some err)
      | inl names =>
          match Err rows with
          | Some err => ret (Some err)
          | None => dropLoop db 0 names ;;; ret None
          end
      end
  end.

Definition set_path (u : URL.URL) (path : string) : URL.URL :=
  {| URL.Scheme := URL.Scheme u; URL.Opaque := URL.Opaque u; URL.User := URL.User u;
     URL.Host := URL.Host u;
     URL.Path := path; URL.RawPath := path;
     URL.OmitHost := URL.OmitHost u; URL.ForceQuery := URL.ForceQuery u;
     URL.RawQuery := URL.RawQuery u; URL.Fragment := URL.Fragment u;
     URL.RawFragment := URL.RawFragment u |}.

(** [mkdb]; the deferred [ctldb.Close()] runs on every return after the
    control connection was opened. *)
Definition mkdb (dbURL : string) : M (string * option error) :=
  let file := caller env in
  name <- randomDBName file ;;
  match Parse env dbURL with
  | inr err => ret ("", Some err)
  | inl u =>
      let u := set_path u ("/" +:+ name) in
      r <- sql_Open "postgres" dbURL ;;
      match r with
      | (_, Some err) => ret ("", Some err)
      | (None, None) => panic
      | (Some ctldb, None) =>
          err <- garbageCollectDBs ctldb ;;
          match err with
          | Some err => Close ctldb ;;; ret ("", Some err)
          | None =>
              err <- Exec ctldb ("CREATE DATABASE " +:+ QuoteIdentifier name) ;;
              Close ctldb ;;; ret (URL.String_ u, err)
          end
      end
  end.

(** *** Options *)

Record optionData : Type := {
  schema : list string;
  schemaPaths : list string;
  databaseURL : string
}.

Definition add_schemaPath (data : optionData) (path : string) : optionData :=
  {| schema := schema data; schemaPaths := schemaPaths data ++ [path];
     databaseURL := databaseURL data |}.

Definition add_schema (data : optionData) (text : string) : optionData :=
  {| schema := schema data ++ [text]; schemaPaths := schemaPaths data;
     databaseURL := databaseURL data |}.

(** The values of the interface [Option]: its method is unexported, so
    they are the results of the two constructors of the package. *)
Inductive Option : Type :=
| SchemaFile (filePath : string)
| Migrations (dir : string).

(** The function [Migrations] hands to [filepath.Walk]. *)
Definition migrationsWalkFn : Walk.WalkFunc optionData :=
  fun path info err data =>
    match err with
    | Some e => (Some e, data)
    | None =>
        if negb (String.eqb (Filepath.Ext path) ".sql") || OS.IsDir info
        then (None, data)
        else (None, add_schemaPath data path)
    end.

(** [filepath.Walk] *)
Definition filepath_Walk {S : Type} (root : string) (walkFn : Walk.WalkFunc S)
  : S -> option error * S :=
  Walk.walk walkFn root (lstat env root).

Definition apply (o : Option) (f : Fataler) (data : optionData) : M optionData :=
  match o with
  | SchemaFile filePath => ret (add_schemaPath data filePath)
  | Migrations dir =>
      let '(err, data) := filepath_Walk dir migrationsWalkFn data in
      match err with
      | Some e => Fatal f [e] ;;; ret data
      | None => ret data
      end
  end.

(** *** [Open] *)

Definition defaultURL : string := "postgres:///postgres?sslmode=disable".

(** [for _, opt := range opts { opt.apply(f, &data) }] *)
Fixpoint applyAll (f : Fataler) (opts : list Option) (data : optionData) : M optionData :=
  match opts with
  | [] => ret data
  | opt :: rest => data <- apply opt f data ;; applyAll f rest data
  end.

(** [for _, sp := range data.schemaPaths { ... }] *)
Fixpoint readSchemas (f : Fataler) (paths : list string) (data : optionData)
  : M optionData :=
  match paths with
  | [] => ret data
  | sp :: rest =>
      let '(schemaBytes, err) := ReadFile env sp in
      (match err with
       | Some e => Fatal f [sp; e]
       | None => ret tt
       end) ;;;
      readSchemas f rest (add_schema data schemaBytes)
  end.

(** [for _, schema := range data.schema { _, err = db.Exec(schema) ... }];
    [db.Exec] on a nil [*sql.DB] panics. *)
Fixpoint execSchemas (f : Fataler) (db : option DB) (schemas : list string) : M unit :=
  match schemas with
  | [] => ret tt
  | text :: rest =>
      err <- match db with
             | Some d => Exec d text
             | None => panic
             end ;;
      (match err with
       | Some e => Fatal f [e]
       | None => ret tt
       end) ;;;
      execSchemas f db rest
  end.

(** The first half of [Open]: the options record after the options and the
    schema files have been read. *)
Definition loadOptions (f : Fataler) (opts : list Option) : M optionData :=
  let data := {| schema := []; schemaPaths := []; databaseURL := defaultURL |} in
  data <- applyAll f opts data ;;
  readSchemas f (schemaPaths data) data.

(** The second half of [Open]. *)
Definition provision (f : Fataler) (data : optionData) : M (option DB) :=
  r <- mkdb (databaseURL data) ;;
  let '(newDatabaseURL, err) := r in
  (match err with
   | Some e => Fatal f [e]
   | None => ret tt
   end) ;;;
  emit (EvPrintln newDatabaseURL) ;;;
  r <- sql_Open "postgres" newDatabaseURL ;;
  let '(db, err) := r in
  (match err with
   | Some e => Fatal f [e]
   | None => ret tt
   end) ;;;
  execSchemas f db (schema data) ;;;
  ret db.

(** [Open] *)
Definition Open (f : Fataler) (opts : list Option) : M (option DB) :=
  data <- loadOptions f opts ;;
  provision f data.

End Program.

(** ** A sample world *)

Definition sample_tree : OS.node :=
  OS.Dir [("0002_b.sql", OS.NotDir); ("README.md", OS.NotDir);
          ("old", OS.Dir [("0000_z.sql", OS.NotDir); ("x.sql", OS.Dir [])]);
          ("old.sql", OS.NotDir); ("0001_a.sql", OS.NotDir)].

Definition sample_env : Env :=
  {| clock := fun n => 1777777777 * GoTime.Second + Z.of_nat n * 1000000;
     draws := fun n => 7 * Z.of_nat n + 3;
     caller := "/home/dev/src/app/store_test.go";
     lstat := fun path =>
       if String.eqb path "migrations" then sample_tree else OS.Missing "no such file or directory";
     ReadFile := fun path =>
       if String.eqb path "migrations/0001_a.sql" then ("CREATE TABLE a ();", None)
       else if String.eqb path "migrations/0002_b.sql" then ("CREATE TABLE b ();", None)
       else if String.eqb path "migrations/old.sql" then ("DROP TABLE c;", None)
       else if String.eqb path "migrations/old/0000_z.sql" then ("SELEC 1;", None)
       else ("", Some "open: no such file or directory");
     Parse := fun s =>
       if String.eqb s defaultURL then inl URL.parsed_default else inr "parse: unsupported";
     open_err := fun _ _ => None;
     pg_database :=
       ["postgres"; "template1";
        "pqtest_20260503030437Z_qwertyuiop_store_test";
        "pqtest_20260503025937Z_a"; "pqtest_20260503025938Z_b";
        "pqtest_20260503025939Z_c"; "pqtest_20260503025940Z_d";
        "pqtest_20260503025941Z_e"; "pqtest_20260503025942Z_f";
        "pqtest_20260503025943Z_g"; "pqtestX20260503025943Z_h";
        "pqtest_20260503030837Z_new"];
     query_err := None;
     scan_err := fun _ => None;
     rows_stop := None;
     exec_err := fun _ stmt => if String.eqb stmt "SELEC 1;" then Some "syntax error" else None |}.

Definition start : State := {| ticks := 0; drawn := 0; trace := [] |}.

(** ** Definitions that serve the proofs *)

Section Support.
Import GoTime.

Definition date_ord (c : Z * Z * Z) : Z :=
  let '(y, m, d) := c in y * 10000 + m * 100 + d.

(** The day count of an era with its leap-day corrections, whose quotient
    by 365 is the year of the era. *)
Definition era_days (doe : Z) : Z := doe - doe / 1460 + doe / 36524 - doe / 146096.

(** The first day of the year [y] of an era. *)
Definition year_start (y : Z) : Z := 365 * y + y / 4 - y / 100 + y / 400.

(** Month (counted from March) and day of the day [doy] of a year. *)
Definition month_day (doy : Z) : Z * Z :=
  let mp := (5 * doy + 2) / 153 in (mp, doy - (153 * mp + 2) / 5 + 1).

Definition year_ok (y : Z) : bool :=
  (era_days (year_start y) / 365 =? y)
  && (era_days (year_start (y + 1) - 1) / 365 =? y)
  && (year_start y <? year_start (y + 1))
  && (year_start (y + 1) - year_start y <=? 366).

Definition doy_ok (doy : Z) : bool :=
  let '(mp, d) := month_day doy in
  (0 <=? mp) && (mp <=? 11) && (1 <=? d) && (d <=? 31).

Definition doy_step (doy : Z) : bool :=
  let '(mp1, d1) := month_day doy in
  let '(mp2, d2) := month_day (doy + 1) in
  mp1 * 100 + d1 <? mp2 * 100 + d2.

Definition cmp_eqb (c1 c2 : comparison) : bool :=
  match c1, c2 with
  | Eq, Eq | Lt, Lt | Gt, Gt => true
  | _, _ => false
  end.

Definition pad2_ok (a : Z) : bool :=
  (String.length (appendInt a 2) =? 2)%nat
  && Str.all_chars Str.is_digit (appendInt a 2)
  && all_from (fun b => cmp_eqb (String.compare (appendInt a 2) (appendInt b 2))
                                (a ?= b)) 100 0.

Definition pad4_ok (y : Z) : bool :=
  String.eqb (appendInt y 4) (appendInt (y / 100) 2 +:+ appendInt (y mod 100) 2).

(** The years whose four-digit form is exact: on them the layout
    [timeFormat] prints fourteen digits. *)
Definition four_digit_year (t : Time) : Prop := 0 <= Year t <= 9999.

(** The seven two-digit numbers the timestamp prints. *)
Definition fields (t : Time) : list Z :=
  let '(year, month, day) := Date t in
  let '(hour, min, sec) := Clock t in
  [year / 100; year mod 100; month; day; hour; min; sec].

Definition blocks (l : list Z) : string :=
  Str.concat (map (fun x => appendInt x 2) l).

Fixpoint lexZ (l1 l2 : list Z) : comparison :=
  match l1, l2 with
  | [], [] => Eq
  | [], _ :: _ => Lt
  | _ :: _, [] => Gt
  | x :: l1', y :: l2' =>
      match x ?= y with
      | Eq => lexZ l1' l2'
      | c => c
      end
  end.

End Support.

(** ** States and worlds derived from others *)

Definition logged (st : State) (evs : list Event) : State :=
  {| ticks := ticks st; drawn := drawn st; trace := trace st ++ evs |}.

Definition ticked (st : State) : State :=
  {| ticks := S (ticks st); drawn := drawn st; trace := trace st |}.

Definition drew (n : nat) (st : State) : State :=
  {| ticks := ticks st; drawn := (drawn st + n)%nat; trace := trace st |}.

(** The same world with other answers to [db.Exec]. *)
Definition with_exec_err (env : Env) (answers : string -> string -> option error) : Env :=
  {| clock := clock env; draws := draws env; caller := caller env; lstat := lstat env;
     ReadFile := ReadFile env; Parse := Parse env; open_err := open_err env;
     pg_database := pg_database env; query_err := query_err env;
     scan_err := scan_err env; rows_stop := rows_stop env; exec_err := answers |}.

(** The same world with another file tree below every path. *)
Definition with_tree (env : Env) (tree : OS.node) : Env :=
  {| clock := clock env; draws := draws env; caller := caller env;
     lstat := fun _ => tree;
     ReadFile := ReadFile env; Parse := Parse env; open_err := open_err env;
     pg_database := pg_database env; query_err := query_err env;
     scan_err := scan_err env; rows_stop := rows_stop env; exec_err := exec_err env |}.

(** The same world with a failing inventory query. *)
Definition with_query_err (env : Env) (err : error) : Env :=
  {| clock := clock env; draws := draws env; caller := caller env; lstat := lstat env;
     ReadFile := ReadFile env; Parse := Parse env; open_err := open_err env;
     pg_database := pg_database env; query_err := Some err;
     scan_err := scan_err env; rows_stop := rows_stop env; exec_err := exec_err env |}.

(** What the enumeration of the collector yields for a bound: the names
    scanned, or the first error of the query, of a scan or of the rows. *)
Definition enumerate (env : Env) (bound : string) : list string + error :=
  match query_err env with
  | Some err => inr err
  | None =>
      match scanAll (imap (fun i name => (scan_err env i, name))
                       (delivered env (select env q [bound]))) [] with
      | inr err => inr err
      | inl names =>
          match rows_stop env with
          | Some (_, err) => inr err
          | None => inl names
          end
      end
  end.

Definition drop_event (db : DB) (name : string) : Event :=
  EvGo (dsn db) ("DROP DATABASE " +:+ QuoteIdentifier name).

Definition is_go (ev : Event) : bool :=
  match ev with EvGo _ _ => true | _ => false end.

Definition is_exec (ev : Event) : bool :=
  match ev with EvExec _ _ => true | _ => false end.

(** The optional tag of a name: the base name of the caller's file
    without its [.go] extension, after an underscore. *)
Definition caller_tag (file : string) : string :=
  let tag := Strings.TrimSuffix (Filepath.Base file) ".go" in
  if String.eqb tag "" then "" else "_" +:+ tag.

(** ** The schema files of a tree, in the words of the specification *)

(** A name as a directory lists it: not empty, without a slash, and
    neither [.] nor [..]. *)
Definition plain (name : string) : bool :=
  negb (String.eqb name "") && negb (String.eqb name ".") && negb (String.eqb name "..")
  && negb (Strings.has_byte "/" name).

(** A tree every directory of which can be listed, with plain names. *)
Fixpoint healthy (n : OS.node) : bool :=
  match n with
  | OS.NotDir => true
  | OS.Dir entries => forallb (fun en => plain (fst en) && healthy (snd en)) entries
  | OS.DirUnreadable _ => false
  | OS.Missing _ => false
  end.

(** [file_under path n p]: [p] is the path of a file (not a directory)
    at any depth below the node [n] found at [path]. *)
Inductive file_under : string -> OS.node -> string -> Prop :=
| file_here (path : string) : file_under path OS.NotDir path
| file_below (path name : string) (child : OS.node) (entries : list (string * OS.node))
    (p : string) :
    In (name, child) entries ->
    file_under (Filepath.Join path name) child p ->
    file_under path (OS.Dir entries) p.

(** The schema files below a node, directory by directory in the order of
    the names. *)
Fixpoint sql_files (path : string) (n : OS.node) : list string :=
  match n with
  | OS.NotDir => if String.eqb (Filepath.Ext path) ".sql" then [path] else []
  | OS.Dir entries =>
      concat (map snd
                (Walk.sort_by_name
                   (map (fun en => (fst en, sql_files (Filepath.Join path (fst en)) (snd en)))
                      entries)))
  | OS.DirUnreadable _ => []
  | OS.Missing _ => []
  end.

Definition add_paths (data : optionData) (paths : list string) : optionData :=
  {| schema := schema data; schemaPaths := schemaPaths data ++ paths;
     databaseURL := databaseURL data |}.

(** A directory without subdirectories. *)
Definition flat (entries : list (string * OS.node)) : bool :=
  forallb (fun en => match snd en with OS.NotDir => true | _ => false end) entries.

(** What [Join] puts before a plain name. *)
Definition join_prefix (dir : string) : string :=
  let rooted := String.prefix "/" dir in
  let out := rev (fold_left (Filepath.clean_step rooted) (Strings.split Filepath.slash dir) []) in
  (if rooted then "/" else "")
  +:+ match out with
      | [] => ""
      | _ => Strings.join "/" out +:+ "/"
      end.

Definition create_stmt (name : string) : string :=
  "CREATE DATABASE " +:+ QuoteIdentifier name.

(** The letter at an index of [chars], if it is a lowercase letter. *)
Definition letter_ok (i : Z) : bool :=
  match String.get (Z.to_nat i) chars with
  | Some c => Str.is_lower c
  | None => false
  end.

(** The name a call of [randomDBName] generates. *)
Definition generated_name (env : Env) (file : string) (st : State) : string :=
  match randomDBName env file st with
  | (Ret name, _) => name
  | _ => ""
  end.

(** A computation that only adds to the trace, and only events in [P],
    and whose value, if it returns one, is in [Q]. *)
Definition emits {A : Type} (P : Event -> Prop) (Q : A -> Prop) (m : M A) : Prop :=
  forall st, exists later,
    trace (snd (m st)) = trace st ++ later /\ Forall P later
    /\ forall a, fst (m st) = Ret a -> Q a.

Definition any {A : Type} (a : A) : Prop := True.

(** Events other than a statement executed on the data source [dsn]. *)
Definition not_exec_on (dsn : string) (ev : Event) : Prop :=
  match ev with
  | EvExec d _ => d <> dsn
  | _ => True
  end.

(** A computation that never ends by a [Fatal] that does not return. *)
Definition no_exit {A : Type} (m : M A) : Prop :=
  forall st, fst (m st) <> Exit.

(** What [Open] does once [mkdb] has returned. *)
Definition after_mkdb (env : Env) (f : Fataler) (data : optionData)
    (r : string * option error) : M (option DB) :=
  (match snd r with
   | Some e => Fatal f [e]
   | None => ret tt
   end) ;;;
  emit (EvPrintln (fst r)) ;;;
  r' <- sql_Open env "postgres" (fst r) ;;
  (match snd r' with
   | Some e => Fatal f [e]
   | None => ret tt
   end) ;;;
  execSchemas env f (fst r') (schema data) ;;;
  ret (fst r').

(** ** Definitions for the further properties *)

Definition is_open (ev : Event) : bool :=
  match ev with EvOpen _ _ => true | _ => false end.

Definition is_close (ev : Event) : bool :=
  match ev with EvClose _ => true | _ => false end.

Definition is_fatal (ev : Event) : bool :=
  match ev with EvFatal _ => true | _ => false end.

(** The check of one byte for the round trip of [escape]: its two
    hexadecimal digits read back as the byte. *)
Definition hex_ok (c : ascii) : bool :=
  match URL.unhex (URL.hex_digit (N_of_ascii c / 16)),
        URL.unhex (URL.hex_digit (N_of_ascii c mod 16)) with
  | Some a, Some b => Ascii.eqb (ascii_of_N (a * 16 + b)) c
  | _, _ => false
  end.

(** What an option adds to the schema paths in a world. *)
Definition contribution (env : Env) (o : Option) : list string :=
  match o with
  | SchemaFile filePath => [filePath]
  | Migrations dir => sql_files dir (lstat env dir)
  end.

(** An option whose tree, if it has one, can be read throughout. *)
Definition readable (env : Env) (o : Option) : bool :=
  match o with
  | SchemaFile _ => true
  | Migrations dir => healthy (lstat env dir)
  end.

(** With a [Fatal] that does not return: a computation that either
    returns in the state it started in or ends at its first [Fatal]. *)
Definition stops_at_Fatal {A : Type} (m : M A) : Prop :=
  forall st,
    (exists a, m st = (Ret a, st))
    \/ (exists args, m st = (Exit, logged st [EvFatal args])).

(** The same world with another caller of [Open]. *)
Definition with_caller (env : Env) (file : string) : Env :=
  {| clock := clock env; draws := draws env; caller := file; lstat := lstat env;
     ReadFile := ReadFile env; Parse := Parse env; open_err := open_err env;
     pg_database := pg_database env; query_err := query_err env;
     scan_err := scan_err env; rows_stop := rows_stop env; exec_err := exec_err env |}.

(** The same world with other answers to [sql.Open]. *)
Definition with_open_err (env : Env) (answers : string -> string -> option error) : Env :=
  {| clock := clock env; draws := draws env; caller := caller env; lstat := lstat env;
     ReadFile := ReadFile env; Parse := Parse env; open_err := answers;
     pg_database := pg_database env; query_err := query_err env;
     scan_err := scan_err env; rows_stop := rows_stop env; exec_err := exec_err env |}.

(** The errors a walk can meet below a node, in the order of the walk. *)
Fixpoint walk_errors (n : OS.node) : list error :=
  match n with
  | OS.NotDir => []
  | OS.Dir entries =>
      concat (map snd
                (Walk.sort_by_name (map (fun en => (fst en, walk_errors (snd en))) entries)))
  | OS.DirUnreadable e => [e]
  | OS.Missing e => [e]
  end.

(** A name without a NUL byte. *)
Definition nul_free (name : string) : bool :=
  Str.all_chars (fun c => negb (Ascii.eqb c zero)) name.

(** The same world with another clock and other databases on the server. *)
Definition with_clock_and_databases (env : Env) (time : nat -> GoTime.Time)
    (names : list string) : Env :=
  {| clock := time; draws := draws env; caller := caller env; lstat := lstat env;
     ReadFile := ReadFile env; Parse := Parse env; open_err := open_err env;
     pg_database := names; query_err := query_err env;
     scan_err := scan_err env; rows_stop := rows_stop env; exec_err := exec_err env |}.

(** * Proofs *)

Lemma all_from_spec (P : Z -> bool) (n : nat) (z : Z) :
  all_from P n z = true ->
  forall x, z <= x < z + Z.of_nat n -> P x = true.
Proof.
  revert z. induction n as [|n IH]; intros z H x Hx; [lia|].
  cbn [all_from] in H. destruct (P z) eqn:Hz; [|discriminate].
  destruct (Z.eq_dec x z) as [->|Hne]; [exact Hz|].
  apply (IH (z + 1)); [exact H|lia].
Qed.

Lemma ltb_lt (a b : string) : Str.ltb a b = true <-> Str.lt a b.
Proof.
  unfold Str.ltb, Str.lt, String.ltb.
  destruct (String.compare a b); split; congruence.
Qed.

Lemma app_nil_l_str (s : string) : "" +:+ s = s.
Proof. reflexivity. Qed.

Lemma app_cons_str (c : ascii) (s t : string) :
  String c s +:+ t = String c (s +:+ t).
Proof. reflexivity. Qed.

Lemma app_nil_r_str (s : string) : s +:+ "" = s.
Proof. induction s as [|c s IH]; [reflexivity|]. rewrite app_cons_str, IH. reflexivity. Qed.

Lemma app_assoc_str (a b c : string) : (a +:+ b) +:+ c = a +:+ (b +:+ c).
Proof.
  induction a as [|x a IH]; [reflexivity|].
  rewrite !app_cons_str, IH. reflexivity.
Qed.

Lemma length_app_str (a b : string) :
  String.length (a +:+ b) = (String.length a + String.length b)%nat.
Proof.
  induction a as [|x a IH]; [reflexivity|].
  rewrite app_cons_str. cbn [String.length]. rewrite IH. reflexivity.
Qed.

Lemma ascii_compare_refl (c : ascii) : Ascii.compare c c = Eq.
Proof. unfold Ascii.compare. apply N.compare_refl. Qed.

Lemma compare_refl_str (s : string) : String.compare s s = Eq.
Proof.
  induction s as [|c s IH]; [reflexivity|].
  cbn [String.compare]. rewrite ascii_compare_refl. exact IH.
Qed.

(** Comparing two strings that share a prefix compares what follows it. *)
Lemma compare_app_prefix (p x y : string) :
  String.compare (p +:+ x) (p +:+ y) = String.compare x y.
Proof.
  induction p as [|c p IH]; [reflexivity|].
  rewrite !app_cons_str. cbn [String.compare].
  rewrite ascii_compare_refl. exact IH.
Qed.

(** Two blocks of equal length decide the comparison unless they are equal. *)
Lemma compare_app_block (a b x y : string) :
  String.length a = String.length b ->
  String.compare (a +:+ x) (b +:+ y) =
    match String.compare a b with
    | Eq => String.compare x y
    | c => c
    end.
Proof.
  revert b. induction a as [|c a IH]; intros [|d b] Hlen;
    try discriminate Hlen; [reflexivity|].
  rewrite !app_cons_str. cbn [String.compare].
  destruct (Ascii.compare c d); try reflexivity.
  apply IH. cbn [String.length] in Hlen. congruence.
Qed.

Lemma all_chars_app (P : ascii -> bool) (a b : string) :
  Str.all_chars P (a +:+ b) = Str.all_chars P a && Str.all_chars P b.
Proof.
  induction a as [|c a IH]; [reflexivity|].
  rewrite app_cons_str. cbn [Str.all_chars]. rewrite IH.
  rewrite andb_assoc. reflexivity.
Qed.

(** ** Calendar facts *)

Section Calendar.
Import GoTime.

Lemma year_ok_all : all_from year_ok 400 0 = true.
Proof. vm_cast_no_check (eq_refl true). Qed.

Lemma doy_ok_all : all_from doy_ok 366 0 = true.
Proof. vm_cast_no_check (eq_refl true). Qed.

Lemma doy_step_all : all_from doy_step 365 0 = true.
Proof. vm_cast_no_check (eq_refl true). Qed.

Lemma year_ok_spec (y : Z) :
  0 <= y < 400 ->
  era_days (year_start y) / 365 = y
  /\ era_days (year_start (y + 1) - 1) / 365 = y
  /\ year_start y < year_start (y + 1) <= year_start y + 366.
Proof.
  intros H. pose proof (all_from_spec _ _ _ year_ok_all y ltac:(lia)) as Hok.
  unfold year_ok in Hok.
  repeat (apply andb_prop in Hok; destruct Hok as [Hok ?]). lia.
Qed.

Lemma era_days_step (d : Z) : 0 <= d < 146096 -> era_days d <= era_days (d + 1).
Proof.
  intros H. unfold era_days. Z.div_mod_to_equations. lia.
Qed.

Lemma era_days_mono (a b : Z) : 0 <= a -> a <= b -> b < 146097 -> era_days a <= era_days b.
Proof.
  intros Ha Hab Hb.
  assert (Hgen : forall n : nat, a + Z.of_nat n < 146097 ->
                   era_days a <= era_days (a + Z.of_nat n)).
  { induction n as [|n IH]; intros Hn.
    - replace (a + Z.of_nat 0) with a by lia. lia.
    - specialize (IH ltac:(lia)).
      pose proof (era_days_step (a + Z.of_nat n) ltac:(lia)).
      replace (a + Z.of_nat (S n)) with (a + Z.of_nat n + 1) by lia. lia. }
  specialize (Hgen (Z.to_nat (b - a))).
  replace (a + Z.of_nat (Z.to_nat (b - a))) with b in Hgen by lia.
  apply Hgen. lia.
Qed.

Lemma year_start_0 : year_start 0 = 0.
Proof. reflexivity. Qed.

Lemma year_start_400 : year_start 400 = 146097.
Proof. reflexivity. Qed.

(** Every day of an era lies in one of its 400 years. *)
Lemma year_exists (doe : Z) :
  0 <= doe < 146097 ->
  exists y, 0 <= y < 400 /\ year_start y <= doe < year_start (y + 1).
Proof.
  intros H.
  assert (Hgen : forall n : nat, (n <= 400)%nat -> doe < year_start (Z.of_nat n) ->
                   exists y, 0 <= y < Z.of_nat n /\ year_start y <= doe < year_start (y + 1)).
  { induction n as [|n IH]; intros Hn Hlt.
    - change (Z.of_nat 0) with 0 in Hlt. rewrite year_start_0 in Hlt. lia.
    - destruct (Z.lt_ge_cases doe (year_start (Z.of_nat n))) as [Hl|Hg].
      + destruct (IH ltac:(lia) Hl) as [y [Hy Hd]]. exists y. split; [lia|exact Hd].
      + exists (Z.of_nat n). split; [lia|].
        replace (Z.of_nat n + 1) with (Z.of_nat (S n)) by lia. lia. }
  destruct (Hgen 400%nat ltac:(lia)) as [y [Hy Hd]].
  - change (Z.of_nat 400) with 400. rewrite year_start_400. lia.
  - exists y. split; [lia|exact Hd].
Qed.

(** The quotient of the corrected day count is the year of the day. *)
Lemma year_of_doe (doe : Z) :
  0 <= doe < 146097 ->
  0 <= era_days doe / 365 < 400
  /\ year_start (era_days doe / 365) <= doe < year_start (era_days doe / 365 + 1)
  /\ doe - year_start (era_days doe / 365) < 366.
Proof.
  intros H. destruct (year_exists doe H) as [y [Hy [Hlo Hhi]]].
  destruct (year_ok_spec y Hy) as [H1 [H2 [H3 H4]]].
  assert (Hs0 : 0 <= year_start y).
  { unfold year_start. Z.div_mod_to_equations. lia. }
  assert (Hs1 : year_start (y + 1) <= 146097).
  { unfold year_start. Z.div_mod_to_equations. lia. }
  assert (Hq : era_days doe / 365 = y).
  { pose proof (era_days_mono (year_start y) doe ltac:(lia) ltac:(lia) ltac:(lia)) as Ha.
    pose proof (era_days_mono doe (year_start (y + 1) - 1) ltac:(lia) ltac:(lia) ltac:(lia)) as Hb.
    apply (Z.div_le_mono _ _ 365 ltac:(lia)) in Ha.
    apply (Z.div_le_mono _ _ 365 ltac:(lia)) in Hb. lia. }
  rewrite Hq. lia.
Qed.

Lemma civil_of_doe_unfold (doe : Z) :
  0 <= doe < 146097 ->
  civil_of_doe doe =
  let yoe := era_days doe / 365 in
  let '(mp, d) := month_day (doe - year_start yoe) in
  let m := if mp <? 10 then mp + 3 else mp - 9 in
  (if m <=? 2 then yoe + 1 else yoe, m, d).
Proof.
  intros H. destruct (year_of_doe doe H) as [Hy _].
  assert (Hs : year_start (era_days doe / 365) =
               365 * (era_days doe / 365) + era_days doe / 365 / 4
               - era_days doe / 365 / 100).
  { unfold year_start. rewrite (Z.div_small (era_days doe / 365) 400) by lia. lia. }
  cbv zeta. rewrite Hs. reflexivity.
Qed.

Lemma month_day_range (doy : Z) :
  0 <= doy < 366 ->
  let '(mp, d) := month_day doy in 0 <= mp <= 11 /\ 1 <= d <= 31.
Proof.
  intros H. pose proof (all_from_spec _ _ _ doy_ok_all doy ltac:(lia)) as Hok.
  unfold doy_ok in Hok. destruct (month_day doy) as [mp d].
  repeat (apply andb_prop in Hok; destruct Hok as [Hok ?]). lia.
Qed.

Lemma month_day_mono (a b : Z) :
  0 <= a -> a < b -> b < 366 ->
  let '(mp1, d1) := month_day a in
  let '(mp2, d2) := month_day b in
  mp1 * 100 + d1 < mp2 * 100 + d2.
Proof.
  intros Ha Hab Hb.
  assert (Hgen : forall n : nat, a + 1 + Z.of_nat n < 366 ->
             let '(mp1, d1) := month_day a in
             let '(mp2, d2) := month_day (a + 1 + Z.of_nat n) in
             mp1 * 100 + d1 < mp2 * 100 + d2).
  { induction n as [|n IH]; intros Hn.
    - replace (a + 1 + Z.of_nat 0) with (a + 1) by lia.
      pose proof (all_from_spec _ _ _ doy_step_all a ltac:(lia)) as Hs.
      unfold doy_step in Hs.
      destruct (month_day a) as [mp1 d1], (month_day (a + 1)) as [mp2 d2]. lia.
    - specialize (IH ltac:(lia)).
      pose proof (all_from_spec _ _ _ doy_step_all (a + 1 + Z.of_nat n) ltac:(lia)) as Hs.
      unfold doy_step in Hs.
      replace (a + 1 + Z.of_nat (S n)) with (a + 1 + Z.of_nat n + 1) by lia.
      destruct (month_day a) as [mp1 d1], (month_day (a + 1 + Z.of_nat n)) as [mp2 d2],
        (month_day (a + 1 + Z.of_nat n + 1)) as [mp3 d3]. lia. }
  specialize (Hgen (Z.to_nat (b - a - 1))).
  replace (a + 1 + Z.of_nat (Z.to_nat (b - a - 1))) with b in Hgen by lia.
  apply Hgen. lia.
Qed.

Lemma civil_of_doe_range (doe : Z) :
  0 <= doe < 146097 ->
  let '(y, m, d) := civil_of_doe doe in
  0 <= y <= 400 /\ 1 <= m <= 12 /\ 1 <= d <= 31 /\
  (y = 400 -> m <= 2) /\ (y = 0 -> 3 <= m).
Proof.
  intros H. rewrite (civil_of_doe_unfold _ H). cbv zeta.
  destruct (year_of_doe doe H) as [Hy [Hd Hlen]].
  pose proof (month_day_range (doe - year_start (era_days doe / 365)) ltac:(lia)) as Hm.
  destruct (month_day (doe - year_start (era_days doe / 365))) as [mp d].
  destruct (Z.ltb_spec mp 10);
    match goal with |- context [?a <=? 2] => destruct (Z.leb_spec a 2) end; lia.
Qed.

Lemma civil_of_doe_mono (a b : Z) :
  0 <= a -> a < b -> b < 146097 ->
  date_ord (civil_of_doe a) < date_ord (civil_of_doe b).
Proof.
  intros Ha Hab Hb.
  rewrite (civil_of_doe_unfold a), (civil_of_doe_unfold b) by lia. cbv zeta.
  destruct (year_of_doe a ltac:(lia)) as [Hya [Hda Hla]].
  destruct (year_of_doe b ltac:(lia)) as [Hyb [Hdb Hlb]].
  pose proof (era_days_mono a b ltac:(lia) ltac:(lia) ltac:(lia)) as Hmono.
  apply (Z.div_le_mono _ _ 365 ltac:(lia)) in Hmono.
  set (ya := era_days a / 365) in *. set (yb := era_days b / 365) in *.
  pose proof (month_day_range (a - year_start ya) ltac:(lia)) as Ra.
  pose proof (month_day_range (b - year_start yb) ltac:(lia)) as Rb.
  destruct (Z.eq_dec ya yb) as [He|Hne].
  - pose proof (month_day_mono (a - year_start ya) (b - year_start yb)
                  ltac:(lia) ltac:(rewrite He; lia) ltac:(lia)) as Hm.
    rewrite <- He in *.
    destruct (month_day (a - year_start ya)) as [mp1 d1].
    destruct (month_day (b - year_start ya)) as [mp2 d2].
    cbn [date_ord].
    destruct (Z.ltb_spec mp1 10), (Z.ltb_spec mp2 10);
      repeat match goal with |- context [?x <=? 2] => destruct (Z.leb_spec x 2) end; lia.
  - destruct (month_day (a - year_start ya)) as [mp1 d1].
    destruct (month_day (b - year_start yb)) as [mp2 d2].
    cbn [date_ord].
    destruct (Z.ltb_spec mp1 10), (Z.ltb_spec mp2 10);
      repeat match goal with |- context [?x <=? 2] => destruct (Z.leb_spec x 2) end; lia.
Qed.

(** Day numbers and dates run in the same order. *)
Lemma civil_from_days_mono (z1 z2 : Z) :
  z1 < z2 ->
  date_ord (civil_from_days z1) < date_ord (civil_from_days z2).
Proof.
  intros Hlt. unfold civil_from_days.
  set (a := z1 + 719468). set (b := z2 + 719468).
  assert (Hab : a < b) by (unfold a, b; lia).
  pose proof (Z.mod_pos_bound a 146097 ltac:(lia)) as Hma.
  pose proof (Z.mod_pos_bound b 146097 ltac:(lia)) as Hmb.
  pose proof (Z.div_mod a 146097 ltac:(lia)) as Hda.
  pose proof (Z.div_mod b 146097 ltac:(lia)) as Hdb.
  pose proof (civil_of_doe_range _ Hma) as Ra.
  pose proof (civil_of_doe_range _ Hmb) as Rb.
  destruct (Z.eq_dec (a / 146097) (b / 146097)) as [He|Hne].
  - pose proof (civil_of_doe_mono (a mod 146097) (b mod 146097)
                  ltac:(lia) ltac:(lia) ltac:(lia)) as Hm.
    rewrite He.
    destruct (civil_of_doe (a mod 146097)) as [[y1 m1] d1].
    destruct (civil_of_doe (b mod 146097)) as [[y2 m2] d2].
    cbn [date_ord] in *. lia.
  - assert (Hq : a / 146097 < b / 146097) by lia.
    destruct (civil_of_doe (a mod 146097)) as [[y1 m1] d1].
    destruct (civil_of_doe (b mod 146097)) as [[y2 m2] d2].
    cbn [date_ord] in *. lia.
Qed.

Lemma civil_from_days_range (z : Z) :
  let '(y, m, d) := civil_from_days z in 1 <= m <= 12 /\ 1 <= d <= 31.
Proof.
  unfold civil_from_days.
  pose proof (Z.mod_pos_bound (z + 719468) 146097 ltac:(lia)) as Hm.
  pose proof (civil_of_doe_range _ Hm) as R.
  destruct (civil_of_doe ((z + 719468) mod 146097)) as [[y m] d]. lia.
Qed.

End Calendar.

(** ** Digit blocks *)

Section Digits.
Import GoTime.

Lemma cmp_eqb_eq (c1 c2 : comparison) : cmp_eqb c1 c2 = true -> c1 = c2.
Proof. destruct c1, c2; simpl; congruence. Qed.

Lemma pad2_ok_all : all_from pad2_ok 100 0 = true.
Proof. vm_cast_no_check (eq_refl true). Qed.

Lemma pad4_ok_all : all_from pad4_ok (Z.to_nat 10000) 0 = true.
Proof. vm_cast_no_check (eq_refl true). Qed.

Lemma appendInt2_length (a : Z) :
  0 <= a < 100 -> String.length (appendInt a 2) = 2%nat.
Proof.
  intros H. pose proof (all_from_spec _ _ _ pad2_ok_all a ltac:(lia)) as Hok.
  unfold pad2_ok in Hok. apply andb_prop in Hok as [Hok _].
  apply andb_prop in Hok as [Hok _]. apply Nat.eqb_eq in Hok. exact Hok.
Qed.

Lemma appendInt2_digits (a : Z) :
  0 <= a < 100 -> Str.all_chars Str.is_digit (appendInt a 2) = true.
Proof.
  intros H. pose proof (all_from_spec _ _ _ pad2_ok_all a ltac:(lia)) as Hok.
  unfold pad2_ok in Hok. apply andb_prop in Hok as [Hok _].
  apply andb_prop in Hok as [_ Hok]. exact Hok.
Qed.

(** Two-digit blocks compare as the numbers they print. *)
Lemma appendInt2_compare (a b : Z) :
  0 <= a < 100 -> 0 <= b < 100 ->
  String.compare (appendInt a 2) (appendInt b 2) = (a ?= b).
Proof.
  intros Ha Hb. pose proof (all_from_spec _ _ _ pad2_ok_all a ltac:(lia)) as Hok.
  unfold pad2_ok in Hok. apply andb_prop in Hok as [_ Hok].
  pose proof (all_from_spec _ _ _ Hok b ltac:(lia)) as Hc.
  apply cmp_eqb_eq in Hc. exact Hc.
Qed.

(** A year of at most four digits prints as its century and its year of
    the century. *)
Lemma appendInt4_split (y : Z) :
  0 <= y <= 9999 ->
  appendInt y 4 = appendInt (y / 100) 2 +:+ appendInt (y mod 100) 2.
Proof.
  intros H. pose proof (all_from_spec _ _ _ pad4_ok_all y ltac:(lia)) as Hok.
  unfold pad4_ok in Hok. apply String.eqb_eq in Hok. exact Hok.
Qed.

End Digits.

(** ** The timestamp of a name *)

Section Timestamp.
Import GoTime.

Lemma chunks_timeFormat :
  chunks (String.length timeFormat) timeFormat =
  [stdLongYear; stdZeroMonth; stdZeroDay; stdHour; stdZeroMinute; stdZeroSecond].
Proof. reflexivity. Qed.

Lemma Format_timeFormat (t : Time) :
  Format t timeFormat =
  appendInt (Year t) 4 +:+ blocks (skipn 2 (fields t)).
Proof.
  unfold Format. rewrite chunks_timeFormat.
  unfold fields, blocks, render, Year.
  destruct (Date t) as [[y m] d]. destruct (Clock t) as [[h mi] s].
  reflexivity.
Qed.

Lemma Format_blocks (t : Time) :
  four_digit_year t -> Format t timeFormat = blocks (fields t).
Proof.
  intros H. rewrite Format_timeFormat, (appendInt4_split _ H).
  unfold fields, blocks, Year.
  destruct (Date t) as [[y m] d]. destruct (Clock t) as [[h mi] s].
  cbn [fst skipn map Str.concat]. rewrite app_assoc_str. reflexivity.
Qed.

Lemma fields_range (t : Time) :
  four_digit_year t -> Forall (fun x => 0 <= x < 100) (fields t).
Proof.
  unfold four_digit_year, Year, fields, Date, Clock, secondsPerDay.
  pose proof (civil_from_days_range (Unix t / 86400)) as R.
  destruct (civil_from_days (Unix t / 86400)) as [[y m] d]. cbn [fst].
  intros Hy.
  pose proof (Z.mod_pos_bound (Unix t) 86400 ltac:(lia)) as Hr.
  set (r := Unix t mod 86400) in *.
  repeat constructor; try lia.
  all: try (apply Z.div_pos; lia).
  all: try (apply Z.div_lt_upper_bound; lia).
  all: try (apply Z.mod_pos_bound; lia).
  all: pose proof (Z.mod_pos_bound r 3600 ltac:(lia));
    try (apply Z.div_pos; lia); try (apply Z.div_lt_upper_bound; lia).
  all: pose proof (Z.mod_pos_bound r 60 ltac:(lia)); lia.
Qed.

Lemma length_fields (t : Time) : length (fields t) = 7%nat.
Proof.
  unfold fields. destruct (Date t) as [[y m] d].
  destruct (Clock t) as [[h mi] s]. reflexivity.
Qed.

Lemma blocks_length (l : list Z) :
  Forall (fun x => 0 <= x < 100) l ->
  String.length (blocks l) = (2 * length l)%nat.
Proof.
  induction 1 as [|x l Hx _ IH]; [reflexivity|].
  unfold blocks in *. cbn [map Str.concat length].
  rewrite length_app_str, IH, (appendInt2_length _ Hx). lia.
Qed.

Lemma blocks_digits (l : list Z) :
  Forall (fun x => 0 <= x < 100) l ->
  Str.all_chars Str.is_digit (blocks l) = true.
Proof.
  induction 1 as [|x l Hx _ IH]; [reflexivity|].
  unfold blocks in *. cbn [map Str.concat].
  rewrite all_chars_app, IH, (appendInt2_digits _ Hx). reflexivity.
Qed.

(** Rows of two-digit blocks compare as the rows of numbers they print. *)
Lemma blocks_compare (l1 l2 : list Z) (x y : string) :
  Forall (fun x => 0 <= x < 100) l1 ->
  Forall (fun x => 0 <= x < 100) l2 ->
  length l1 = length l2 ->
  String.compare (blocks l1 +:+ x) (blocks l2 +:+ y) =
    match lexZ l1 l2 with
    | Eq => String.compare x y
    | c => c
    end.
Proof.
  intros H1. revert l2. induction H1 as [|a l1 Ha _ IH];
    intros [|b l2] H2 Hlen; try discriminate Hlen; [reflexivity|].
  inversion H2 as [|? ? Hb H2']; subst.
  unfold blocks in *. cbn [map Str.concat lexZ].
  rewrite !app_assoc_str, compare_app_block
    by (rewrite !appendInt2_length; auto).
  rewrite (appendInt2_compare _ _ Ha Hb).
  destruct (a ?= b); try reflexivity.
  apply IH; [exact H2'|]. cbn [length] in Hlen. congruence.
Qed.

(** The printed numbers run in the order of the whole seconds. *)
Lemma fields_mono (t1 t2 : Time) :
  Unix t1 < Unix t2 -> lexZ (fields t1) (fields t2) = Lt.
Proof.
  intros Hlt. unfold fields, Date, Clock, secondsPerDay.
  pose proof (civil_from_days_range (Unix t1 / 86400)) as R1.
  pose proof (civil_from_days_range (Unix t2 / 86400)) as R2.
  pose proof (Z.mod_pos_bound (Unix t1) 86400 ltac:(lia)) as Hr1.
  pose proof (Z.mod_pos_bound (Unix t2) 86400 ltac:(lia)) as Hr2.
  pose proof (Z.div_mod (Unix t1) 86400 ltac:(lia)) as Hd1.
  pose proof (Z.div_mod (Unix t2) 86400 ltac:(lia)) as Hd2.
  assert (Hdays : Unix t1 / 86400 < Unix t2 / 86400 \/
                  (Unix t1 / 86400 = Unix t2 / 86400 /\
                   Unix t1 mod 86400 < Unix t2 mod 86400)) by lia.
  set (r1 := Unix t1 mod 86400) in *. set (r2 := Unix t2 mod 86400) in *.
  destruct Hdays as [Hd|[Hd Hr]].
  - pose proof (civil_from_days_mono _ _ Hd) as Hm.
    destruct (civil_from_days (Unix t1 / 86400)) as [[y1 m1] d1].
    destruct (civil_from_days (Unix t2 / 86400)) as [[y2 m2] d2].
    cbn [date_ord] in Hm. cbn [lexZ].
    destruct (Z.compare_spec (y1 / 100) (y2 / 100)); [|reflexivity|exfalso];
      [|revert H; Z.div_mod_to_equations; lia].
    destruct (Z.compare_spec (y1 mod 100) (y2 mod 100)); [|reflexivity|exfalso];
      [|revert H H0; Z.div_mod_to_equations; lia].
    assert (y1 = y2) by (revert H H0; Z.div_mod_to_equations; lia). subst y2.
    destruct (Z.compare_spec m1 m2); [|reflexivity|exfalso; lia].
    subst m2.
    destruct (Z.compare_spec d1 d2); [exfalso; lia|reflexivity|exfalso; lia].
  - rewrite Hd.
    destruct (civil_from_days (Unix t2 / 86400)) as [[y m] d].
    cbn [lexZ]. rewrite !Z.compare_refl.
    destruct (Z.compare_spec (r1 / 3600) (r2 / 3600)); [|reflexivity|exfalso];
      [|revert H; Z.div_mod_to_equations; lia].
    destruct (Z.compare_spec (r1 mod 3600 / 60) (r2 mod 3600 / 60));
      [|reflexivity|exfalso];
      [|revert H H0; Z.div_mod_to_equations; lia].
    destruct (Z.compare_spec (r1 mod 60) (r2 mod 60));
      [exfalso|reflexivity|exfalso];
      revert H H0 H1; Z.div_mod_to_equations; lia.
Qed.

Lemma Format_length (t : Time) :
  four_digit_year t -> String.length (Format t timeFormat) = 14%nat.
Proof.
  intros H. rewrite (Format_blocks _ H), blocks_length, length_fields;
    [reflexivity|apply fields_range, H].
Qed.

Lemma Format_digits (t : Time) :
  four_digit_year t -> Str.all_chars Str.is_digit (Format t timeFormat) = true.
Proof.
  intros H. rewrite (Format_blocks _ H). apply blocks_digits, fields_range, H.
Qed.

(** Timestamps of different seconds decide the comparison of whatever
    strings they start. *)
Lemma Format_compare (t1 t2 : Time) (x y : string) :
  four_digit_year t1 -> four_digit_year t2 -> Unix t1 < Unix t2 ->
  String.compare (Format t1 timeFormat +:+ x) (Format t2 timeFormat +:+ y) = Lt.
Proof.
  intros H1 H2 Hlt. rewrite (Format_blocks _ H1), (Format_blocks _ H2).
  rewrite blocks_compare.
  - rewrite (fields_mono _ _ Hlt). reflexivity.
  - apply fields_range, H1.
  - apply fields_range, H2.
  - rewrite !length_fields. reflexivity.
Qed.

End Timestamp.

Lemma like_any (s : string) : SQL.like "%" s = true.
Proof.
  induction s as [|c s IH]; [reflexivity|].
  simpl in *. exact IH.
Qed.

Lemma like_pqtest (rest : string) : SQL.like "pqtest_%" ("pqtest_" +:+ rest) = true.
Proof.
  change (SQL.like "%" rest = true). apply like_any.
Qed.

Lemma formatDBName_compare (s1 s2 : string) (t1 t2 : GoTime.Time) :
  four_digit_year t1 -> four_digit_year t2 -> GoTime.Unix t1 < GoTime.Unix t2 ->
  String.compare (formatDBName s1 t1) (formatDBName s2 t2) = Lt.
Proof.
  intros H1 H2 Hlt. unfold formatDBName.
  rewrite compare_app_prefix. apply Format_compare; assumption.
Qed.

Lemma compare_Lt_Gt (a b : string) :
  String.compare a b = Lt -> String.compare b a = Gt.
Proof. intros H. rewrite String.compare_antisym, H. reflexivity. Qed.

(** Years run in the order of the instants. *)
Lemma Unix_mono (t1 t2 : GoTime.Time) : t1 <= t2 -> GoTime.Unix t1 <= GoTime.Unix t2.
Proof. intros H. unfold GoTime.Unix, GoTime.Second. apply Z.div_le_mono; lia. Qed.

Lemma Year_mono (t1 t2 : GoTime.Time) : t1 <= t2 -> GoTime.Year t1 <= GoTime.Year t2.
Proof.
  intros H. apply Unix_mono in H.
  unfold GoTime.Year, GoTime.Date, GoTime.secondsPerDay.
  assert (Hd : GoTime.Unix t1 / 86400 <= GoTime.Unix t2 / 86400)
    by (apply Z.div_le_mono; lia).
  destruct (Z.eq_dec (GoTime.Unix t1 / 86400) (GoTime.Unix t2 / 86400)) as [->|Hne];
    [lia|].
  assert (Hlt : GoTime.Unix t1 / 86400 < GoTime.Unix t2 / 86400) by lia.
  pose proof (civil_from_days_mono _ _ Hlt) as Hm.
  pose proof (civil_from_days_range (GoTime.Unix t1 / 86400)) as R1.
  pose proof (civil_from_days_range (GoTime.Unix t2 / 86400)) as R2.
  destruct (GoTime.civil_from_days (GoTime.Unix t1 / 86400)) as [[y1 m1] d1].
  destruct (GoTime.civil_from_days (GoTime.Unix t2 / 86400)) as [[y2 m2] d2].
  cbn [date_ord fst] in *. lia.
Qed.

Lemma four_digit_year_between (t1 t t2 : GoTime.Time) :
  four_digit_year t1 -> four_digit_year t2 -> t1 <= t <= t2 -> four_digit_year t.
Proof.
  unfold four_digit_year. intros H1 H2 [Ha Hb].
  apply Year_mono in Ha. apply Year_mono in Hb. lia.
Qed.

Lemma Unix_add_seconds (t : GoTime.Time) (k : Z) :
  GoTime.Unix (t + k * GoTime.Second) = GoTime.Unix t + k.
Proof. unfold GoTime.Unix, GoTime.Second. apply Z.div_add. lia. Qed.

(** Example: beyond the year 9999 the layout prints a fifth year digit. *)
Example Format_year_10000 :
  GoTime.Format (253402300800 * GoTime.Second) timeFormat = "100000101000000".
Proof. vm_compute. reflexivity. Qed.

(** ** Properties of the naming scheme and of the inventory query *)

(** C4.  For two instants [t1 < t2] more than one second apart (one second
    is the resolution of the fourteen-digit timestamp) and any two
    suffixes, the name generated at [t1] is strictly below the name
    generated at [t2] in the bytewise lexicographic order.  The instants
    range over the years 0000 to 9999, where the layout prints exactly
    fourteen digits. *)
Theorem formatDBName_chronological
    (t1 t2 : GoTime.Time) (suffix1 suffix2 : string) :
  four_digit_year t1 -> four_digit_year t2 ->
  t1 < t2 -> GoTime.Second < t2 - t1 ->
  Str.lt (formatDBName suffix1 t1) (formatDBName suffix2 t2).
Proof.
  intros H1 H2 _ Hgap. apply formatDBName_compare; try assumption.
  unfold GoTime.Unix, GoTime.Second in *.
  apply Z.div_lt_upper_bound; [lia|].
  pose proof (Z.mul_div_le t2 1000000000 ltac:(lia)).
  pose proof (Z.mod_pos_bound t2 1000000000 ltac:(lia)).
  pose proof (Z.div_mod t2 1000000000 ltac:(lia)).
  lia.
Qed.

Lemma formatDBName_chronological_witness :
  let t1 := 1777777777 * GoTime.Second + 999999999 in
  let t2 := 1777777779 * GoTime.Second in
  (four_digit_year t1 /\ four_digit_year t2 /\ t1 < t2 /\ GoTime.Second < t2 - t1) /\
  Str.lt (formatDBName "zzzzzzzzzz_main_test" t1) (formatDBName "aaaaaaaaaa" t2).
Proof.
  intros t1 t2.
  assert (Y1 : four_digit_year t1) by (vm_compute; split; discriminate).
  assert (Y2 : four_digit_year t2) by (vm_compute; split; discriminate).
  assert (L : t1 < t2) by reflexivity.
  assert (G : GoTime.Second < t2 - t1) by reflexivity.
  split; [tauto|].
  exact (formatDBName_chronological t1 t2 "zzzzzzzzzz_main_test" "aaaaaaaaaa" Y1 Y2 L G).
Defined.

(** C1.  Let [now] be the clock reading of a collection pass.  A name
    with the ephemeral prefix whose timestamp is strictly older than the
    timestamp of [now] minus the three-minute window satisfies the [WHERE]
    clause (it matches the pattern and sorts below the bound
    [pqtest_<now-window>Z_db]); one whose timestamp is strictly newer does
    not.  Timestamps compare at their one-second resolution.  In
    particular, of three databases created ten, five and one minute before
    [now], exactly the first two are selected. *)
Theorem gcWhere_selects_by_age (now : GoTime.Time) :
  four_digit_year (gcTime now) ->
  (forall t suffix, four_digit_year t ->
     GoTime.Unix t < GoTime.Unix (gcTime now) ->
     gcWhere (gcBound now) (formatDBName suffix t) = true) /\
  (forall t suffix, four_digit_year t ->
     GoTime.Unix (gcTime now) < GoTime.Unix t ->
     gcWhere (gcBound now) (formatDBName suffix t) = false) /\
  (forall s10 s5 s1,
     four_digit_year (GoTime.Add now (- (10 * GoTime.Minute))) ->
     four_digit_year now ->
     List.filter (gcWhere (gcBound now))
       [formatDBName s10 (GoTime.Add now (- (10 * GoTime.Minute)));
        formatDBName s5 (GoTime.Add now (- (5 * GoTime.Minute)));
        formatDBName s1 (GoTime.Add now (- (1 * GoTime.Minute)))] =
       [formatDBName s10 (GoTime.Add now (- (10 * GoTime.Minute)));
        formatDBName s5 (GoTime.Add now (- (5 * GoTime.Minute)))]).
Proof.
  intros Hgc.
  assert (Hold : forall t suffix, four_digit_year t ->
            GoTime.Unix t < GoTime.Unix (gcTime now) ->
            gcWhere (gcBound now) (formatDBName suffix t) = true).
  { intros t suffix Ht Hlt. unfold gcWhere, gcBound.
    apply andb_true_intro. split.
    - unfold formatDBName. apply like_pqtest.
    - apply ltb_lt. apply formatDBName_compare; assumption. }
  assert (Hnew : forall t suffix, four_digit_year t ->
            GoTime.Unix (gcTime now) < GoTime.Unix t ->
            gcWhere (gcBound now) (formatDBName suffix t) = false).
  { intros t suffix Ht Hlt. unfold gcWhere, gcBound.
    apply andb_false_intro2. unfold Str.ltb, String.ltb.
    rewrite (compare_Lt_Gt _ _ (formatDBName_compare "db" suffix _ _ Hgc Ht Hlt)).
    reflexivity. }
  split; [exact Hold|]. split; [exact Hnew|].
  intros s10 s5 s1 H10 H0.
  assert (U : forall k, GoTime.Unix (GoTime.Add now (- (k * GoTime.Minute)))
                        = GoTime.Unix now - 60 * k).
  { intros k. unfold GoTime.Add, GoTime.Minute.
    replace (now + - (k * (60 * GoTime.Second)))
      with (now + (- (60 * k)) * GoTime.Second) by lia.
    rewrite Unix_add_seconds. lia. }
  assert (Ug : GoTime.Unix (gcTime now) = GoTime.Unix now - 180).
  { unfold gcTime, gcDur. rewrite U. lia. }
  assert (B : forall k, 0 <= k <= 10 ->
            four_digit_year (GoTime.Add now (- (k * GoTime.Minute)))).
  { intros k Hk. apply (four_digit_year_between _ _ _ H10 H0).
    unfold GoTime.Add, GoTime.Minute, GoTime.Second. lia. }
  cbn [List.filter].
  rewrite (Hold _ s10 H10) by (rewrite U, Ug; lia).
  rewrite (Hold _ s5 (B 5 ltac:(lia))) by (rewrite U, Ug; lia).
  rewrite (Hnew _ s1 (B 1 ltac:(lia))) by (rewrite U, Ug; lia).
  reflexivity.
Qed.

Lemma gcWhere_selects_by_age_witness :
  let now := 1777777777 * GoTime.Second + 500000000 in
  four_digit_year (gcTime now) /\
  gcWhere (gcBound now) (formatDBName "zzzzzzzzzz" (GoTime.Add now (- (4 * GoTime.Minute)))) = true /\
  gcWhere (gcBound now) (formatDBName "aaaaaaaaaa" (GoTime.Add now (- (2 * GoTime.Minute)))) = false /\
  List.filter (gcWhere (gcBound now))
    [formatDBName "zzzzzzzzzz" (GoTime.Add now (- (10 * GoTime.Minute)));
     formatDBName "mmmmmmmmmm_store_test" (GoTime.Add now (- (5 * GoTime.Minute)));
     formatDBName "aaaaaaaaaa" (GoTime.Add now (- (1 * GoTime.Minute)))] =
    ["pqtest_20260503025937Z_zzzzzzzzzz"; "pqtest_20260503030437Z_mmmmmmmmmm_store_test"].
Proof.
  intros now.
  assert (Y : four_digit_year (gcTime now)) by (vm_compute; split; discriminate).
  split; [exact Y|].
  destruct (gcWhere_selects_by_age now Y) as [Hold [Hnew Hex]].
  split; [|split].
  - apply Hold; [vm_compute; split; discriminate | reflexivity].
  - apply Hnew; [vm_compute; split; discriminate | reflexivity].
  - rewrite Hex by (vm_compute; split; discriminate). vm_compute. reflexivity.
Defined.

(** The layout prints the whole second of an instant and nothing finer. *)
Lemma Format_Unix (t1 t2 : GoTime.Time) (layout : string) :
  GoTime.Unix t1 = GoTime.Unix t2 -> GoTime.Format t1 layout = GoTime.Format t2 layout.
Proof.
  intros H. unfold GoTime.Format. f_equal. apply map_ext. intros c.
  unfold GoTime.render, GoTime.Date, GoTime.Clock. rewrite H. reflexivity.
Qed.

(** At the second the bound prints, the suffix decides: the name is
    selected exactly when its suffix sorts below [db]. *)
Lemma gcWhere_same_second (now t : GoTime.Time) (suffix : string) :
  GoTime.Unix t = GoTime.Unix (gcTime now) ->
  gcWhere (gcBound now) (formatDBName suffix t) = Str.ltb suffix "db".
Proof.
  intros H. unfold gcWhere, gcBound, formatDBName.
  rewrite like_pqtest, (Format_Unix _ _ _ H). cbn [andb].
  unfold Str.ltb, String.ltb. rewrite !compare_app_prefix. reflexivity.
Qed.

(** ** The monad *)

Lemma bind_ret {A B : Type} (a : A) (k : A -> M B) (st : State) :
  bind (ret a) k st = k a st.
Proof. reflexivity. Qed.

Lemma bind_run {A B : Type} (m : M A) (k : A -> M B) (st st' : State) (a : A) :
  m st = (Ret a, st') -> bind m k st = k a st'.
Proof. intros H. unfold bind. rewrite H. reflexivity. Qed.

Lemma emit_run (ev : Event) (st : State) : emit ev st = (Ret tt, logged st [ev]).
Proof. reflexivity. Qed.

Lemma logged_logged (st : State) (a b : list Event) :
  logged (logged st a) b = logged st (a ++ b).
Proof. unfold logged. cbn. rewrite <- app_assoc. reflexivity. Qed.

Lemma logged_nil (st : State) : logged st [] = st.
Proof. destruct st. unfold logged. cbn. rewrite app_nil_r. reflexivity. Qed.

(** ** Random names *)

Lemma letters_ok : all_from letter_ok 26 0 = true.
Proof. vm_compute. reflexivity. Qed.

Lemma index_chars (i : Z) (st : State) :
  0 <= i < 26 ->
  exists c, index chars i st = (Ret c, st) /\ Str.is_lower c = true.
Proof.
  intros H. pose proof (all_from_spec _ _ _ letters_ok i ltac:(lia)) as Hok.
  unfold letter_ok in Hok. unfold index.
  destruct (Z.ltb_spec i 0); [lia|].
  destruct (String.get (Z.to_nat i) chars) as [c|]; [|discriminate].
  exists c. split; [reflexivity|exact Hok].
Qed.

Lemma randomLetters_run (env : Env) (n : nat) (s : string) (st : State) :
  exists r, randomLetters env n s st = (Ret (s +:+ r), drew n st)
            /\ String.length r = n /\ Str.all_chars Str.is_lower r = true.
Proof.
  revert s st. induction n as [|n IH]; intros s st.
  - exists "". rewrite app_nil_r_str. unfold drew. rewrite Nat.add_0_r.
    destruct st; auto.
  - cbn [randomLetters]. unfold Intn. change (Z.of_nat (String.length chars)) with 26.
    change (26 <=? 0) with false. cbv iota.
    set (i := draws env (drawn st) mod 26).
    set (st1 := {| ticks := ticks st; drawn := S (drawn st); trace := trace st |}).
    assert (Hi : 0 <= i < 26) by (apply Z.mod_pos_bound; lia).
    destruct (index_chars i st1 Hi) as [c [Hc Hl]].
    destruct (IH (s +:+ String c "") st1) as [r [Hr [Hlen Hlow]]].
    exists (String c r). split; [|split].
    + unfold bind at 1. fold i. fold st1. unfold bind at 1. rewrite Hc, Hr.
      rewrite app_assoc_str. f_equal. unfold drew, st1. cbn. f_equal. lia.
    + cbn. congruence.
    + cbn. rewrite Hl, Hlow. reflexivity.
Qed.

Lemma pqtest_prefix (x : string) : "pqtest_" +:+ x = "pqtest" +:+ "_" +:+ x.
Proof. reflexivity. Qed.

(** C5.  Every generated name is [pqtest], an underscore, the creation
    time printed by the layout as exactly fourteen decimal digits (UTC),
    the literal [Z_], ten lowercase letters and, when the base name of the
    caller's file without its [.go] extension is not empty, an underscore
    and that tag.  The clock reads a year from 0000 to 9999. *)
Theorem randomDBName_structure (env : Env) (file : string) (st : State) :
  four_digit_year (clock env (ticks st)) ->
  exists stamp letters st',
    randomDBName env file st =
      (Ret ("pqtest" +:+ "_" +:+ stamp +:+ "Z_" +:+ letters +:+ caller_tag file), st')
    /\ stamp = GoTime.Format (clock env (ticks st)) timeFormat
    /\ String.length stamp = 14%nat
    /\ Str.all_chars Str.is_digit stamp = true
    /\ String.length letters = 10%nat
    /\ Str.all_chars Str.is_lower letters = true
    /\ caller_tag file =
         (if String.eqb (Strings.TrimSuffix (Filepath.Base file) ".go") "" then ""
          else "_" +:+ Strings.TrimSuffix (Filepath.Base file) ".go").
Proof.
  intros Hy.
  destruct (randomLetters_run env 10 "" st) as [r [Hr [Hlen Hlow]]].
  exists (GoTime.Format (clock env (ticks st)) timeFormat), r, (ticked (drew 10 st)).
  split; [|split; [reflexivity|split; [apply Format_length, Hy|
           split; [apply Format_digits, Hy|split; [exact Hlen|split; [exact Hlow|reflexivity]]]]]].
  unfold randomDBName. rewrite (bind_run _ _ _ _ _ Hr).
  unfold bind, Now, ret, formatDBName, caller_tag. cbn [ticks drew].
  rewrite app_nil_l_str, pqtest_prefix.
  destruct (String.eqb (Strings.TrimSuffix (Filepath.Base file) ".go") ""); cbn [negb].
  - rewrite app_nil_r_str. reflexivity.
  - reflexivity.
Qed.

Lemma randomDBName_structure_witness :
  four_digit_year (clock sample_env (ticks start)) /\
  exists stamp letters st',
    randomDBName sample_env "/home/dev/src/app/store_test.go" start =
      (Ret ("pqtest" +:+ "_" +:+ stamp +:+ "Z_" +:+ letters +:+ "_store_test"), st')
    /\ String.length stamp = 14%nat /\ String.length letters = 10%nat.
Proof.
  assert (Y : four_digit_year (clock sample_env (ticks start)))
    by (vm_compute; split; discriminate).
  split; [exact Y|].
  destruct (randomDBName_structure sample_env "/home/dev/src/app/store_test.go" start Y)
    as [stamp [letters [st' [H [_ [H14 [_ [H10 _]]]]]]]].
  exists stamp, letters, st'. split; [exact H|]. split; assumption.
Defined.

(** ** The garbage collector *)

Lemma dropLoop_run (db : DB) (names : list string) (i : Z) (st : State) :
  0 <= i ->
  dropLoop db i names st =
    (Ret tt, logged st (map (drop_event db) (firstn (Z.to_nat (6 - i)) names))).
Proof.
  revert i st. induction names as [|name rest IH]; intros i st Hi.
  - cbn [dropLoop]. rewrite firstn_nil. cbn [map]. rewrite logged_nil. reflexivity.
  - cbn [dropLoop]. destruct (Z.gtb_spec i 5) as [Hgt|Hle].
    + replace (Z.to_nat (6 - i)) with O by lia. cbn [firstn map].
      rewrite logged_nil. reflexivity.
    + replace (Z.to_nat (6 - i)) with (S (Z.to_nat (6 - (i + 1)))) by lia.
      cbn [firstn map]. unfold bind, go_Exec. rewrite emit_run.
      rewrite IH by lia. rewrite logged_logged. reflexivity.
Qed.

(** One pass of the collector, in closed form. *)
Lemma garbageCollectDBs_run (env : Env) (db : DB) (st : State) :
  let bound := gcBound (clock env (ticks st)) in
  let st1 := logged (ticked st) [EvQuery (dsn db) q [bound]] in
  garbageCollectDBs env db st =
    match enumerate env bound with
    | inr err => (Ret (Some err), st1)
    | inl names => (Ret None, logged st1 (map (drop_event db) (firstn 6 names)))
    end.
Proof.
  intros bound st1. unfold garbageCollectDBs, enumerate.
  unfold bind at 1. unfold Now. unfold bind at 1. unfold Query.
  unfold bind at 1. rewrite emit_run.
  change (formatDBName "db" (GoTime.Add (clock env (ticks st)) (- gcDur))) with bound.
  change (logged {| ticks := S (ticks st); drawn := drawn st; trace := trace st |}
            [EvQuery (dsn db) q [bound]]) with st1.
  destruct (query_err env) as [e|]; [reflexivity|].
  cbn [ret scans Err].
  destruct (scanAll _ []) as [names|e]; [|reflexivity].
  destruct (rows_stop env) as [[k e]|]; [reflexivity|].
  cbn [option_map]. unfold bind.
  rewrite (dropLoop_run db names 0 st1) by lia. reflexivity.
Qed.

Lemma firstn_length_le6 {A : Type} (l : list A) : (length (firstn 6 l) <= 6)%nat.
Proof. rewrite length_firstn. lia. Qed.

(** A healthy server delivers the rows that satisfy the [WHERE] clause. *)
Lemma scanAll_healthy (names acc : list string) (k : nat) :
  scanAll (imap (fun i name => (@None error, name)) names) acc = inl (acc ++ names).
Proof.
  revert acc. induction names as [|n names IH]; intros acc.
  - cbn. rewrite app_nil_r. reflexivity.
  - cbn [imap scanAll]. unfold compose. rewrite IH, <- app_assoc. reflexivity.
Qed.

Lemma enumerate_healthy (env : Env) (bound : string) :
  query_err env = None -> (forall i, scan_err env i = None) -> rows_stop env = None ->
  enumerate env bound = inl (List.filter (gcWhere bound) (pg_database env)).
Proof.
  intros Hq Hs Hr. unfold enumerate, delivered, select.
  rewrite Hq, Hr, String.eqb_refl.
  rewrite (imap_ext _ (fun _ name => (@None error, name))) by (intros; rewrite Hs; reflexivity).
  rewrite (scanAll_healthy _ [] 0). reflexivity.
Qed.

(** C2.  In every invocation the collector sends the inventory query and
    then dispatches a [DROP DATABASE] for the first six names of the
    enumeration and for no other: at most six statements, none at all when
    the enumeration fails, and the names from the seventh on get none.
    On a healthy server the enumeration is the list of databases that
    satisfy the [WHERE] clause. *)
Theorem garbageCollectDBs_drops_at_most_six (env : Env) (db : DB) (st : State) :
  let bound := gcBound (clock env (ticks st)) in
  let dispatched :=
    match enumerate env bound with
    | inl names => firstn 6 names
    | inr _ => []
    end in
  trace (snd (garbageCollectDBs env db st)) =
    trace st ++ EvQuery (dsn db) q [bound] :: map (drop_event db) dispatched
  /\ (length dispatched <= 6)%nat
  /\ (query_err env = None -> (forall i, scan_err env i = None) -> rows_stop env = None ->
      dispatched = firstn 6 (List.filter (gcWhere bound) (pg_database env))).
Proof.
  intros bound dispatched. rewrite garbageCollectDBs_run. fold bound.
  unfold dispatched. split; [|split].
  - destruct (enumerate env bound) as [names|e]; cbn [snd logged trace ticked map].
    + rewrite <- app_assoc. reflexivity.
    + reflexivity.
  - destruct (enumerate env bound); [apply firstn_length_le6|cbn; lia].
  - intros Hq Hs Hr. rewrite (enumerate_healthy env bound Hq Hs Hr). reflexivity.
Qed.

Lemma garbageCollectDBs_drops_at_most_six_witness :
  let db := {| dsn := defaultURL |} in
  filter (fun ev => is_go ev = true) (trace (snd (garbageCollectDBs sample_env db start))) =
    map (drop_event db)
      ["pqtest_20260503030437Z_qwertyuiop_store_test";
       "pqtest_20260503025937Z_a"; "pqtest_20260503025938Z_b";
       "pqtest_20260503025939Z_c"; "pqtest_20260503025940Z_d";
       "pqtest_20260503025941Z_e"].
Proof.
  intros db.
  destruct (garbageCollectDBs_drops_at_most_six sample_env db start) as [H [_ Hh]].
  rewrite H, Hh by reflexivity. vm_compute. reflexivity.
Defined.

(** C8.  What the collector returns does not depend on the outcome of any
    [DROP DATABASE] it dispatches: with any other answers of the server to
    [Exec] the call returns the same value in the same state; it returns
    [nil] whenever the enumeration succeeds and the enumeration's error
    otherwise; and all it leaves behind is the query and one dispatched
    statement for each of the first six names, so that no failure of a
    drop is reported, repeated or recorded. *)
Theorem garbageCollectDBs_ignores_drop_outcomes
    (env : Env) (answers : string -> string -> option error) (db : DB) (st : State) :
  let bound := gcBound (clock env (ticks st)) in
  garbageCollectDBs (with_exec_err env answers) db st = garbageCollectDBs env db st
  /\ fst (garbageCollectDBs env db st) =
       match enumerate env bound with
       | inl _ => Ret None
       | inr err => Ret (Some err)
       end
  /\ trace (snd (garbageCollectDBs env db st)) =
       trace st ++ EvQuery (dsn db) q [bound]
         :: match enumerate env bound with
            | inl names => map (drop_event db) (firstn 6 names)
            | inr _ => []
            end.
Proof.
  intros bound. rewrite !garbageCollectDBs_run.
  change (clock (with_exec_err env answers)) with (clock env). fold bound.
  change (enumerate (with_exec_err env answers) bound) with (enumerate env bound).
  split; [reflexivity|].
  destruct (enumerate env bound) as [names|e]; cbn [fst snd logged trace ticked].
  - split; [reflexivity|]. rewrite <- app_assoc. reflexivity.
  - split; reflexivity.
Qed.

(** ** [mkdb] *)

Lemma randomDBName_run (env : Env) (file : string) (st : State) :
  randomDBName env file st = (Ret (generated_name env file st), ticked (drew 10 st)).
Proof.
  unfold generated_name.
  destruct (randomLetters_run env 10 "" st) as [r [Hr _]].
  unfold randomDBName. rewrite (bind_run _ _ _ _ _ Hr). reflexivity.
Qed.

(** One call of [mkdb], in closed form. *)
Lemma mkdb_run (env : Env) (dbURL : string) (st : State) :
  let name := generated_name env (caller env) st in
  let st1 := ticked (drew 10 st) in
  let bound := gcBound (clock env (ticks st1)) in
  let ctl := {| dsn := dbURL |} in
  mkdb env dbURL st =
    match Parse env dbURL with
    | inr err => (Ret ("", Some err), st1)
    | inl u =>
        match open_err env "postgres" dbURL with
        | Some err => (Ret ("", Some err), logged st1 [EvOpen "postgres" dbURL])
        | None =>
            match enumerate env bound with
            | inr err =>
                (Ret ("", Some err),
                 logged (ticked st1)
                   [EvOpen "postgres" dbURL; EvQuery dbURL q [bound]; EvClose dbURL])
            | inl names =>
                (Ret (URL.String_ (set_path u ("/" +:+ name)),
                      exec_err env dbURL (create_stmt name)),
                 logged (ticked st1)
                   (EvOpen "postgres" dbURL :: EvQuery dbURL q [bound]
                      :: map (drop_event ctl) (firstn 6 names)
                      ++ [EvExec dbURL (create_stmt name); EvClose dbURL]))
            end
        end
    end.
Proof.
  intros name st1 bound ctl. unfold mkdb.
  rewrite (bind_run _ _ _ _ _ (randomDBName_run env (caller env) st)).
  fold name. fold st1.
  destruct (Parse env dbURL) as [u|e]; [|reflexivity].
  unfold sql_Open. unfold bind at 1. unfold bind at 1. rewrite emit_run.
  destruct (open_err env "postgres" dbURL) as [e|]; [reflexivity|].
  cbn [ret]. unfold bind at 1. rewrite garbageCollectDBs_run.
  change (clock env (ticks (logged st1 [EvOpen "postgres" dbURL]))) with (clock env (ticks st1)).
  fold bound. cbn [dsn].
  destruct (enumerate env bound) as [names|e].
  - unfold Exec, Close, bind. rewrite !emit_run. cbn [ret dsn].
    fold (create_stmt name). f_equal.
    unfold logged, ticked. cbn [ticks drawn trace]. f_equal.
    rewrite <- !app_assoc. reflexivity.
  - unfold Close, bind. rewrite emit_run. cbn [ret dsn]. f_equal.
    unfold logged, ticked. cbn [ticks drawn trace]. f_equal.
    rewrite <- !app_assoc. reflexivity.
Qed.

(** ** Walking a tree *)

Lemma node_induction (P : OS.node -> Prop) :
  P OS.NotDir ->
  (forall entries, Forall (fun en => P (snd en)) entries -> P (OS.Dir entries)) ->
  (forall e, P (OS.DirUnreadable e)) ->
  (forall e, P (OS.Missing e)) ->
  forall n, P n.
Proof.
  intros HN HD HU HM. fix IH 1.
  intros [|entries|e|e]; [exact HN| |apply HU|apply HM].
  apply HD. induction entries as [|[name child] rest IHr]; constructor.
  - apply IH.
  - exact IHr.
Qed.

Lemma insert_by_name_perm {T : Type} (x : string * T) (l : list (string * T)) :
  Permutation (Walk.insert_by_name x l) (x :: l).
Proof.
  induction l as [|y l IH]; [reflexivity|].
  cbn [Walk.insert_by_name]. destruct (String.leb (fst x) (fst y)); [reflexivity|].
  rewrite IH. apply perm_swap.
Qed.

Lemma sort_by_name_perm {T : Type} (l : list (string * T)) :
  Permutation (Walk.sort_by_name l) l.
Proof.
  induction l as [|x l IH]; [reflexivity|].
  unfold Walk.sort_by_name in *. cbn [fold_right].
  rewrite insert_by_name_perm, IH. reflexivity.
Qed.

(** Sorting looks at the names only. *)
Lemma insert_by_name_map {T U : Type} (g : string * T -> U) (x : string * T)
    (l : list (string * T)) :
  Walk.insert_by_name (fst x, g x) (map (fun en => (fst en, g en)) l) =
  map (fun en => (fst en, g en)) (Walk.insert_by_name x l).
Proof.
  induction l as [|y l IH]; [reflexivity|].
  cbn [map Walk.insert_by_name fst].
  destruct (String.leb (fst x) (fst y)); [reflexivity|].
  cbn [map]. rewrite IH. reflexivity.
Qed.

Lemma sort_by_name_map {T U : Type} (g : string * T -> U) (l : list (string * T)) :
  Walk.sort_by_name (map (fun en => (fst en, g en)) l) =
  map (fun en => (fst en, g en)) (Walk.sort_by_name l).
Proof.
  induction l as [|x l IH]; [reflexivity|].
  unfold Walk.sort_by_name in *. cbn [map fold_right].
  rewrite IH. apply insert_by_name_map.
Qed.

Lemma run_all_invariant {S : Type} (I : S -> Prop)
    (l : list (S -> option error * S)) :
  Forall (fun f => forall s, I s -> I (snd (f s))) l ->
  forall s, I s -> I (snd (Walk.run_all l s)).
Proof.
  induction 1 as [|f l Hf _ IH]; intros s Hs; [exact Hs|].
  cbn [Walk.run_all]. specialize (Hf s Hs).
  destruct (f s) as [[e|] s']; cbn [snd] in *; [exact Hf|apply IH, Hf].
Qed.

(** What every call of the function preserves, the walk preserves. *)
Lemma walk_invariant {S : Type} (I : S -> Prop) (walkFn : Walk.WalkFunc S) :
  (forall path info err s, I s -> I (snd (walkFn path info err s))) ->
  forall n path s, I s -> I (snd (Walk.walk walkFn path n s)).
Proof.
  intros Hfn n. induction n as [|entries IH|e|e] using node_induction;
    intros path s Hs; cbn [Walk.walk]; try (apply Hfn, Hs).
  pose proof (Hfn path {| OS.IsDir := true |} None s Hs) as H1.
  destruct (walkFn path {| OS.IsDir := true |} None s) as [[e|] s1];
    cbn [snd] in *; [exact H1|].
  apply run_all_invariant; [|exact H1].
  rewrite (sort_by_name_map
             (fun en => Walk.walk walkFn (Filepath.Join path (fst en)) (snd en))).
  rewrite List.map_map. cbn [snd]. apply List.Forall_forall.
  intros g Hg. apply List.in_map_iff in Hg as [[name child] [<- Hin]].
  cbn [fst snd]. intros s' Hs'.
  assert (Hin' : In (name, child) entries).
  { eapply Permutation_in; [apply sort_by_name_perm|exact Hin]. }
  pose proof (proj1 (List.Forall_forall _ _) IH _ Hin') as Hc.
  cbn [snd] in Hc. apply Hc, Hs'.
Qed.

(** ** The connection target *)

Lemma migrationsWalkFn_databaseURL (url path : string) (info : OS.FileInfo)
    (err : option error) (data : optionData) :
  databaseURL data = url -> databaseURL (snd (migrationsWalkFn path info err data)) = url.
Proof.
  intros H. unfold migrationsWalkFn. destruct err; [exact H|].
  destruct (negb _ || _); exact H.
Qed.

Lemma Fatal_run (f : Fataler) (args : list string) (st : State) :
  Fatal f args st =
    (if returns f then Ret tt else Exit, logged st [EvFatal args]).
Proof. unfold Fatal, bind. rewrite emit_run. destruct (returns f); reflexivity. Qed.

Lemma apply_databaseURL (env : Env) (o : Option) (f : Fataler) (data data' : optionData)
    (st st' : State) :
  apply env o f data st = (Ret data', st') -> databaseURL data' = databaseURL data.
Proof.
  destruct o as [filePath|dir]; cbn [apply].
  - intros H. inversion H. reflexivity.
  - unfold filepath_Walk.
    pose proof (walk_invariant (fun d => databaseURL d = databaseURL data) migrationsWalkFn
                  (migrationsWalkFn_databaseURL (databaseURL data))
                  (lstat env dir) dir data eq_refl) as Hw.
    destruct (Walk.walk migrationsWalkFn dir (lstat env dir) data) as [[e|] data1];
      cbn [snd] in Hw.
    + unfold bind. rewrite Fatal_run. destruct (returns f); intros H; inversion H.
      subst. exact Hw.
    + intros H. inversion H. subst. exact Hw.
Qed.

Lemma applyAll_databaseURL (env : Env) (f : Fataler) (opts : list Option)
    (data data' : optionData) (st st' : State) :
  applyAll env f opts data st = (Ret data', st') -> databaseURL data' = databaseURL data.
Proof.
  revert data st. induction opts as [|o opts IH]; intros data st; cbn [applyAll].
  - intros H. inversion H. reflexivity.
  - unfold bind. destruct (apply env o f data st) as [[d1| |] st1] eqn:Ha;
      try (intros H; discriminate H).
    intros H. rewrite (IH _ _ H). eapply apply_databaseURL, Ha.
Qed.

Lemma readSchemas_databaseURL (env : Env) (f : Fataler) (paths : list string)
    (data data' : optionData) (st st' : State) :
  readSchemas env f paths data st = (Ret data', st') -> databaseURL data' = databaseURL data.
Proof.
  revert data st. induction paths as [|sp paths IH]; intros data st; cbn [readSchemas].
  - intros H. inversion H. reflexivity.
  - destruct (ReadFile env sp) as [bytes err]. unfold bind.
    destruct err as [e|].
    + rewrite Fatal_run. destruct (returns f); [|intros H; discriminate H].
      intros H. rewrite (IH _ _ H). reflexivity.
    + cbn [ret]. intros H. rewrite (IH _ _ H). reflexivity.
Qed.

Lemma loadOptions_databaseURL (env : Env) (f : Fataler) (opts : list Option)
    (data : optionData) (st st' : State) :
  loadOptions env f opts st = (Ret data, st') -> databaseURL data = defaultURL.
Proof.
  unfold loadOptions, bind.
  destruct (applyAll env f opts _ st) as [[d1| |] st1] eqn:Ha; try discriminate.
  intros H. rewrite (readSchemas_databaseURL _ _ _ _ _ _ _ H).
  apply (applyAll_databaseURL _ _ _ _ _ _ _ Ha).
Qed.

(** ** How computations end and what they leave in the trace *)

Section Emits.
Variable P : Event -> Prop.

Lemma emits_ret {A : Type} (Q : A -> Prop) (a : A) : Q a -> emits P Q (ret a).
Proof.
  intros H st. exists []. cbn. rewrite app_nil_r.
  split; [reflexivity|]. split; [constructor|]. intros a' [= <-]. exact H.
Qed.

Lemma emits_panic {A : Type} (Q : A -> Prop) : emits P Q (@panic A).
Proof.
  intros st. exists []. cbn. rewrite app_nil_r.
  split; [reflexivity|]. split; [constructor|]. intros a' [=].
Qed.

Lemma emits_emit (ev : Event) : P ev -> emits P any (emit ev).
Proof.
  intros H st. exists [ev]. split; [reflexivity|].
  split; [constructor; auto|]. intros; exact I.
Qed.

Lemma emits_bind {A B : Type} (Q : A -> Prop) (R : B -> Prop) (m : M A) (k : A -> M B) :
  emits P Q m -> (forall a, Q a -> emits P R (k a)) -> emits P R (bind m k).
Proof.
  intros Hm Hk st. unfold bind. destruct (Hm st) as [l1 [H1 [P1 Q1]]].
  destruct (m st) as [[a| |] st1]; cbn [fst snd] in *.
  - destruct (Hk a (Q1 a eq_refl) st1) as [l2 [H2 [P2 Q2]]]. exists (l1 ++ l2).
    split; [rewrite H2, H1, app_assoc; reflexivity|].
    split; [apply Forall_app; auto|exact Q2].
  - exists l1. split; [exact H1|]. split; [exact P1|]. intros b [=].
  - exists l1. split; [exact H1|]. split; [exact P1|]. intros b [=].
Qed.

Hypothesis P_Fatal : forall args, P (EvFatal args).
Hypothesis P_Open : forall driver dataSource, P (EvOpen driver dataSource).
Hypothesis P_Println : forall line, P (EvPrintln line).

Lemma emits_Fatal (f : Fataler) (args : list string) : emits P any (Fatal f args).
Proof.
  intros st. rewrite Fatal_run. exists [EvFatal args].
  split; [reflexivity|]. split; [constructor; auto|]. intros; exact I.
Qed.

Lemma emits_check (f : Fataler) (err : option error) :
  emits P any (match err with Some e => Fatal f [e] | None => ret tt end).
Proof. destruct err; [apply emits_Fatal|apply emits_ret; exact I]. Qed.

Lemma emits_sql_Open (env : Env) (driver dataSource : string) :
  emits P (fun r => forall d, fst r = Some d -> dsn d = dataSource)
    (sql_Open env driver dataSource).
Proof.
  unfold sql_Open. apply (emits_bind any); [apply emits_emit, P_Open|].
  intros _ _. destruct (open_err env driver dataSource); apply emits_ret; cbn.
  - intros d [=].
  - intros d [= <-]. reflexivity.
Qed.

Lemma emits_Exec (env : Env) (db : DB) (stmt : string) :
  P (EvExec (dsn db) stmt) -> emits P any (Exec env db stmt).
Proof.
  intros H. unfold Exec.
  apply (emits_bind any); [apply emits_emit, H|intros _ _; apply emits_ret; exact I].
Qed.

Lemma emits_execSchemas (env : Env) (f : Fataler) (db : option DB) (texts : list string) :
  (forall d stmt, db = Some d -> P (EvExec (dsn d) stmt)) ->
  emits P any (execSchemas env f db texts).
Proof.
  intros Hdb. induction texts as [|text rest IH]; cbn [execSchemas];
    [apply emits_ret; exact I|].
  apply (emits_bind any).
  - destruct db as [d|]; [apply emits_Exec, (Hdb d), eq_refl|apply emits_panic].
  - intros err _. apply (emits_bind any); [apply emits_check|intros _ _; exact IH].
Qed.

(** What [Open] does after the check of [mkdb]'s error. *)
Lemma emits_connect (env : Env) (f : Fataler) (data : optionData) (url : string) :
  (forall stmt, P (EvExec url stmt)) ->
  emits P any (emit (EvPrintln url) ;;;
               r' <- sql_Open env "postgres" url ;;
               (match snd r' with
                | Some e => Fatal f [e]
                | None => ret tt
                end) ;;;
               execSchemas env f (fst r') (schema data) ;;;
               ret (fst r')).
Proof.
  intros Hx.
  apply (emits_bind any); [apply emits_emit, P_Println|intros _ _].
  eapply emits_bind; [apply emits_sql_Open|]. cbn beta.
  intros r' Hr. apply (emits_bind any); [apply emits_check|intros _ _].
  apply (emits_bind any); [|intros _ _; apply emits_ret; exact I].
  apply emits_execSchemas. intros d stmt Hd. rewrite (Hr d Hd). apply Hx.
Qed.

End Emits.

Lemma provision_after_mkdb (env : Env) (f : Fataler) (data : optionData) (st : State) :
  provision env f data st =
    bind (mkdb env (databaseURL data)) (after_mkdb env f data) st.
Proof.
  unfold provision, after_mkdb, bind.
  destruct (mkdb env (databaseURL data) st) as [[[url err]| |] st1]; try reflexivity.
  cbn [fst snd].
  destruct (match err with Some e => Fatal f [e] | None => ret tt end st1)
    as [[[]| |] st2]; try reflexivity.
  destruct (emit (EvPrintln url) st2) as [[[]| |] st3]; try reflexivity.
  destruct (sql_Open env "postgres" url st3) as [[[db err']| |] st4]; reflexivity.
Qed.

Lemma Open_run (env : Env) (f : Fataler) (opts : list Option) (st st1 : State)
    (data : optionData) :
  loadOptions env f opts st = (Ret data, st1) ->
  Open env f opts st = bind (mkdb env defaultURL) (after_mkdb env f data) st1.
Proof.
  intros H. unfold Open. rewrite (bind_run _ _ _ _ _ H), provision_after_mkdb.
  rewrite (loadOptions_databaseURL _ _ _ _ _ _ H). reflexivity.
Qed.

(** C7.  When the enumeration of the collector fails (the query, a scan
    or the rows' final error), the collector returns that error at once
    and dispatches nothing; [mkdb] passes it on with an empty URL after
    the query and the close of the control connection, without sending
    [CREATE DATABASE]; and [Open] hands the error to [Fatal] as the next
    thing it does, which ends the call when [Fatal] does not return.  No
    statement is executed on the control connection in the whole call. *)
Theorem enumeration_failure_is_fatal
    (env : Env) (f : Fataler) (opts : list Option) (st st1 : State)
    (data : optionData) (u : URL.URL) (e : error) :
  loadOptions env f opts st = (Ret data, st1) ->
  Parse env defaultURL = inl u ->
  open_err env "postgres" defaultURL = None ->
  enumerate env (gcBound (clock env (S (ticks st1)))) = inr e ->
  let bound := gcBound (clock env (S (ticks st1))) in
  let ctl := {| dsn := defaultURL |} in
  let opened := logged (ticked (drew 10 st1)) [EvOpen "postgres" defaultURL] in
  let st2 := logged (ticked (ticked (drew 10 st1)))
               [EvOpen "postgres" defaultURL; EvQuery defaultURL q [bound];
                EvClose defaultURL] in
  garbageCollectDBs env ctl opened =
    (Ret (Some e), logged (ticked opened) [EvQuery defaultURL q [bound]])
  /\ mkdb env defaultURL st1 = (Ret ("", Some e), st2)
  /\ exists out st3 later,
       Open env f opts st = (out, st3)
       /\ trace st3 = trace st2 ++ EvFatal [e] :: later
       /\ Forall (not_exec_on defaultURL) later
       /\ (returns f = false -> out = Exit /\ later = []).
Proof.
  intros Hload Hparse Hopen Henum bound ctl opened st2.
  assert (Hmk : mkdb env defaultURL st1 = (Ret ("", Some e), st2)).
  { rewrite mkdb_run, Hparse, Hopen.
    change (gcBound (clock env (ticks (ticked (drew 10 st1))))) with bound.
    unfold bound. rewrite Henum. reflexivity. }
  split; [|split; [exact Hmk|]].
  - rewrite garbageCollectDBs_run.
    change (gcBound (clock env (ticks opened))) with bound.
    unfold bound. rewrite Henum. reflexivity.
  - rewrite (Open_run _ _ _ _ _ _ Hload), (bind_run _ _ _ _ _ Hmk).
    unfold after_mkdb. cbn [fst snd]. unfold bind at 1. rewrite Fatal_run.
    destruct (returns f) eqn:Hret.
    + destruct (emits_connect (not_exec_on defaultURL)
                  ltac:(intros; exact I) ltac:(intros; exact I) ltac:(intros; exact I)
                  env f data "" ltac:(intros stmt; cbn; discriminate)
                  (logged st2 [EvFatal [e]])) as [later [Htr [Hall _]]].
      match type of Htr with
      | trace (snd ?run) = _ => destruct run as [out st3] eqn:Hrun
      end.
      exists out, st3, later. cbn [snd] in Htr.
      split; [reflexivity|]. split.
      * rewrite Htr. cbn [logged trace]. rewrite <- app_assoc. reflexivity.
      * split; [exact Hall|]. intros [=].
    + exists Exit, (logged st2 [EvFatal [e]]), []. split; [reflexivity|].
      split; [reflexivity|]. split; [constructor|]. intros _. split; reflexivity.
Qed.

Lemma enumeration_failure_is_fatal_witness :
  let env := with_query_err sample_env "connection refused" in
  let f := {| returns := false |} in
  mkdb env defaultURL start =
    (Ret ("", Some "connection refused"),
     logged (ticked (ticked (drew 10 start)))
       [EvOpen "postgres" defaultURL;
        EvQuery defaultURL q [gcBound (clock env 1)];
        EvClose defaultURL])
  /\ exists st3, Open env f [] start = (Exit, st3)
       /\ trace st3 = [EvOpen "postgres" defaultURL;
                       EvQuery defaultURL q [gcBound (clock env 1)];
                       EvClose defaultURL; EvFatal ["connection refused"]].
Proof.
  intros env f.
  destruct (enumeration_failure_is_fatal env f [] start start
              {| schema := []; schemaPaths := []; databaseURL := defaultURL |}
              URL.parsed_default "connection refused"
              eq_refl eq_refl eq_refl eq_refl)
    as [_ [Hmk [out [st3 [later [Hopen [Htr [_ Hexit]]]]]]]].
  split; [exact Hmk|].
  destruct (Hexit eq_refl) as [-> ->].
  exists st3. split; [exact Hopen|exact Htr].
Defined.

(** ** The URL of the new database *)

Lemma EscapedPath_set_path (u : URL.URL) (name : string) :
  exists rest, URL.EscapedPath (set_path u ("/" +:+ name)) = "/" +:+ rest.
Proof.
  unfold URL.EscapedPath, set_path. cbn [URL.RawPath URL.Path].
  match goal with
  | |- context [if ?c then _ else _] => destruct c
  end.
  - exists name. reflexivity.
  - exists (URL.escape name URL.encodePath). reflexivity.
Qed.

Lemma authority_set_path (u : URL.URL) (name : string) :
  URL.authority (set_path u ("/" +:+ name)) = URL.authority (set_path u "/").
Proof. reflexivity. Qed.

(** With no opaque part, the string of the rewritten URL is the scheme
    and authority of the old one, the escaped new path, and the query and
    fragment of the old one. *)
Lemma String_set_path (u : URL.URL) (name : string) :
  URL.Opaque u = "" ->
  URL.String_ (set_path u ("/" +:+ name)) =
    URL.scheme_part u +:+ URL.authority (set_path u "/")
    +:+ URL.EscapedPath (set_path u ("/" +:+ name)) +:+ URL.query_and_fragment u.
Proof.
  intros Hop. destruct (EscapedPath_set_path u name) as [rest Hp].
  unfold URL.String_. rewrite Hp, authority_set_path.
  change (URL.Opaque (set_path u ("/" +:+ name))) with (URL.Opaque u). rewrite Hop.
  change (URL.scheme_part (set_path u ("/" +:+ name))) with (URL.scheme_part u).
  change (URL.query_and_fragment (set_path u ("/" +:+ name)))
    with (URL.query_and_fragment u).
  change (negb ("" =? "")%string) with false. cbv iota.
  assert (Hpre : String.prefix "/" ("/" +:+ rest) = true) by (destruct rest; reflexivity).
  assert (Hseg : URL.first_segment ("/" +:+ rest) = "") by reflexivity.
  rewrite Hpre, Hseg. cbn [Strings.has_byte negb]. rewrite !andb_false_r. cbn [andb].
  rewrite !app_nil_l_str, !app_assoc_str. reflexivity.
Qed.

(** Example: a URL with an opaque part prints without its path. *)
Example String_opaque :
  URL.String_
    (set_path {| URL.Scheme := "postgres"; URL.Opaque := "postgres"; URL.User := None;
                 URL.Host := ""; URL.Path := ""; URL.RawPath := "";
                 URL.OmitHost := false; URL.ForceQuery := false;
                 URL.RawQuery := "sslmode=disable"; URL.Fragment := "";
                 URL.RawFragment := "" |} "/pqtest_x")
  = "postgres:postgres?sslmode=disable".
Proof. vm_compute. reflexivity. Qed.

(** C9.  When [mkdb] gets as far as [CREATE DATABASE], the URL it returns
    is the string of the parsed administrative URL in which the path (and
    its raw form) is a slash followed by the generated name; scheme,
    opaque part, user, host (with its port), query and fragment are those
    of the administrative URL.  Unless the administrative URL has an
    opaque part, the string is the old scheme and authority, the new
    path, and the old query and fragment; for the administrative URL of
    the program it is [postgres://], the path, and [?sslmode=disable]. *)
Theorem mkdb_rewrites_only_the_path
    (env : Env) (dbURL : string) (st : State) (u : URL.URL) (names : list string) :
  Parse env dbURL = inl u ->
  open_err env "postgres" dbURL = None ->
  enumerate env (gcBound (clock env (S (ticks st)))) = inl names ->
  let name := generated_name env (caller env) st in
  let u' := set_path u ("/" +:+ name) in
  fst (mkdb env dbURL st) = Ret (URL.String_ u', exec_err env dbURL (create_stmt name))
  /\ URL.Path u' = "/" +:+ name /\ URL.RawPath u' = "/" +:+ name
  /\ URL.Scheme u' = URL.Scheme u /\ URL.Opaque u' = URL.Opaque u
  /\ URL.User u' = URL.User u /\ URL.Host u' = URL.Host u
  /\ URL.OmitHost u' = URL.OmitHost u /\ URL.ForceQuery u' = URL.ForceQuery u
  /\ URL.RawQuery u' = URL.RawQuery u
  /\ URL.Fragment u' = URL.Fragment u /\ URL.RawFragment u' = URL.RawFragment u
  /\ (URL.Opaque u = "" ->
      URL.String_ u' =
        URL.scheme_part u +:+ URL.authority (set_path u "/")
        +:+ URL.EscapedPath u' +:+ URL.query_and_fragment u)
  /\ (u = URL.parsed_default ->
      URL.String_ u' = "postgres://" +:+ URL.EscapedPath u' +:+ "?sslmode=disable").
Proof.
  intros Hparse Hopen Henum name u'.
  split.
  { rewrite mkdb_run, Hparse, Hopen.
    change (gcBound (clock env (ticks (ticked (drew 10 st)))))
      with (gcBound (clock env (S (ticks st)))).
    rewrite Henum. reflexivity. }
  repeat (split; [reflexivity|]).
  split.
  - intros Hop. apply String_set_path, Hop.
  - intros ->. unfold u'. rewrite String_set_path by reflexivity. reflexivity.
Qed.

Lemma mkdb_rewrites_only_the_path_witness :
  fst (mkdb sample_env defaultURL start) =
    Ret ("postgres:///pqtest_20260503030937Z_dkryfmtaho_store_test?sslmode=disable", None).
Proof.
  destruct (mkdb_rewrites_only_the_path sample_env defaultURL start URL.parsed_default
              ["pqtest_20260503030437Z_qwertyuiop_store_test";
               "pqtest_20260503025937Z_a"; "pqtest_20260503025938Z_b";
               "pqtest_20260503025939Z_c"; "pqtest_20260503025940Z_d";
               "pqtest_20260503025941Z_e"; "pqtest_20260503025942Z_f";
               "pqtest_20260503025943Z_g"; "pqtestX20260503025943Z_h"]
              eq_refl eq_refl ltac:(vm_compute; reflexivity)) as [H _].
  rewrite H. vm_compute. reflexivity.
Defined.

(** ** Options and the connection target *)

(** C6.  No option of the package changes the connection target: whatever
    options [Open] is given, the options record it passes on holds the
    default URL, and the control connection of [mkdb] is opened on the
    default URL. *)
Theorem databaseURL_is_the_default (env : Env) (f : Fataler) :
  (forall o data data' st st',
     apply env o f data st = (Ret data', st') -> databaseURL data' = databaseURL data)
  /\ (forall opts st data st1,
        loadOptions env f opts st = (Ret data, st1) ->
        databaseURL data = defaultURL
        /\ Open env f opts st = bind (mkdb env defaultURL) (after_mkdb env f data) st1).
Proof.
  split.
  - intros o data data' st st' H. eapply apply_databaseURL, H.
  - intros opts st data st1 H. split.
    + eapply loadOptions_databaseURL, H.
    + apply Open_run, H.
Qed.

Lemma databaseURL_is_the_default_witness :
  exists data st1,
    loadOptions sample_env {| returns := true |}
      [Migrations "migrations"; SchemaFile "missing.sql"] start = (Ret data, st1)
    /\ databaseURL data = defaultURL.
Proof.
  destruct (loadOptions sample_env {| returns := true |}
              [Migrations "migrations"; SchemaFile "missing.sql"] start)
    as [[data| |] st1] eqn:H; try (vm_compute in H; discriminate H).
  exists data, st1. split; [reflexivity|].
  exact (proj1 (proj2 (databaseURL_is_the_default sample_env {| returns := true |})
                  _ _ _ _ H)).
Defined.

(** C6, as stated, fails: there is no option that, supplied to [Open],
    makes the options record hold another connection target than the
    default. *)
Lemma no_option_overrides_databaseURL :
  ~ exists (o : Option) (env : Env) (f : Fataler) (st st1 : State) (data : optionData),
      loadOptions env f [o] st = (Ret data, st1) /\ databaseURL data <> defaultURL.
Proof.
  intros [o [env [f [st [st1 [data [H Hne]]]]]]].
  apply Hne. eapply loadOptions_databaseURL, H.
Qed.

(** ** A [Fatal] that returns *)

Lemma migrationsWalkFn_schema (texts : list string) (path : string) (info : OS.FileInfo)
    (err : option error) (data : optionData) :
  schema data = texts -> schema (snd (migrationsWalkFn path info err data)) = texts.
Proof.
  intros H. unfold migrationsWalkFn. destruct err; [exact H|].
  destruct (negb _ || _); exact H.
Qed.

Lemma apply_returning (env : Env) (o : Option) (f : Fataler) (data : optionData)
    (st : State) :
  returns f = true ->
  exists data' st', apply env o f data st = (Ret data', st') /\ schema data' = schema data.
Proof.
  intros Hret. destruct o as [filePath|dir]; cbn [apply].
  - eexists _, _. split; reflexivity.
  - unfold filepath_Walk.
    pose proof (walk_invariant (fun d => schema d = schema data) migrationsWalkFn
                  (migrationsWalkFn_schema (schema data))
                  (lstat env dir) dir data eq_refl) as Hw.
    destruct (Walk.walk migrationsWalkFn dir (lstat env dir) data) as [[e|] data1];
      cbn [snd] in Hw.
    + unfold bind. rewrite Fatal_run, Hret. eexists _, _. split; [reflexivity|exact Hw].
    + eexists _, _. split; [reflexivity|exact Hw].
Qed.

Lemma applyAll_returning (env : Env) (f : Fataler) (opts : list Option)
    (data : optionData) (st : State) :
  returns f = true ->
  exists data' st', applyAll env f opts data st = (Ret data', st')
                    /\ schema data' = schema data.
Proof.
  intros Hret. revert data st. induction opts as [|o opts IH]; intros data st.
  - eexists _, _. split; reflexivity.
  - cbn [applyAll]. destruct (apply_returning env o f data st Hret) as [d1 [st1 [H1 S1]]].
    rewrite (bind_run _ _ _ _ _ H1).
    destruct (IH d1 st1) as [d2 [st2 [H2 S2]]].
    exists d2, st2. split; [exact H2|congruence].
Qed.

(** With a [Fatal] that returns, every path contributes what [ReadFile]
    delivered, readable or not. *)
Lemma readSchemas_returning (env : Env) (f : Fataler) (paths : list string)
    (data : optionData) (st : State) :
  returns f = true ->
  exists data' st',
    readSchemas env f paths data st = (Ret data', st')
    /\ schema data' = schema data ++ map (fun sp => fst (ReadFile env sp)) paths
    /\ schemaPaths data' = schemaPaths data.
Proof.
  intros Hret. revert data st. induction paths as [|sp paths IH]; intros data st.
  - eexists _, _. split; [reflexivity|]. cbn. rewrite app_nil_r. auto.
  - cbn [readSchemas map]. destruct (ReadFile env sp) as [bytes err] eqn:Hrf.
    cbn [fst].
    assert (Hstep : exists st1,
               (match err with Some e => Fatal f [sp; e] | None => ret tt end) st
               = (Ret tt, st1)).
    { destruct err; [rewrite Fatal_run, Hret|]; eexists; reflexivity. }
    destruct Hstep as [st1 Hstep]. rewrite (bind_run _ _ _ _ _ Hstep).
    destruct (IH (add_schema data bytes) st1) as [d2 [st2 [H2 [S2 P2]]]].
    exists d2, st2. split; [exact H2|]. split; [|exact P2].
    rewrite S2. cbn [add_schema schema]. rewrite <- app_assoc. reflexivity.
Qed.

(** With a [Fatal] that returns, every schema text is executed, in order. *)
Lemma execSchemas_returning (env : Env) (f : Fataler) (d : DB) (texts : list string)
    (st : State) :
  returns f = true ->
  exists st',
    execSchemas env f (Some d) texts st = (Ret tt, st')
    /\ List.filter is_exec (trace st') =
       List.filter is_exec (trace st) ++ map (EvExec (dsn d)) texts.
Proof.
  intros Hret. revert st. induction texts as [|text rest IH]; intros st.
  - exists st. split; [reflexivity|]. cbn. rewrite app_nil_r. reflexivity.
  - cbn [execSchemas map]. unfold Exec. unfold bind at 1. unfold bind at 1.
    rewrite emit_run. cbn [ret].
    set (st1 := logged st [EvExec (dsn d) text]).
    assert (Hstep : exists st2,
               (match exec_err env (dsn d) text with
                | Some e => Fatal f [e] | None => ret tt end) st1 = (Ret tt, st2)
               /\ List.filter is_exec (trace st2) = List.filter is_exec (trace st1)).
    { destruct (exec_err env (dsn d) text).
      - rewrite Fatal_run, Hret. eexists. split; [reflexivity|].
        cbn [logged trace]. rewrite List.filter_app. cbn. rewrite app_nil_r. reflexivity.
      - eexists. split; reflexivity. }
    destruct Hstep as [st2 [Hstep F2]]. rewrite (bind_run _ _ _ _ _ Hstep).
    destruct (IH st2) as [st3 [H3 F3]]. exists st3. split; [exact H3|].
    rewrite F3, F2. unfold st1. cbn [logged trace].
    rewrite List.filter_app. cbn. rewrite <- app_assoc. reflexivity.
Qed.

Lemma no_exit_ret {A : Type} (a : A) : no_exit (ret a).
Proof. intros st. discriminate. Qed.

Lemma no_exit_panic {A : Type} : no_exit (@panic A).
Proof. intros st. discriminate. Qed.

Lemma no_exit_emit (ev : Event) : no_exit (emit ev).
Proof. intros st. discriminate. Qed.

Lemma no_exit_bind {A B : Type} (m : M A) (k : A -> M B) :
  no_exit m -> (forall a, no_exit (k a)) -> no_exit (bind m k).
Proof.
  intros Hm Hk st. unfold bind. specialize (Hm st).
  destruct (m st) as [[a| |] st1]; cbn [fst] in *; [apply Hk|congruence|discriminate].
Qed.

Lemma no_exit_check (f : Fataler) (args : error -> list string) (err : option error) :
  returns f = true ->
  no_exit (match err with Some e => Fatal f (args e) | None => ret tt end).
Proof.
  intros Hret. destruct err; [|apply no_exit_ret].
  intros st. rewrite Fatal_run, Hret. discriminate.
Qed.

Lemma no_exit_execSchemas (env : Env) (f : Fataler) (db : option DB) (texts : list string) :
  returns f = true -> no_exit (execSchemas env f db texts).
Proof.
  intros Hret. induction texts as [|text rest IH]; cbn [execSchemas]; [apply no_exit_ret|].
  apply no_exit_bind.
  - destruct db; [|apply no_exit_panic].
    unfold Exec. apply no_exit_bind; [apply no_exit_emit|intros; apply no_exit_ret].
  - intros err. apply no_exit_bind; [|intros _; exact IH].
    apply (no_exit_check f (fun e => [e])), Hret.
Qed.

Lemma mkdb_returns (env : Env) (dbURL : string) (st : State) :
  exists url err st', mkdb env dbURL st = (Ret (url, err), st').
Proof.
  rewrite mkdb_run. destruct (Parse env dbURL); [|eexists _, _, _; reflexivity].
  destruct (open_err env "postgres" dbURL); [eexists _, _, _; reflexivity|].
  destruct (enumerate env _); eexists _, _, _; reflexivity.
Qed.

Lemma no_exit_after_mkdb (env : Env) (f : Fataler) (data : optionData)
    (r : string * option error) :
  returns f = true -> no_exit (after_mkdb env f data r).
Proof.
  intros Hret. unfold after_mkdb.
  apply no_exit_bind; [apply (no_exit_check f (fun e => [e])), Hret|intros _].
  apply no_exit_bind; [apply no_exit_emit|intros _].
  apply no_exit_bind.
  - unfold sql_Open. apply no_exit_bind; [apply no_exit_emit|intros _].
    destruct (open_err env "postgres" (fst r)); apply no_exit_ret.
  - intros r'. apply no_exit_bind; [apply (no_exit_check f (fun e => [e])), Hret|intros _].
    apply no_exit_bind; [apply no_exit_execSchemas, Hret|intros _; apply no_exit_ret].
Qed.

(** After [mkdb], with a [Fatal] that returns and a connection that
    opens, every schema text is executed on the new data source. *)
Lemma after_mkdb_returning (env : Env) (f : Fataler) (data : optionData)
    (url : string) (err : option error) (st : State) :
  returns f = true ->
  open_err env "postgres" url = None ->
  exists st',
    after_mkdb env f data (url, err) st = (Ret (Some {| dsn := url |}), st')
    /\ List.filter is_exec (trace st') =
       List.filter is_exec (trace st) ++ map (EvExec url) (schema data).
Proof.
  intros Hret Hopen. unfold after_mkdb. cbn [fst snd].
  assert (H1 : exists st1,
             (match err with Some e => Fatal f [e] | None => ret tt end) st = (Ret tt, st1)
             /\ List.filter is_exec (trace st1) = List.filter is_exec (trace st)).
  { destruct err.
    - rewrite Fatal_run, Hret. eexists. split; [reflexivity|].
      cbn [logged trace]. rewrite List.filter_app. cbn. rewrite app_nil_r. reflexivity.
    - eexists. split; reflexivity. }
  destruct H1 as [st1 [H1 F1]]. rewrite (bind_run _ _ _ _ _ H1).
  unfold bind at 1. rewrite emit_run.
  unfold sql_Open. unfold bind at 1. unfold bind at 1. rewrite emit_run, Hopen.
  cbn [ret fst snd]. unfold bind at 1. cbn [ret].
  set (st2 := logged (logged st1 [EvPrintln url]) [EvOpen "postgres" url]).
  destruct (execSchemas_returning env f {| dsn := url |} (schema data) st2 Hret)
    as [st3 [H3 F3]].
  rewrite (bind_run _ _ _ _ _ H3). exists st3. split; [reflexivity|].
  rewrite F3. cbn [dsn]. f_equal. unfold st2. cbn [logged trace].
  rewrite !List.filter_app. cbn. rewrite !app_nil_r. exact F1.
Qed.

(** C10.  With a [Fatal] that returns, [Open] does not stop at a failure:
    the options and schema files are always loaded, every schema path
    contributes what [ReadFile] delivered (the empty string for a path
    that cannot be read), [Open] goes on to provision the database and
    never ends as a terminating [Fatal] would; and when the connection to
    the new database opens, every schema text is executed on it, in order
    and whatever errors the earlier ones met. *)
Theorem returning_Fatal_does_not_abort
    (env : Env) (f : Fataler) (opts : list Option) (st : State) :
  returns f = true ->
  exists data st1,
    loadOptions env f opts st = (Ret data, st1)
    /\ schema data = map (fun sp => fst (ReadFile env sp)) (schemaPaths data)
    /\ (forall sp e, In sp (schemaPaths data) -> ReadFile env sp = ("", Some e) ->
        In "" (schema data))
    /\ Open env f opts st = provision env f data st1
    /\ fst (Open env f opts st) <> Exit
    /\ exists url err st2,
         mkdb env defaultURL st1 = (Ret (url, err), st2)
         /\ (open_err env "postgres" url = None ->
             exists st3,
               Open env f opts st = (Ret (Some {| dsn := url |}), st3)
               /\ List.filter is_exec (trace st3) =
                  List.filter is_exec (trace st2) ++ map (EvExec url) (schema data)).
Proof.
  intros Hret. unfold loadOptions.
  destruct (applyAll_returning env f opts
              {| schema := []; schemaPaths := []; databaseURL := defaultURL |} st Hret)
    as [d1 [s1 [H1 S1]]].
  destruct (readSchemas_returning env f (schemaPaths d1) d1 s1 Hret)
    as [data [st1 [H2 [S2 P2]]]].
  assert (Hload : loadOptions env f opts st = (Ret data, st1)).
  { unfold loadOptions. rewrite (bind_run _ _ _ _ _ H1). exact H2. }
  assert (Hschema : schema data = map (fun sp => fst (ReadFile env sp)) (schemaPaths data)).
  { rewrite S2, S1, P2. reflexivity. }
  exists data, st1. fold (loadOptions env f opts).
  split; [exact Hload|]. split; [exact Hschema|]. split; [|split; [|split]].
  - intros sp e Hin Hrf. rewrite Hschema.
    apply List.in_map_iff. exists sp. rewrite Hrf. auto.
  - unfold Open. rewrite (bind_run _ _ _ _ _ Hload). reflexivity.
  - rewrite (Open_run _ _ _ _ _ _ Hload).
    destruct (mkdb_returns env defaultURL st1) as [url [err [st2 Hmk]]].
    rewrite (bind_run _ _ _ _ _ Hmk). apply no_exit_after_mkdb, Hret.
  - destruct (mkdb_returns env defaultURL st1) as [url [err [st2 Hmk]]].
    exists url, err, st2. split; [exact Hmk|]. intros Hopen.
    rewrite (Open_run _ _ _ _ _ _ Hload), (bind_run _ _ _ _ _ Hmk).
    apply after_mkdb_returning; assumption.
Qed.

Lemma returning_Fatal_does_not_abort_witness :
  let f := {| returns := true |} in
  let opts := [Migrations "migrations"; SchemaFile "missing.sql"] in
  returns f = true /\
  exists data st1,
    loadOptions sample_env f opts start = (Ret data, st1)
    /\ schema data = ["CREATE TABLE a ();"; "CREATE TABLE b ();"; "SELEC 1;";
                      "DROP TABLE c;"; ""]
    /\ fst (Open sample_env f opts start) <> Exit.
Proof.
  intros f opts. split; [reflexivity|].
  destruct (returning_Fatal_does_not_abort sample_env f opts start eq_refl)
    as [data [st1 [Hload [Hschema [_ [_ [Hne _]]]]]]].
  exists data, st1. split; [exact Hload|]. split; [|exact Hne].
  rewrite Hschema.
  assert (Hp : schemaPaths data =
               ["migrations/0001_a.sql"; "migrations/0002_b.sql";
                "migrations/old/0000_z.sql"; "migrations/old.sql"; "missing.sql"]).
  { vm_compute in Hload. injection Hload as <- _. reflexivity. }
  rewrite Hp. reflexivity.
Defined.

(** ** The schema files of a directory *)

Lemma add_paths_nil (data : optionData) : add_paths data [] = data.
Proof. destruct data. unfold add_paths. cbn. rewrite app_nil_r. reflexivity. Qed.

Lemma add_paths_app (data : optionData) (a b : list string) :
  add_paths (add_paths data a) b = add_paths data (a ++ b).
Proof. unfold add_paths. cbn. rewrite <- app_assoc. reflexivity. Qed.

Lemma run_all_walks (path : string) (es : list (string * OS.node)) :
  Forall (fun en => forall p data,
            Walk.walk migrationsWalkFn p (snd en) data =
              (None, add_paths data (sql_files p (snd en)))) es ->
  forall data,
    Walk.run_all
      (map (fun en => Walk.walk migrationsWalkFn (Filepath.Join path (fst en)) (snd en)) es)
      data =
    (None, add_paths data
             (concat (map (fun en => sql_files (Filepath.Join path (fst en)) (snd en)) es))).
Proof.
  induction 1 as [|en es Hen _ IH]; intros data.
  - cbn. rewrite add_paths_nil. reflexivity.
  - cbn [map Walk.run_all concat]. rewrite Hen, IH, add_paths_app. reflexivity.
Qed.

Lemma healthy_Dir (entries : list (string * OS.node)) :
  healthy (OS.Dir entries) = true ->
  Forall (fun en => plain (fst en) = true /\ healthy (snd en) = true) entries.
Proof.
  cbn [healthy]. intros H. apply List.Forall_forall. intros en Hin.
  apply (proj1 (List.forallb_forall _ _) H) in Hin.
  apply andb_prop in Hin. exact Hin.
Qed.

Lemma sql_files_Dir (path : string) (entries : list (string * OS.node)) :
  sql_files path (OS.Dir entries) =
  concat (map (fun en => sql_files (Filepath.Join path (fst en)) (snd en))
            (Walk.sort_by_name entries)).
Proof.
  cbn [sql_files].
  rewrite (sort_by_name_map (fun en => sql_files (Filepath.Join path (fst en)) (snd en))).
  rewrite List.map_map. reflexivity.
Qed.

(** On a tree that can be read throughout, the walk of [Migrations] adds
    the schema files of the tree and meets no error. *)
Lemma walk_migrations (n : OS.node) :
  healthy n = true ->
  forall path data,
    Walk.walk migrationsWalkFn path n data = (None, add_paths data (sql_files path n)).
Proof.
  induction n as [|entries IH|e|e] using node_induction; intros Hh path data;
    try discriminate Hh.
  - cbn [Walk.walk sql_files]. unfold migrationsWalkFn. cbn [OS.IsDir].
    rewrite orb_false_r.
    destruct (String.eqb (Filepath.Ext path) ".sql"); cbn [negb].
    + reflexivity.
    + rewrite add_paths_nil. reflexivity.
  - rewrite sql_files_Dir. cbn [Walk.walk].
    unfold migrationsWalkFn at 1. cbn [OS.IsDir]. rewrite orb_true_r.
    rewrite (sort_by_name_map
               (fun en => Walk.walk migrationsWalkFn (Filepath.Join path (fst en)) (snd en))).
    rewrite List.map_map. cbn [snd].
    apply run_all_walks. apply List.Forall_forall. intros en Hin.
    assert (Hin' : In en entries).
    { eapply Permutation_in; [apply sort_by_name_perm|exact Hin]. }
    pose proof (proj1 (List.Forall_forall _ _) IH _ Hin') as Hc.
    pose proof (proj1 (List.Forall_forall _ _) (healthy_Dir _ Hh) _ Hin') as [_ Hhc].
    intros p d. apply Hc, Hhc.
Qed.

Lemma file_under_NotDir (path p : string) : file_under path OS.NotDir p <-> p = path.
Proof.
  split.
  - intros H. inversion H. reflexivity.
  - intros ->. constructor.
Qed.

Lemma file_under_Dir (path p : string) (entries : list (string * OS.node)) :
  file_under path (OS.Dir entries) p <->
  exists en, In en entries /\ file_under (Filepath.Join path (fst en)) (snd en) p.
Proof.
  split.
  - intros H. inversion H; subst. exists (name, child). auto.
  - intros [[name child] [Hin Hf]]. eapply file_below; [exact Hin|exact Hf].
Qed.

(** The schema files of a tree are the files at any depth, directories
    excluded, whose path has the extension [.sql]. *)
Lemma sql_files_spec (n : OS.node) :
  forall path p,
    In p (sql_files path n) <-> file_under path n p /\ Filepath.Ext p = ".sql".
Proof.
  induction n as [|entries IH|e|e] using node_induction; intros path p.
  - cbn [sql_files]. rewrite file_under_NotDir.
    destruct (String.eqb_spec (Filepath.Ext path) ".sql") as [He|Hne]; cbn [In].
    + split; [intros [<-|[]]; auto|intros [-> _]; auto].
    + split; [intros []|intros [-> He]; contradiction].
  - rewrite sql_files_Dir, file_under_Dir, List.in_concat. split.
    + intros [l [Hl Hp]]. apply List.in_map_iff in Hl as [en [<- Hin]].
      assert (Hin' : In en entries).
      { eapply Permutation_in; [apply sort_by_name_perm|exact Hin]. }
      pose proof (proj1 (List.Forall_forall _ _) IH _ Hin') as Hc.
      apply Hc in Hp as [Hf He]. split; [exists en; auto|exact He].
    + intros [[en [Hin Hf]] He].
      pose proof (proj1 (List.Forall_forall _ _) IH _ Hin) as Hc.
      exists (sql_files (Filepath.Join path (fst en)) (snd en)). split.
      * apply List.in_map_iff. exists en. split; [reflexivity|].
        eapply Permutation_in; [symmetry; apply sort_by_name_perm|exact Hin].
      * apply Hc. auto.
  - cbn [sql_files In]. split; [intros []|intros [H _]; inversion H].
  - cbn [sql_files In]. split; [intros []|intros [H _]; inversion H].
Qed.

(** ** The order of names and of paths *)

Lemma leb_trans (a b c : string) :
  String.leb a b = true -> String.leb b c = true -> String.leb a c = true.
Proof.
  intros H1 H2. apply Is_true_true. apply Is_true_true in H1, H2.
  change (String.le a c). change (String.le a b) in H1. change (String.le b c) in H2.
  etrans; eassumption.
Qed.

Lemma lt_leb (a b : string) : Str.lt a b <-> String.leb a b = true /\ a <> b.
Proof.
  unfold Str.lt, String.leb. split.
  - intros H. rewrite H. split; [reflexivity|].
    intros ->. rewrite compare_refl_str in H. discriminate.
  - intros [H Hne]. destruct (String.compare a b) eqn:Hc; try reflexivity; try discriminate.
    apply String.compare_eq_iff in Hc. contradiction.
Qed.

Lemma not_leb_lt (a b : string) : String.leb a b = false -> Str.lt b a.
Proof.
  unfold Str.lt, String.leb. intros H. rewrite String.compare_antisym.
  destruct (String.compare a b); try discriminate. reflexivity.
Qed.

Lemma lt_not_leb (a b : string) : Str.lt a b -> String.leb b a = false.
Proof.
  unfold Str.lt, String.leb. intros H. rewrite String.compare_antisym, H. reflexivity.
Qed.

Lemma lt_trans_str (a b c : string) : Str.lt a b -> Str.lt b c -> Str.lt a c.
Proof.
  intros H1 H2. apply lt_leb. split.
  - apply lt_leb in H1 as [H1 _]. apply lt_leb in H2 as [H2 _].
    eapply leb_trans; eassumption.
  - intros ->. apply lt_not_leb in H1. apply lt_leb in H2 as [H2 _]. congruence.
Qed.

(** Insertions of entries with different names commute. *)
Lemma insert_by_name_comm {T : Type} (x y : string * T) (l : list (string * T)) :
  fst x <> fst y ->
  Walk.insert_by_name x (Walk.insert_by_name y l) =
  Walk.insert_by_name y (Walk.insert_by_name x l).
Proof.
  intros Hne.
  assert (Hxy : String.leb (fst x) (fst y) = true -> String.leb (fst y) (fst x) = false).
  { intros H. destruct (String.leb (fst y) (fst x)) eqn:H'; [|reflexivity].
    exfalso. apply Hne. apply String.leb_antisym; assumption. }
  assert (Hyx : String.leb (fst x) (fst y) = false -> String.leb (fst y) (fst x) = true).
  { intros H. destruct (String.leb_total (fst x) (fst y)); congruence. }
  induction l as [|z l IH].
  - cbn [Walk.insert_by_name].
    destruct (String.leb (fst x) (fst y)) eqn:E.
    + rewrite (Hxy eq_refl). reflexivity.
    + rewrite (Hyx eq_refl). reflexivity.
  - cbn [Walk.insert_by_name].
    destruct (String.leb (fst y) (fst z)) eqn:Eyz;
      destruct (String.leb (fst x) (fst z)) eqn:Exz; cbn [Walk.insert_by_name].
    + destruct (String.leb (fst x) (fst y)) eqn:E.
      * rewrite (Hxy eq_refl), Eyz. reflexivity.
      * rewrite (Hyx eq_refl), Exz. reflexivity.
    + rewrite Exz, Eyz.
      destruct (String.leb (fst x) (fst y)) eqn:E; [|reflexivity].
      rewrite (leb_trans _ _ _ E Eyz) in Exz. discriminate.
    + rewrite Exz, Eyz.
      destruct (String.leb (fst y) (fst x)) eqn:E; [|reflexivity].
      rewrite (leb_trans _ _ _ E Exz) in Eyz. discriminate.
    + rewrite Exz, Eyz, IH. reflexivity.
Qed.

(** The order in which the system lists a directory does not matter. *)
Lemma sort_by_name_permutation {T : Type} (l l' : list (string * T)) :
  Permutation l l' -> NoDup (map fst l) -> Walk.sort_by_name l = Walk.sort_by_name l'.
Proof.
  unfold Walk.sort_by_name.
  induction 1 as [|x l l' Hp IH|x y l|l l' l'' Hp1 IH1 Hp2 IH2]; intros Hnd.
  - reflexivity.
  - cbn [fold_right]. rewrite IH; [reflexivity|].
    cbn [map] in Hnd. apply NoDup_cons in Hnd as [_ Hnd]. exact Hnd.
  - cbn [fold_right]. apply insert_by_name_comm.
    cbn [map] in Hnd. apply NoDup_cons in Hnd as [Hin _].
    intros Heq. apply Hin. rewrite Heq. left.
  - rewrite IH1 by exact Hnd. apply IH2.
    eapply NoDup_Permutation_proper; [symmetry; apply Permutation_map, Hp1|exact Hnd].
Qed.

(** ** Joining a directory and a name *)

Lemma split_not_nil (sep : ascii) (s : string) : Strings.split sep s <> [].
Proof.
  destruct s as [|c s]; cbn [Strings.split]; [discriminate|].
  destruct (Ascii.eqb c sep); [discriminate|].
  destruct (Strings.split sep s); discriminate.
Qed.

Lemma split_app_sep (sep : ascii) (a b : string) :
  Strings.split sep (a +:+ String sep b) = Strings.split sep a ++ Strings.split sep b.
Proof.
  induction a as [|c a IH].
  - rewrite app_nil_l_str. cbn [Strings.split]. rewrite Ascii.eqb_refl. reflexivity.
  - rewrite app_cons_str. cbn [Strings.split]. rewrite IH.
    destruct (Ascii.eqb c sep); [reflexivity|].
    pose proof (split_not_nil sep a) as Hne.
    destruct (Strings.split sep a); [contradiction|reflexivity].
Qed.

Lemma split_no_sep (sep : ascii) (s : string) :
  Strings.has_byte sep s = false -> Strings.split sep s = [s].
Proof.
  induction s as [|c s IH]; [reflexivity|].
  cbn [Strings.has_byte Strings.split]. intros H.
  apply orb_false_elim in H as [Hc Hs].
  rewrite Ascii.eqb_sym, Hc, (IH Hs). reflexivity.
Qed.

Lemma plain_spec (name : string) :
  plain name = true ->
  String.eqb name "" = false /\ String.eqb name "." = false
  /\ String.eqb name ".." = false /\ Strings.has_byte "/" name = false.
Proof.
  unfold plain. intros H.
  repeat (apply andb_prop in H as [H ?]).
  repeat match goal with
         | H : negb _ = true |- _ => apply negb_true_iff in H
         end.
  auto.
Qed.

Lemma clean_step_plain (rooted : bool) (out : list string) (name : string) :
  plain name = true -> Filepath.clean_step rooted out name = name :: out.
Proof.
  intros H. apply plain_spec in H as [H1 [H2 [H3 _]]].
  unfold Filepath.clean_step. rewrite H1, H2, H3. reflexivity.
Qed.

Lemma join_snoc (xs : list string) (name : string) :
  Strings.join "/" (xs ++ [name]) =
  match xs with
  | [] => name
  | _ => Strings.join "/" xs +:+ "/" +:+ name
  end.
Proof.
  induction xs as [|x xs IH]; [reflexivity|].
  cbn [app Strings.join]. destruct xs as [|y ys].
  - reflexivity.
  - cbn [app] in *. rewrite IH. rewrite !app_assoc_str. reflexivity.
Qed.

Lemma prefix_empty (s : string) : String.prefix "" s = true.
Proof. destruct s; reflexivity. Qed.

Lemma prefix_slash_app (dir rest : string) :
  dir <> "" -> String.prefix "/" (dir +:+ rest) = String.prefix "/" dir.
Proof.
  destruct dir as [|c dir]; [contradiction|]. intros _.
  rewrite app_cons_str. cbn [String.prefix].
  destruct (ascii_dec "/" c); [|reflexivity]. rewrite !prefix_empty. reflexivity.
Qed.

Lemma app_not_empty (a b : string) : String.eqb b "" = false -> String.eqb (a +:+ b) "" = false.
Proof.
  intros H. destruct a as [|c a]; [exact H|reflexivity].
Qed.

(** Joining a directory and a plain name puts a prefix that depends on
    the directory only before the name. *)
Lemma Join_plain (dir name : string) :
  plain name = true -> Filepath.Join dir name = join_prefix dir +:+ name.
Proof.
  intros Hp. pose proof (plain_spec _ Hp) as [Hne [_ [_ Hns]]].
  unfold Filepath.Join, join_prefix, Filepath.Clean, Filepath.slash.
  destruct (String.eqb_spec dir "") as [->|Hd]; cbn [negb].
  - rewrite Hne. cbn [negb].
    rewrite (split_no_sep _ _ Hns). cbn [fold_left].
    rewrite (clean_step_plain _ _ _ Hp). cbn [rev app Strings.join].
    assert (Hr : String.prefix "/" name = false).
    { destruct name as [|c name]; [discriminate Hne|].
      cbn [Strings.has_byte] in Hns. apply orb_false_elim in Hns as [Hc _].
      cbn [String.prefix]. destruct (ascii_dec "/" c) as [<-|]; [|reflexivity].
      discriminate Hc. }
    rewrite Hr, Hne. reflexivity.
  - rewrite (app_not_empty dir ("/" +:+ name)) by reflexivity.
    rewrite (prefix_slash_app dir _ Hd).
    change ("/" +:+ name) with (String "/" name).
    rewrite split_app_sep, (split_no_sep _ _ Hns), fold_left_app.
    cbn [fold_left]. rewrite (clean_step_plain _ _ _ Hp). cbn [rev].
    rewrite join_snoc.
    set (out := rev (fold_left (Filepath.clean_step (String.prefix "/" dir))
                       (Strings.split "/" dir) [])).
    assert (Hbody : String.eqb
                      match out with
                      | [] => name
                      | _ :: _ => Strings.join "/" out +:+ "/" +:+ name
                      end "" = false).
    { destruct out; [exact Hne|]. apply app_not_empty. reflexivity. }
    rewrite Hbody.
    destruct (String.prefix "/" dir), out; rewrite ?app_assoc_str; reflexivity.
Qed.

(** A name with an extension keeps it behind any prefix. *)
Lemma Ext_app (prefix name : string) :
  Filepath.Ext name <> "" -> Filepath.Ext (prefix +:+ name) = Filepath.Ext name.
Proof.
  intros H. induction prefix as [|c prefix IH]; [reflexivity|].
  rewrite app_cons_str. cbn [Filepath.Ext]. rewrite IH.
  destruct (Filepath.Ext name); [contradiction|reflexivity].
Qed.

(** ** Directories in the order of their names *)

Lemma insert_by_name_strict {T : Type} (x : string * T) (l : list (string * T)) :
  StronglySorted (fun a b => Str.lt (fst a) (fst b)) l ->
  (forall y, In y l -> fst y <> fst x) ->
  StronglySorted (fun a b => Str.lt (fst a) (fst b)) (Walk.insert_by_name x l).
Proof.
  induction 1 as [|y l Hs IH Hy]; intros Hne; cbn [Walk.insert_by_name].
  - constructor; constructor.
  - destruct (String.leb (fst x) (fst y)) eqn:E.
    + assert (Hxy : Str.lt (fst x) (fst y)).
      { apply lt_leb. split; [exact E|]. intros Heq. apply (Hne y); [left; reflexivity|].
        symmetry. exact Heq. }
      constructor; [constructor; assumption|].
      constructor; [exact Hxy|].
      apply List.Forall_forall. intros z Hz.
      eapply lt_trans_str; [exact Hxy|].
      exact (proj1 (List.Forall_forall _ _) Hy z Hz).
    + constructor.
      * apply IH. intros z Hz. apply Hne. right. exact Hz.
      * apply List.Forall_forall. intros z Hz.
        apply (Permutation_in _ (insert_by_name_perm x l)) in Hz.
        destruct Hz as [<-|Hz]; [apply not_leb_lt, E|].
        exact (proj1 (List.Forall_forall _ _) Hy z Hz).
Qed.

(** A directory with distinct names is visited in strictly increasing
    order of the names. *)
Lemma sort_by_name_strict {T : Type} (l : list (string * T)) :
  NoDup (map fst l) ->
  StronglySorted (fun a b => Str.lt (fst a) (fst b)) (Walk.sort_by_name l).
Proof.
  unfold Walk.sort_by_name. induction l as [|x l IH]; intros Hnd; [constructor|].
  cbn [map] in Hnd. apply NoDup_cons in Hnd as [Hin Hnd].
  cbn [fold_right]. apply insert_by_name_strict; [apply IH, Hnd|].
  intros y Hy Heq. apply Hin. rewrite <- Heq.
  apply list_elem_of_In. apply List.in_map.
  eapply Permutation_in; [apply sort_by_name_perm|exact Hy].
Qed.

(** The schema files of a directory without subdirectories, listed in
    strictly increasing order of the names, are in strictly increasing
    order of the path strings. *)
Lemma flat_files_sorted (dir : string) (es : list (string * OS.node)) :
  StronglySorted (fun a b => Str.lt (fst a) (fst b)) es ->
  Forall (fun en => plain (fst en) = true /\ snd en = OS.NotDir) es ->
  StronglySorted Str.lt
    (concat (map (fun en => sql_files (Filepath.Join dir (fst en)) (snd en)) es)).
Proof.
  induction 1 as [|en es Hs IH Hen]; intros Hall; [constructor|].
  inversion Hall as [|? ? [Hp Hn] Hall']; subst.
  cbn [map concat]. rewrite Hn. cbn [sql_files].
  destruct (String.eqb (Filepath.Ext (Filepath.Join dir (fst en))) ".sql");
    [|apply IH, Hall'].
  cbn [app]. constructor; [apply IH, Hall'|].
  apply List.Forall_forall. intros p Hin.
  apply List.in_concat in Hin as [l [Hl Hin]].
  apply List.in_map_iff in Hl as [en' [<- Hin']].
  pose proof (proj1 (List.Forall_forall _ _) Hall' en' Hin') as [Hp' Hn'].
  pose proof (proj1 (List.Forall_forall _ _) Hen en' Hin') as Hlt.
  rewrite Hn' in Hin. cbn [sql_files] in Hin.
  destruct (String.eqb (Filepath.Ext (Filepath.Join dir (fst en'))) ".sql");
    [|destruct Hin].
  destruct Hin as [<-|[]].
  rewrite (Join_plain dir _ Hp), (Join_plain dir _ Hp').
  unfold Str.lt. rewrite compare_app_prefix. exact Hlt.
Qed.

Lemma readSchemas_schema (env : Env) (f : Fataler) (paths : list string)
    (data data' : optionData) (st st' : State) :
  readSchemas env f paths data st = (Ret data', st') ->
  schema data' = schema data ++ map (fun sp => fst (ReadFile env sp)) paths
  /\ schemaPaths data' = schemaPaths data.
Proof.
  revert data st. induction paths as [|sp paths IH]; intros data st; cbn [readSchemas map].
  - intros H. inversion H. rewrite app_nil_r. auto.
  - destruct (ReadFile env sp) as [bytes err]. cbn [fst]. unfold bind.
    destruct (match err with Some e => Fatal f [sp; e] | None => ret tt end st)
      as [[[]| |] st1]; try discriminate.
    intros H. apply IH in H as [H1 H2]. rewrite H1, H2.
    cbn [add_schema schema schemaPaths]. rewrite <- app_assoc. auto.
Qed.

(** C3, as the code has it.  For a directory that can be read throughout, the
    option [Migrations] loads exactly the files (directories excluded)
    at any depth under it whose path has the extension [.sql], and
    meets no error.  Their order is that of the walk: the entries of each
    directory in the order of their names, the files of a subdirectory in
    the place of the subdirectory; it does not depend on the order in
    which the system lists the entries.  For a directory without
    subdirectories this is the strict order of the path strings; [Open]
    reads the contents in the same order.  In particular a directory
    holding [0002_b.sql] and [0001_a.sql] yields the first's path after
    the second's, however the system lists them. *)
Theorem Migrations_loads_sql_files_in_walk_order
    (env : Env) (f : Fataler) (dir : string) (entries : list (string * OS.node))
    (data : optionData) (st : State) :
  lstat env dir = OS.Dir entries ->
  healthy (OS.Dir entries) = true ->
  let files := sql_files dir (OS.Dir entries) in
  apply env (Migrations dir) f data st = (Ret (add_paths data files), st)
  /\ (forall p, In p files <->
                file_under dir (OS.Dir entries) p /\ Filepath.Ext p = ".sql")
  /\ files = concat (map (fun en => sql_files (Filepath.Join dir (fst en)) (snd en))
                       (Walk.sort_by_name entries))
  /\ (NoDup (map fst entries) ->
      StronglySorted (fun a b => Str.lt (fst a) (fst b)) (Walk.sort_by_name entries))
  /\ (forall entries', Permutation entries entries' -> NoDup (map fst entries) ->
      sql_files dir (OS.Dir entries') = files)
  /\ (flat entries = true -> NoDup (map fst entries) -> StronglySorted Str.lt files)
  /\ (forall data' st',
        loadOptions env f [Migrations dir] st = (Ret data', st') ->
        schemaPaths data' = files
        /\ schema data' = map (fun p => fst (ReadFile env p)) files)
  /\ (Permutation entries [("0002_b.sql", OS.NotDir); ("0001_a.sql", OS.NotDir)] ->
      files = [Filepath.Join dir "0001_a.sql"; Filepath.Join dir "0002_b.sql"]).
Proof.
  intros Hls Hh files.
  assert (Happly : forall d s,
             apply env (Migrations dir) f d s = (Ret (add_paths d files), s)).
  { intros d s. cbn [apply]. unfold filepath_Walk. rewrite Hls.
    rewrite (walk_migrations _ Hh). reflexivity. }
  assert (Hperm : forall entries', Permutation entries entries' ->
             NoDup (map fst entries) -> sql_files dir (OS.Dir entries') = files).
  { intros entries' Hp Hnd. unfold files. rewrite !sql_files_Dir.
    rewrite (sort_by_name_permutation _ _ Hp Hnd). reflexivity. }
  split; [apply Happly|]. split; [apply sql_files_spec|].
  split; [apply sql_files_Dir|]. split; [apply sort_by_name_strict|].
  split; [exact Hperm|]. split; [|split].
  - intros Hflat Hnd. unfold files. rewrite sql_files_Dir.
    apply flat_files_sorted; [apply sort_by_name_strict, Hnd|].
    apply List.Forall_forall. intros en Hin.
    assert (Hin' : In en entries).
    { eapply Permutation_in; [apply sort_by_name_perm|exact Hin]. }
    pose proof (proj1 (List.Forall_forall _ _) (healthy_Dir _ Hh) en Hin') as [Hp _].
    split; [exact Hp|].
    pose proof (proj1 (List.forallb_forall _ _) Hflat en Hin') as Hn.
    cbn beta in Hn. destruct (snd en); try discriminate Hn. reflexivity.
  - intros data' st' Hload. unfold loadOptions in Hload. cbn [applyAll] in Hload.
    unfold bind in Hload. rewrite Happly in Hload. cbn [ret] in Hload.
    apply readSchemas_schema in Hload as [H1 H2].
    rewrite H1, H2. cbn [add_paths schema schemaPaths app]. auto.
  - intros Hp.
    assert (Hnd : NoDup (map fst entries)).
    { eapply NoDup_Permutation_proper; [apply Permutation_map, Hp|].
      cbn [map fst]. apply NoDup_cons. split.
      - intros Hin. apply list_elem_of_In in Hin. destruct Hin as [Heq|[]].
        discriminate Heq.
      - apply NoDup_singleton. }
    rewrite <- (Hperm _ Hp Hnd). rewrite sql_files_Dir.
    change (Walk.sort_by_name [("0002_b.sql", OS.NotDir); ("0001_a.sql", OS.NotDir)])
      with [("0001_a.sql", OS.NotDir); ("0002_b.sql", OS.NotDir)].
    cbn [map concat sql_files fst snd].
    rewrite !Join_plain by reflexivity. rewrite !Ext_app by discriminate.
    reflexivity.
Qed.

Lemma Migrations_loads_sql_files_in_walk_order_witness :
  let env := with_tree sample_env
               (OS.Dir [("0002_b.sql", OS.NotDir); ("0001_a.sql", OS.NotDir)]) in
  exists data st',
    loadOptions env {| returns := false |} [Migrations "migrations"] start = (Ret data, st')
    /\ schemaPaths data = ["migrations/0001_a.sql"; "migrations/0002_b.sql"]
    /\ schema data = ["CREATE TABLE a ();"; "CREATE TABLE b ();"].
Proof.
  intros env.
  destruct (loadOptions env {| returns := false |} [Migrations "migrations"] start)
    as [[data| |] st'] eqn:Hload; try (vm_compute in Hload; discriminate Hload).
  exists data, st'. split; [reflexivity|].
  destruct (Migrations_loads_sql_files_in_walk_order env {| returns := false |}
              "migrations" [("0002_b.sql", OS.NotDir); ("0001_a.sql", OS.NotDir)]
              {| schema := []; schemaPaths := []; databaseURL := defaultURL |} start
              eq_refl eq_refl)
    as [_ [_ [_ [_ [_ [_ [Hread Hex]]]]]]].
  destruct (Hread data st' Hload) as [Hp Hs].
  rewrite Hs, Hp, (Hex (Permutation_refl _)). split; reflexivity.
Defined.

(** C3, as stated, fails: in the sample world the walk reaches
    [migrations/old/0000_z.sql] before [migrations/old.sql], although the
    second path is the smaller string, so the schema texts are not in the
    order of the path strings. *)
Lemma Migrations_not_in_path_order :
  exists data st',
    loadOptions sample_env {| returns := false |} [Migrations "migrations"] start
      = (Ret data, st')
    /\ schemaPaths data =
         ["migrations/0001_a.sql"; "migrations/0002_b.sql";
          "migrations/old/0000_z.sql"; "migrations/old.sql"]
    /\ schema data =
         ["CREATE TABLE a ();"; "CREATE TABLE b ();"; "SELEC 1;"; "DROP TABLE c;"]
    /\ Str.lt "migrations/old.sql" "migrations/old/0000_z.sql"
    /\ ~ StronglySorted String.le (schemaPaths data).
Proof.
  eexists _, _. split; [vm_compute; reflexivity|].
  split; [reflexivity|]. split; [reflexivity|]. split; [reflexivity|].
  cbn [schemaPaths]. intros H.
  apply StronglySorted_inv in H as [H _]. apply StronglySorted_inv in H as [H _].
  apply StronglySorted_inv in H as [_ H]. apply Forall_inv in H.
  vm_compute in H. exact H.
Qed.

(** * Further properties of the program *)

(** ** Names and the inventory query *)

(** X1.  A name determines the second of its timestamp and its suffix:
    two names are equal only if they were formatted in the same second
    with the same suffix (for years 0000 to 9999). *)
Theorem formatDBName_injective (s1 s2 : string) (t1 t2 : GoTime.Time) :
  four_digit_year t1 -> four_digit_year t2 ->
  formatDBName s1 t1 = formatDBName s2 t2 ->
  GoTime.Unix t1 = GoTime.Unix t2 /\ s1 = s2.
Proof.
  intros H1 H2 Heq.
  assert (Hu : GoTime.Unix t1 = GoTime.Unix t2).
  { destruct (Z.lt_trichotomy (GoTime.Unix t1) (GoTime.Unix t2)) as [Hlt|[He|Hgt]];
      [exfalso|exact He|exfalso].
    - pose proof (formatDBName_compare s1 s2 t1 t2 H1 H2 Hlt) as Hc.
      rewrite Heq, compare_refl_str in Hc. discriminate.
    - pose proof (formatDBName_compare s2 s1 t2 t1 H2 H1 ltac:(lia)) as Hc.
      rewrite Heq, compare_refl_str in Hc. discriminate. }
  split; [exact Hu|].
  unfold formatDBName in Heq. rewrite (Format_Unix _ _ _ Hu) in Heq.
  repeat apply String.app_inj in Heq. exact Heq.
Qed.

Lemma formatDBName_injective_witness :
  let t := 1777777777 * GoTime.Second in
  let t' := 1777777777 * GoTime.Second + 999999999 in
  (four_digit_year t /\ four_digit_year t'
   /\ formatDBName "abcdefghij_a" t = formatDBName "abcdefghij_a" t')
  /\ GoTime.Unix t = GoTime.Unix t' /\ "abcdefghij_a" = "abcdefghij_a".
Proof.
  intros t t'.
  assert (Y1 : four_digit_year t) by (vm_compute; split; discriminate).
  assert (Y2 : four_digit_year t') by (vm_compute; split; discriminate).
  assert (E : formatDBName "abcdefghij_a" t = formatDBName "abcdefghij_a" t')
    by (vm_compute; reflexivity).
  split; [auto|].
  exact (formatDBName_injective _ _ _ _ Y1 Y2 E).
Defined.

Lemma like_literal (c d : ascii) (p s : string) :
  Ascii.eqb c "%" = false ->
  SQL.like (String c p) (String d s) = (Ascii.eqb c "_" || Ascii.eqb c d) && SQL.like p s.
Proof. intros H. cbn [SQL.like]. rewrite H. reflexivity. Qed.

Lemma like_literal_nil (c : ascii) (p : string) :
  Ascii.eqb c "%" = false -> SQL.like (String c p) "" = false.
Proof. intros H. cbn [SQL.like]. rewrite H. reflexivity. Qed.

Lemma like_pqtest_inv (name : string) :
  SQL.like "pqtest_%" name = true ->
  exists c rest, name = "pqtest" +:+ String c rest.
Proof.
  intros H.
  do 6 (destruct name as [|? name];
        [rewrite like_literal_nil in H by reflexivity; discriminate H|];
        rewrite like_literal in H by reflexivity;
        apply andb_prop in H as [Hc H];
        change (Ascii.eqb _ "_") with false in Hc; cbn [orb] in Hc;
        apply Ascii.eqb_eq in Hc; subst).
  destruct name as [|c rest];
    [rewrite like_literal_nil in H by reflexivity; discriminate H|].
  exists c, rest. reflexivity.
Qed.

Lemma scanAll_inl (f : nat -> option error) (rows acc names : list string) :
  scanAll (imap (fun i name => (f i, name)) rows) acc = inl names ->
  names = acc ++ rows.
Proof.
  revert f acc. induction rows as [|r rows IH]; intros f acc.
  - cbn. intros [= <-]. rewrite app_nil_r. reflexivity.
  - cbn [imap scanAll]. destruct (f 0%nat); [discriminate|].
    intros H. apply (IH (f ∘ S)) in H. rewrite H, <- app_assoc. reflexivity.
Qed.

(** Whenever the enumeration succeeds, it is the list of the databases
    that satisfy the [WHERE] clause. *)
Lemma enumerate_inl (env : Env) (bound : string) (names : list string) :
  enumerate env bound = inl names ->
  names = List.filter (gcWhere bound) (pg_database env).
Proof.
  unfold enumerate, delivered, select. rewrite String.eqb_refl.
  destruct (query_err env); [discriminate|].
  destruct (rows_stop env) as [[k e]|].
  - destruct (scanAll _ []); discriminate.
  - destruct (scanAll _ []) as [l|] eqn:Hs; [|discriminate].
    intros [= <-]. apply scanAll_inl in Hs. exact Hs.
Qed.

Lemma In_firstn {A : Type} (n : nat) (l : list A) (x : A) :
  In x (firstn n l) -> In x l.
Proof.
  intros H. rewrite <- (List.firstn_skipn n l). apply List.in_or_app. left. exact H.
Qed.

(** X2.  The collector only ever drops databases the server listed whose
    name is [pqtest] followed by at least one more byte and sorts below
    the bound: every statement it dispatches is a [DROP DATABASE] of such
    a name, so a database like [postgres] is never touched. *)
Theorem garbageCollectDBs_only_drops_pqtest (env : Env) (db : DB) (st : State) :
  let bound := gcBound (clock env (ticks st)) in
  exists dispatched,
    trace (snd (garbageCollectDBs env db st)) =
      trace st ++ EvQuery (dsn db) q [bound] :: map (drop_event db) dispatched
    /\ Forall (fun name =>
                 In name (pg_database env)
                 /\ (exists c rest, name = "pqtest" +:+ String c rest)
                 /\ Str.lt name bound) dispatched.
Proof.
  intros bound. rewrite garbageCollectDBs_run. fold bound.
  destruct (enumerate env bound) as [names|e] eqn:He.
  - exists (firstn 6 names). split.
    + cbn [snd logged trace ticked]. rewrite <- app_assoc. reflexivity.
    + apply enumerate_inl in He. subst names.
      apply List.Forall_forall. intros name Hin.
      apply In_firstn in Hin. apply List.filter_In in Hin as [Hin Hw].
      unfold gcWhere in Hw. apply andb_prop in Hw as [Hl Hb].
      split; [exact Hin|]. split; [apply like_pqtest_inv, Hl|apply ltb_lt, Hb].
  - exists []. split; [reflexivity|constructor].
Qed.

(** X3.  The underscore of the pattern [pqtest_%] is a wildcard: a name
    that is [pqtest] followed by any byte below the underscore (a digit, a
    capital letter, a hyphen) and anything else satisfies the [WHERE]
    clause at any time, whatever its age. *)
Theorem gcWhere_underscore_is_wildcard (now : GoTime.Time) (c : ascii) (rest : string) :
  (N_of_ascii c < 95)%N ->
  gcWhere (gcBound now) ("pqtest" +:+ String c rest) = true.
Proof.
  intros Hc. unfold gcWhere. apply andb_true_intro. split.
  - change (SQL.like "%" rest = true). apply like_any.
  - apply ltb_lt. unfold Str.lt, gcBound, formatDBName.
    rewrite pqtest_prefix, compare_app_prefix.
    change ("_" +:+ ?x) with (String "_" x).
    cbn [String.append String.compare].
    assert (Ha : Ascii.compare c "_" = Lt).
    { unfold Ascii.compare. apply N.compare_lt_iff. exact Hc. }
    rewrite Ha. reflexivity.
Qed.

Lemma gcWhere_underscore_is_wildcard_witness :
  (N_of_ascii "-" < 95)%N
  /\ gcWhere (gcBound (1777777777 * GoTime.Second)) "pqtest-archive-2031" = true.
Proof.
  assert (H : (N_of_ascii "-" < 95)%N) by reflexivity.
  split; [exact H|].
  exact (gcWhere_underscore_is_wildcard (1777777777 * GoTime.Second) "-" "archive-2031" H).
Defined.

(** X4.  In the very second the bound prints, the suffix decides: a name
    formatted in that second is selected exactly when its suffix sorts
    below [db]. *)
Theorem gcWhere_boundary_second (now t : GoTime.Time) (suffix : string) :
  GoTime.Unix t = GoTime.Unix (gcTime now) ->
  (gcWhere (gcBound now) (formatDBName suffix t) = true <-> Str.lt suffix "db").
Proof.
  intros H. unfold gcWhere, gcBound, formatDBName.
  rewrite like_pqtest, (Format_Unix _ _ _ H). cbn [andb].
  rewrite ltb_lt. unfold Str.lt. rewrite !compare_app_prefix. reflexivity.
Qed.

Lemma gcWhere_boundary_second_witness :
  let now := 1777777777 * GoTime.Second + 500000000 in
  let t := 1777777597 * GoTime.Second in
  GoTime.Unix t = GoTime.Unix (gcTime now)
  /\ gcWhere (gcBound now) (formatDBName "czzzzzzzzz_store_test" t) = true
  /\ gcWhere (gcBound now) (formatDBName "dcaaaaaaaa" t) = false.
Proof.
  intros now t.
  assert (H : GoTime.Unix t = GoTime.Unix (gcTime now)) by reflexivity.
  split; [exact H|]. split.
  - apply (gcWhere_boundary_second now t _ H). reflexivity.
  - destruct (gcWhere (gcBound now) (formatDBName "dcaaaaaaaa" t)) eqn:E; [|reflexivity].
    apply (gcWhere_boundary_second now t _ H) in E. discriminate E.
Defined.

Lemma gcBound_mono (now now' : GoTime.Time) :
  four_digit_year (gcTime now) -> four_digit_year (gcTime now') -> now <= now' ->
  String.compare (gcBound now) (gcBound now') <> Gt.
Proof.
  intros H1 H2 Hle.
  assert (Hu : GoTime.Unix (gcTime now) <= GoTime.Unix (gcTime now')).
  { apply Unix_mono. unfold gcTime, GoTime.Add. lia. }
  destruct (Z.eq_dec (GoTime.Unix (gcTime now)) (GoTime.Unix (gcTime now'))) as [He|Hne].
  - unfold gcBound, formatDBName. rewrite (Format_Unix _ _ _ He), compare_refl_str.
    discriminate.
  - unfold gcBound. rewrite formatDBName_compare by (try assumption; lia). discriminate.
Qed.

(** X5.  A database that one pass would select is selected by every later
    pass: what is eligible stays eligible until it is dropped. *)
Theorem gcWhere_stays_selected (now now' : GoTime.Time) (datname : string) :
  four_digit_year (gcTime now) -> four_digit_year (gcTime now') -> now <= now' ->
  gcWhere (gcBound now) datname = true ->
  gcWhere (gcBound now') datname = true.
Proof.
  intros H1 H2 Hle Hw. unfold gcWhere in *.
  apply andb_prop in Hw as [Hl Hb]. rewrite Hl. cbn [andb].
  apply ltb_lt. apply ltb_lt in Hb.
  pose proof (gcBound_mono now now' H1 H2 Hle) as Hm.
  destruct (String.compare (gcBound now) (gcBound now')) eqn:Hc.
  - apply String.compare_eq_iff in Hc. rewrite <- Hc. exact Hb.
  - eapply lt_trans_str; [exact Hb|exact Hc].
  - contradiction.
Qed.

Lemma gcWhere_stays_selected_witness :
  let now := 1777777777 * GoTime.Second in
  let now' := 1777779999 * GoTime.Second in
  (four_digit_year (gcTime now) /\ four_digit_year (gcTime now') /\ now <= now'
   /\ gcWhere (gcBound now) "pqtest_20260503025937Z_a" = true)
  /\ gcWhere (gcBound now') "pqtest_20260503025937Z_a" = true.
Proof.
  intros now now'.
  assert (Y1 : four_digit_year (gcTime now)) by (vm_compute; split; discriminate).
  assert (Y2 : four_digit_year (gcTime now')) by (vm_compute; split; discriminate).
  assert (L : now <= now') by (vm_compute; discriminate).
  assert (W : gcWhere (gcBound now) "pqtest_20260503025937Z_a" = true) by reflexivity.
  split; [auto|].
  exact (gcWhere_stays_selected now now' _ Y1 Y2 L W).
Defined.

(** ** Generating a name *)

Lemma randomDBName_effects_aux (env : Env) (file : string) (st : State) :
  exists letters,
    randomDBName env file st =
      (Ret (formatDBName (letters +:+ caller_tag file) (clock env (ticks st))),
       {| ticks := S (ticks st); drawn := (drawn st + 10)%nat; trace := trace st |}).
Proof.
  destruct (randomLetters_run env 10 "" st) as [r [Hr _]].
  exists r. unfold randomDBName. rewrite (bind_run _ _ _ _ _ Hr).
  unfold bind, Now, ret, caller_tag. cbn [ticks drawn trace drew].
  rewrite app_nil_l_str.
  destruct (String.eqb (Strings.TrimSuffix (Filepath.Base file) ".go") ""); cbn [negb].
  - rewrite app_nil_r_str. reflexivity.
  - reflexivity.
Qed.

(** X6.  In any year [randomDBName] returns without a panic; it takes
    exactly ten numbers from the random source, reads the clock once and
    touches nothing else; the name is [formatDBName] of ten letters and
    the caller's tag at that clock reading. *)
Theorem randomDBName_effects (env : Env) (file : string) (st : State) :
  exists letters,
    randomDBName env file st =
      (Ret (formatDBName (letters +:+ caller_tag file) (clock env (ticks st))),
       {| ticks := S (ticks st); drawn := (drawn st + 10)%nat; trace := trace st |})
    /\ String.length letters = 10%nat
    /\ Str.all_chars Str.is_lower letters = true.
Proof.
  destruct (randomLetters_run env 10 "" st) as [r [Hr [Hlen Hlow]]].
  exists r. split; [|split; assumption].
  unfold randomDBName. rewrite (bind_run _ _ _ _ _ Hr).
  unfold bind, Now, ret, caller_tag. cbn [ticks drawn trace drew].
  rewrite app_nil_l_str.
  destruct (String.eqb (Strings.TrimSuffix (Filepath.Base file) ".go") ""); cbn [negb].
  - rewrite app_nil_r_str. reflexivity.
  - reflexivity.
Qed.

Lemma Base_not_empty (path : string) : Filepath.Base path <> "".
Proof.
  unfold Filepath.Base. destruct (String.eqb path ""); [discriminate|].
  destruct (String.eqb_spec (Filepath.last_element (Filepath.trim_slashes path)) "");
    [discriminate|assumption].
Qed.

Lemma take_empty (n : nat) (s : string) : Str.take n s = "" -> n = 0%nat \/ s = "".
Proof. destruct n, s; cbn; intros H; auto; discriminate. Qed.

Lemma TrimSuffix_empty (s suffix : string) :
  Strings.TrimSuffix s suffix = "" <-> s = "" \/ s = suffix.
Proof.
  unfold Strings.TrimSuffix, Strings.HasSuffix. split.
  - destruct (String.length suffix <=? String.length s)%nat eqn:Hl; cbn [andb]; [|auto].
    destruct (String.eqb_spec
                (Str.drop (String.length s - String.length suffix) s) suffix) as [Hd|];
      [|auto].
    intros Ht. apply take_empty in Ht as [Hk|Hs]; [|auto].
    right. rewrite Hk in Hd. exact Hd.
  - intros [->| ->].
    + destruct (_ && _); reflexivity.
    + rewrite Nat.leb_refl, Nat.sub_diag. cbn [Str.drop andb].
      rewrite String.eqb_refl. reflexivity.
Qed.

(** X7.  The tag is left out exactly when the base name of the caller's
    file is [.go]; any other file adds an underscore and its base name
    without a final [.go].  When the runtime reports no file at all (the
    empty string) the base name is a dot and the name ends in [_.] *)
Theorem caller_tag_left_out (env : Env) (file : string) (st : State) :
  (caller_tag file = "" <-> Filepath.Base file = ".go")
  /\ (caller_tag file <> "" ->
      caller_tag file = "_" +:+ Strings.TrimSuffix (Filepath.Base file) ".go")
  /\ (file = "" ->
      exists letters,
        fst (randomDBName env file st) =
          Ret (formatDBName (letters +:+ "_.") (clock env (ticks st)))).
Proof.
  split; [|split].
  - unfold caller_tag.
    destruct (String.eqb_spec (Strings.TrimSuffix (Filepath.Base file) ".go") "")
      as [He|Hne].
    + split; [intros _|reflexivity].
      apply TrimSuffix_empty in He as [He|He]; [|exact He].
      exfalso. exact (Base_not_empty file He).
    + split; [discriminate|]. intros Hb. exfalso. apply Hne.
      apply TrimSuffix_empty. right. exact Hb.
  - unfold caller_tag.
    destruct (String.eqb (Strings.TrimSuffix (Filepath.Base file) ".go") "");
      [intros H; contradiction|reflexivity].
  - intros ->. destruct (randomDBName_effects_aux env "" st) as [letters H].
    exists letters. rewrite H. reflexivity.
Qed.

Lemma caller_tag_left_out_witness :
  caller_tag "/home/dev/src/app/.go" = ""
  /\ caller_tag "/home/dev/src/app/store_test.go" = "_store_test"
  /\ exists letters,
       fst (randomDBName sample_env "" start) =
         Ret (formatDBName (letters +:+ "_.") (clock sample_env 0)).
Proof.
  destruct (caller_tag_left_out sample_env "/home/dev/src/app/.go" start) as [H1 _].
  destruct (caller_tag_left_out sample_env "/home/dev/src/app/store_test.go" start)
    as [_ [H2 _]].
  destruct (caller_tag_left_out sample_env "" start) as [_ [_ H3]].
  split; [apply H1; reflexivity|]. split; [apply H2; discriminate|].
  apply H3. reflexivity.
Defined.

(** ** The control connection *)

(** X8.  [mkdb] closes the control connection exactly when it has opened
    it, once, and as the last thing it does: an administrative URL that
    does not parse opens nothing, a connection that does not open is not
    closed, and otherwise the trace of the call is the open, events that
    neither open nor close anything, and the close. *)
Theorem mkdb_closes_what_it_opens (env : Env) (dbURL : string) (st : State) :
  exists evs,
    trace (snd (mkdb env dbURL st)) = trace st ++ evs
    /\ match Parse env dbURL, open_err env "postgres" dbURL with
       | inr _, _ => evs = []
       | inl _, Some _ => evs = [EvOpen "postgres" dbURL]
       | inl _, None =>
           exists middle,
             evs = EvOpen "postgres" dbURL :: middle ++ [EvClose dbURL]
             /\ Forall (fun ev => is_open ev = false /\ is_close ev = false) middle
       end.
Proof.
  rewrite mkdb_run. destruct (Parse env dbURL) as [u|e].
  - destruct (open_err env "postgres" dbURL) as [e|].
    + eexists. split; reflexivity.
    + destruct (enumerate env _) as [names|e].
      * eexists. split; [reflexivity|].
        exists (EvQuery dbURL q [gcBound (clock env (ticks (ticked (drew 10 st))))]
                  :: map (drop_event {| dsn := dbURL |}) (firstn 6 names)
                  ++ [EvExec dbURL
                        (create_stmt (generated_name env (caller env) st))]).
        split.
        -- cbn [app]. rewrite <- app_assoc. reflexivity.
        -- constructor; [split; reflexivity|].
           apply Forall_app. split.
           ++ apply List.Forall_forall. intros ev Hin.
              apply List.in_map_iff in Hin as [name [<- _]]. split; reflexivity.
           ++ constructor; [split; reflexivity|constructor].
      * eexists. split; [reflexivity|].
        exists [EvQuery dbURL q [gcBound (clock env (ticks (ticked (drew 10 st))))]].
        split; [reflexivity|]. constructor; [split; reflexivity|constructor].
  - exists []. split; [|reflexivity]. cbn. rewrite app_nil_r. reflexivity.
Qed.

(** X9.  When [CREATE DATABASE] fails, [mkdb] still returns the URL of
    the database together with the error, and an [Open] whose [Fatal]
    does not return ends there: it prints nothing, opens no connection to
    the database and executes no schema text. *)
Theorem create_failure_ends_Open
    (env : Env) (f : Fataler) (opts : list Option) (st st1 : State)
    (data : optionData) (u : URL.URL) (names : list string) (e : error) :
  returns f = false ->
  loadOptions env f opts st = (Ret data, st1) ->
  Parse env defaultURL = inl u ->
  open_err env "postgres" defaultURL = None ->
  enumerate env (gcBound (clock env (S (ticks st1)))) = inl names ->
  exec_err env defaultURL (create_stmt (generated_name env (caller env) st1)) = Some e ->
  exists st2,
    mkdb env defaultURL st1 =
      (Ret (URL.String_ (set_path u ("/" +:+ generated_name env (caller env) st1)),
            Some e), st2)
    /\ Open env f opts st = (Exit, logged st2 [EvFatal [e]]).
Proof.
  intros Hret Hload Hparse Hopen Henum Hexec.
  pose proof (mkdb_run env defaultURL st1) as Hmk. cbv zeta in Hmk.
  rewrite Hparse, Hopen in Hmk.
  change (gcBound (clock env (ticks (ticked (drew 10 st1)))))
    with (gcBound (clock env (S (ticks st1)))) in Hmk.
  rewrite Henum, Hexec in Hmk.
  eexists. split; [exact Hmk|].
  rewrite (Open_run _ _ _ _ _ _ Hload), (bind_run _ _ _ _ _ Hmk).
  unfold after_mkdb. cbn [fst snd]. unfold bind at 1. rewrite Fatal_run, Hret.
  reflexivity.
Qed.

Lemma create_failure_ends_Open_witness :
  let env := with_exec_err sample_env (fun _ _ => Some "database already exists") in
  exists st2,
    Open env {| returns := false |} [] start =
      (Exit, logged st2 [EvFatal ["database already exists"]]).
Proof.
  intros env.
  destruct (create_failure_ends_Open env {| returns := false |} [] start start
              {| schema := []; schemaPaths := []; databaseURL := defaultURL |}
              URL.parsed_default
              ["pqtest_20260503030437Z_qwertyuiop_store_test";
               "pqtest_20260503025937Z_a"; "pqtest_20260503025938Z_b";
               "pqtest_20260503025939Z_c"; "pqtest_20260503025940Z_d";
               "pqtest_20260503025941Z_e"; "pqtest_20260503025942Z_f";
               "pqtest_20260503025943Z_g"; "pqtestX20260503025943Z_h"]
              "database already exists"
              eq_refl eq_refl eq_refl eq_refl ltac:(vm_compute; reflexivity) eq_refl)
    as [st2 [_ H]].
  exists st2. exact H.
Defined.

(** ** The path of the new URL *)

Lemma hex_ok_all (c : ascii) : hex_ok c = true.
Proof. destruct c as [[] [] [] [] [] [] [] []]; vm_compute; reflexivity. Qed.

Lemma shouldEscape_percent (mode : URL.encoding) : URL.shouldEscape "%" mode = true.
Proof. destruct mode; reflexivity. Qed.

(** Escaping and unescaping a string gives the string back. *)
Lemma unescape_escape (s : string) (mode : URL.encoding) :
  URL.unescape (URL.escape s mode) = Some s.
Proof.
  induction s as [|c s IH]; [reflexivity|].
  cbn [URL.escape]. destruct (URL.shouldEscape c mode) eqn:Hs.
  - cbn [URL.unescape]. rewrite Ascii.eqb_refl, IH.
    pose proof (hex_ok_all c) as Hh. unfold hex_ok in Hh.
    destruct (URL.unhex (URL.hex_digit (N_of_ascii c / 16))) as [a|]; [|discriminate].
    destruct (URL.unhex (URL.hex_digit (N_of_ascii c mod 16))) as [b|]; [|discriminate].
    apply Ascii.eqb_eq in Hh. rewrite Hh. reflexivity.
  - cbn [URL.unescape].
    destruct (Ascii.eqb_spec c "%") as [->|Hne].
    + rewrite shouldEscape_percent in Hs. discriminate.
    + rewrite IH. reflexivity.
Qed.

(** X10.  The path [mkdb] writes into the URL of the new database reads
    back, unescaped, as a slash and exactly the name it sends in [CREATE
    DATABASE], whatever bytes the caller's file name contributed: the
    connection [Open] makes is to the database [mkdb] created. *)
Theorem mkdb_url_names_the_created_database
    (env : Env) (dbURL : string) (st : State) (u : URL.URL) (names : list string) :
  Parse env dbURL = inl u ->
  URL.Opaque u = "" ->
  open_err env "postgres" dbURL = None ->
  enumerate env (gcBound (clock env (S (ticks st)))) = inl names ->
  let name := generated_name env (caller env) st in
  exists path,
    fst (mkdb env dbURL st) =
      Ret (URL.scheme_part u +:+ URL.authority (set_path u "/")
           +:+ path +:+ URL.query_and_fragment u,
           exec_err env dbURL (create_stmt name))
    /\ URL.unescape path = Some ("/" +:+ name)
    /\ In (EvExec dbURL ("CREATE DATABASE " +:+ QuoteIdentifier name))
         (trace (snd (mkdb env dbURL st))).
Proof.
  intros Hparse Hop Hopen Henum name.
  exists (URL.EscapedPath (set_path u ("/" +:+ name))).
  pose proof (mkdb_run env dbURL st) as Hmk. cbv zeta in Hmk.
  rewrite Hparse, Hopen in Hmk.
  change (gcBound (clock env (ticks (ticked (drew 10 st)))))
    with (gcBound (clock env (S (ticks st)))) in Hmk.
  rewrite Henum in Hmk. fold name in Hmk. rewrite Hmk. cbn [fst snd].
  split; [|split].
  - rewrite (String_set_path u name Hop). reflexivity.
  - unfold URL.EscapedPath, set_path. cbn [URL.RawPath URL.Path].
    destruct (URL.unescape ("/" +:+ name)) as [p|] eqn:Hu.
    + destruct (String.eqb_spec p ("/" +:+ name)) as [->|Hne].
      * destruct (negb _ && _); cbn [andb];
          [exact Hu|apply (unescape_escape ("/" +:+ name))].
      * rewrite andb_false_r. apply (unescape_escape ("/" +:+ name)).
    + rewrite andb_false_r. apply (unescape_escape ("/" +:+ name)).
  - cbn [logged trace]. apply List.in_or_app. right. right. right.
    apply List.in_or_app. right. left. reflexivity.
Qed.

Lemma mkdb_url_names_the_created_database_witness :
  let env := with_caller sample_env "/src/my app/a?b%41_test.go" in
  exists path,
    URL.unescape path = Some "/pqtest_20260503030937Z_dkryfmtaho_a?b%41_test"
    /\ fst (mkdb env defaultURL start) =
         Ret ("postgres:" +:+ "//" +:+ path +:+ "?sslmode=disable", None).
Proof.
  intros env.
  destruct (mkdb_url_names_the_created_database env defaultURL start URL.parsed_default
              ["pqtest_20260503030437Z_qwertyuiop_store_test";
               "pqtest_20260503025937Z_a"; "pqtest_20260503025938Z_b";
               "pqtest_20260503025939Z_c"; "pqtest_20260503025940Z_d";
               "pqtest_20260503025941Z_e"; "pqtest_20260503025942Z_f";
               "pqtest_20260503025943Z_g"; "pqtestX20260503025943Z_h"]
              eq_refl eq_refl eq_refl ltac:(vm_compute; reflexivity))
    as [path [H1 [H2 _]]].
  exists path. split.
  - rewrite H2. vm_compute. reflexivity.
  - rewrite H1. vm_compute. reflexivity.
Defined.

(** ** [Open] from end to end *)

Lemma execSchemas_ok (env : Env) (f : Fataler) (d : DB) (texts : list string) (st : State) :
  (forall text, In text texts -> exec_err env (dsn d) text = None) ->
  execSchemas env f (Some d) texts st = (Ret tt, logged st (map (EvExec (dsn d)) texts)).
Proof.
  revert st. induction texts as [|text rest IH]; intros st Hok.
  - cbn. rewrite logged_nil. reflexivity.
  - cbn [execSchemas map]. unfold Exec. unfold bind at 1. unfold bind at 1.
    rewrite emit_run. cbn [ret]. rewrite (Hok text) by (left; reflexivity).
    unfold bind at 1. cbn [ret]. rewrite IH by (intros t Ht; apply Hok; right; exact Ht).
    rewrite logged_logged. reflexivity.
Qed.

(** X11.  When nothing fails, [Open] never calls [Fatal] and does its
    work in this order: it opens the control connection, sends the
    inventory query, dispatches the drops, creates the database, closes
    the control connection, prints the new URL, opens the new database
    and executes the schema texts one after the other; it returns the
    handle of the new database. *)
Theorem Open_without_errors
    (env : Env) (f : Fataler) (opts : list Option) (st st1 : State)
    (data : optionData) (u : URL.URL) (names : list string) :
  let bound := gcBound (clock env (S (ticks st1))) in
  let name := generated_name env (caller env) st1 in
  let url := URL.String_ (set_path u ("/" +:+ name)) in
  loadOptions env f opts st = (Ret data, st1) ->
  Parse env defaultURL = inl u ->
  open_err env "postgres" defaultURL = None ->
  enumerate env bound = inl names ->
  exec_err env defaultURL (create_stmt name) = None ->
  open_err env "postgres" url = None ->
  (forall text, In text (schema data) -> exec_err env url text = None) ->
  Open env f opts st =
    (Ret (Some {| dsn := url |}),
     logged (ticked (ticked (drew 10 st1)))
       (EvOpen "postgres" defaultURL :: EvQuery defaultURL q [bound]
          :: map (drop_event {| dsn := defaultURL |}) (firstn 6 names)
          ++ [EvExec defaultURL (create_stmt name); EvClose defaultURL;
              EvPrintln url; EvOpen "postgres" url]
          ++ map (EvExec url) (schema data))).
Proof.
  intros bound name url Hload Hparse Hopen Henum Hcreate Hopen' Hexec.
  pose proof (mkdb_run env defaultURL st1) as Hmk. cbv zeta in Hmk.
  rewrite Hparse, Hopen in Hmk.
  change (gcBound (clock env (ticks (ticked (drew 10 st1))))) with bound in Hmk.
  rewrite Henum in Hmk. fold name in Hmk. fold url in Hmk. rewrite Hcreate in Hmk.
  rewrite (Open_run _ _ _ _ _ _ Hload), (bind_run _ _ _ _ _ Hmk).
  unfold after_mkdb. cbn [fst snd]. rewrite bind_ret.
  unfold bind at 1. rewrite emit_run.
  unfold sql_Open. unfold bind at 1. unfold bind at 1. rewrite emit_run, Hopen'.
  cbn [ret fst snd]. rewrite bind_ret. unfold bind at 1.
  rewrite (execSchemas_ok env f {| dsn := url |}) by exact Hexec.
  cbn [ret dsn]. rewrite !logged_logged. f_equal. f_equal.
  cbn [app]. rewrite <- !app_assoc. reflexivity.
Qed.

Lemma Open_without_errors_witness :
  exists st',
    Open sample_env {| returns := false |} [SchemaFile "migrations/0001_a.sql"] start =
      (Ret (Some {| dsn := "postgres:///pqtest_20260503030937Z_dkryfmtaho_store_test?sslmode=disable" |}),
       st')
    /\ List.filter is_fatal (trace st') = [].
Proof.
  eexists. split.
  - rewrite (Open_without_errors sample_env {| returns := false |}
               [SchemaFile "migrations/0001_a.sql"] start start
               {| schema := ["CREATE TABLE a ();"];
                  schemaPaths := ["migrations/0001_a.sql"];
                  databaseURL := defaultURL |}
               URL.parsed_default
               ["pqtest_20260503030437Z_qwertyuiop_store_test";
                "pqtest_20260503025937Z_a"; "pqtest_20260503025938Z_b";
                "pqtest_20260503025939Z_c"; "pqtest_20260503025940Z_d";
                "pqtest_20260503025941Z_e"; "pqtest_20260503025942Z_f";
                "pqtest_20260503025943Z_g"; "pqtestX20260503025943Z_h"]
               eq_refl eq_refl eq_refl ltac:(vm_compute; reflexivity) eq_refl eq_refl
               ltac:(intros text [<-|[]]; reflexivity)).
    f_equal; try (vm_compute; reflexivity).
  - vm_compute. reflexivity.
Defined.

(** ** A [Fatal] that does not return *)

Lemma stops_ret {A : Type} (a : A) : stops_at_Fatal (ret a).
Proof. intros st. left. exists a. reflexivity. Qed.

Lemma stops_bind {A B : Type} (m : M A) (k : A -> M B) :
  stops_at_Fatal m -> (forall a, stops_at_Fatal (k a)) -> stops_at_Fatal (bind m k).
Proof.
  intros Hm Hk st. unfold bind. destruct (Hm st) as [[a Ha]|[args Ha]]; rewrite Ha.
  - apply Hk.
  - right. exists args. reflexivity.
Qed.

Lemma stops_Fatal (f : Fataler) (args : list string) :
  returns f = false -> stops_at_Fatal (Fatal f args).
Proof. intros Hret st. right. exists args. rewrite Fatal_run, Hret. reflexivity. Qed.

Lemma stops_apply (env : Env) (f : Fataler) (o : Option) (data : optionData) :
  returns f = false -> stops_at_Fatal (apply env o f data).
Proof.
  intros Hret. destruct o as [filePath|dir]; cbn [apply]; [apply stops_ret|].
  destruct (filepath_Walk env dir migrationsWalkFn data) as [[e|] data1];
    [|apply stops_ret].
  apply stops_bind; [apply stops_Fatal, Hret|intros _; apply stops_ret].
Qed.

Lemma stops_applyAll (env : Env) (f : Fataler) (opts : list Option) (data : optionData) :
  returns f = false -> stops_at_Fatal (applyAll env f opts data).
Proof.
  intros Hret. revert data. induction opts as [|o opts IH]; intros data;
    cbn [applyAll]; [apply stops_ret|].
  apply stops_bind; [apply stops_apply, Hret|exact IH].
Qed.

Lemma stops_readSchemas (env : Env) (f : Fataler) (paths : list string)
    (data : optionData) :
  returns f = false -> stops_at_Fatal (readSchemas env f paths data).
Proof.
  intros Hret. revert data. induction paths as [|sp paths IH]; intros data;
    cbn [readSchemas]; [apply stops_ret|].
  destruct (ReadFile env sp) as [bytes err].
  apply stops_bind; [|intros _; apply IH].
  destruct err; [apply stops_Fatal, Hret|apply stops_ret].
Qed.

Lemma apply_keeps_path (env : Env) (f : Fataler) (o : Option) (sp : string)
    (data data' : optionData) (st st' : State) :
  In sp (schemaPaths data) ->
  apply env o f data st = (Ret data', st') -> In sp (schemaPaths data').
Proof.
  intros Hin. destruct o as [filePath|dir]; cbn [apply].
  - intros [= <- _]. cbn. apply List.in_or_app. left. exact Hin.
  - unfold filepath_Walk.
    assert (Hfn : forall path info err s,
               In sp (schemaPaths s) ->
               In sp (schemaPaths (snd (migrationsWalkFn path info err s)))).
    { intros path info err s Hs. unfold migrationsWalkFn. destruct err; [exact Hs|].
      destruct (negb _ || _); [exact Hs|]. cbn. apply List.in_or_app. left. exact Hs. }
    pose proof (walk_invariant (fun d => In sp (schemaPaths d)) migrationsWalkFn Hfn
                  (lstat env dir) dir data Hin) as Hw.
    destruct (Walk.walk migrationsWalkFn dir (lstat env dir) data) as [[e|] data1];
      cbn [snd] in Hw.
    + unfold bind. rewrite Fatal_run. destruct (returns f); intros [= <- _]; exact Hw.
    + intros [= <- _]. exact Hw.
Qed.

Lemma applyAll_has_path (env : Env) (f : Fataler) (opts : list Option) (sp : string)
    (data data' : optionData) (st st' : State) :
  In sp (schemaPaths data) \/ In (SchemaFile sp) opts ->
  applyAll env f opts data st = (Ret data', st') -> In sp (schemaPaths data').
Proof.
  revert data st. induction opts as [|o opts IH]; intros data st Hin; cbn [applyAll].
  - intros [= <- _]. destruct Hin as [Hin|[]]. exact Hin.
  - unfold bind. destruct (apply env o f data st) as [[d1| |] st1] eqn:Ha;
      try discriminate.
    apply IH. destruct Hin as [Hin|[->|Hin]].
    + left. eapply apply_keeps_path; eassumption.
    + left. cbn [apply] in Ha. injection Ha as <- _. cbn.
      apply List.in_or_app. right. left. reflexivity.
    + right. exact Hin.
Qed.

Lemma readSchemas_Ret_all_read (env : Env) (f : Fataler) (paths : list string)
    (data data' : optionData) (st st' : State) :
  returns f = false ->
  readSchemas env f paths data st = (Ret data', st') ->
  forall sp, In sp paths -> snd (ReadFile env sp) = None.
Proof.
  intros Hret. revert data st. induction paths as [|p paths IH]; intros data st H sp Hin;
    [destruct Hin|].
  cbn [readSchemas] in H. destruct (ReadFile env p) as [bytes err] eqn:Hrf.
  unfold bind in H. destruct err as [e|].
  - rewrite Fatal_run, Hret in H. discriminate.
  - cbn [ret] in H. destruct Hin as [<-|Hin].
    + rewrite Hrf. reflexivity.
    + eapply IH; eassumption.
Qed.

(** X12.  With a [Fatal] that does not return, loading the options
    either succeeds without a trace or ends at its first [Fatal], and
    then [Open] ends there too, before it has opened any connection,
    sent any statement or drawn a name.  A schema file that cannot be
    read is such an end. *)
Theorem load_failure_opens_nothing
    (env : Env) (f : Fataler) (opts : list Option) (st : State) :
  returns f = false ->
  ((exists data, loadOptions env f opts st = (Ret data, st))
   \/ (exists args,
         loadOptions env f opts st = (Exit, logged st [EvFatal args])
         /\ Open env f opts st = (Exit, logged st [EvFatal args])))
  /\ (forall sp e,
        In (SchemaFile sp) opts -> snd (ReadFile env sp) = Some e ->
        exists args, Open env f opts st = (Exit, logged st [EvFatal args])).
Proof.
  intros Hret.
  assert (Hstop : stops_at_Fatal (loadOptions env f opts)).
  { unfold loadOptions. apply stops_bind; [apply stops_applyAll, Hret|].
    intros d. apply stops_readSchemas, Hret. }
  assert (Hexit : forall args,
             loadOptions env f opts st = (Exit, logged st [EvFatal args]) ->
             Open env f opts st = (Exit, logged st [EvFatal args])).
  { intros args H. unfold Open, bind. rewrite H. reflexivity. }
  split.
  - destruct (Hstop st) as [[data H]|[args H]].
    + left. exists data. exact H.
    + right. exists args. split; [exact H|apply Hexit, H].
  - intros sp e Hin Hrf. destruct (Hstop st) as [[data H]|[args H]].
    + exfalso. unfold loadOptions, bind in H.
      destruct (applyAll env f opts _ st) as [[d1| |] st1] eqn:Ha; try discriminate.
      pose proof (applyAll_has_path _ _ _ sp _ _ _ _ (or_intror Hin) Ha) as Hsp.
      pose proof (readSchemas_Ret_all_read _ _ _ _ _ _ _ Hret H sp Hsp) as Hn.
      congruence.
    + exists args. apply Hexit, H.
Qed.

Lemma load_failure_opens_nothing_witness :
  exists args,
    Open sample_env {| returns := false |}
      [Migrations "migrations"; SchemaFile "missing.sql"] start
    = (Exit, logged start [EvFatal args]).
Proof.
  destruct (load_failure_opens_nothing sample_env {| returns := false |}
              [Migrations "migrations"; SchemaFile "missing.sql"] start eq_refl)
    as [_ H].
  apply (H "missing.sql" "open: no such file or directory").
  - right. left. reflexivity.
  - reflexivity.
Defined.

(** X13.  With a [Fatal] that does not return, the schema texts are
    executed up to the first one that fails: the texts after it are never
    sent, and the loop ends with the one call of [Fatal]. *)
Theorem execSchemas_stops_at_first_failure
    (env : Env) (f : Fataler) (d : DB) (before after : list string) (text : string)
    (e : error) (st : State) :
  returns f = false ->
  (forall t, In t before -> exec_err env (dsn d) t = None) ->
  exec_err env (dsn d) text = Some e ->
  execSchemas env f (Some d) (before ++ text :: after) st =
    (Exit, logged st (map (EvExec (dsn d)) before ++ [EvExec (dsn d) text; EvFatal [e]])).
Proof.
  intros Hret Hok Hbad. revert st. induction before as [|t before IH]; intros st.
  - cbn [app execSchemas map]. unfold Exec. unfold bind at 1. unfold bind at 1.
    rewrite emit_run. cbn [ret]. rewrite Hbad. unfold bind at 1.
    rewrite Fatal_run, Hret, logged_logged. reflexivity.
  - cbn [app execSchemas map]. unfold Exec. unfold bind at 1. unfold bind at 1.
    rewrite emit_run. cbn [ret]. rewrite (Hok t) by (left; reflexivity).
    unfold bind at 1. cbn [ret].
    rewrite IH by (intros t' Ht'; apply Hok; right; exact Ht').
    rewrite logged_logged. reflexivity.
Qed.

Lemma execSchemas_stops_at_first_failure_witness :
  let f := {| returns := false |} in
  let d := {| dsn := "postgres:///pqtest_x?sslmode=disable" |} in
  execSchemas sample_env f (Some d)
    ["CREATE TABLE a ();"; "SELEC 1;"; "DROP TABLE c;"] start =
    (Exit, logged start [EvExec (dsn d) "CREATE TABLE a ();"; EvExec (dsn d) "SELEC 1;";
                         EvFatal ["syntax error"]]).
Proof.
  intros f d.
  exact (execSchemas_stops_at_first_failure sample_env f d
           ["CREATE TABLE a ();"] ["DROP TABLE c;"] "SELEC 1;" "syntax error" start
           eq_refl ltac:(intros t [<-|[]]; reflexivity) eq_refl).
Defined.

(** X14.  With a [Fatal] that returns, a connection to the new database
    that does not open leaves [Open] with a nil handle: it returns nil
    when there is no schema text, and panics on the first one
    otherwise. *)
Theorem unopened_database_is_nil
    (env : Env) (f : Fataler) (opts : list Option) (st st1 st2 : State)
    (data : optionData) (url : string) (err : option error) (e : error) :
  returns f = true ->
  loadOptions env f opts st = (Ret data, st1) ->
  mkdb env defaultURL st1 = (Ret (url, err), st2) ->
  open_err env "postgres" url = Some e ->
  (schema data = [] -> fst (Open env f opts st) = Ret None)
  /\ (schema data <> [] -> fst (Open env f opts st) = Panic).
Proof.
  intros Hret Hload Hmk Hopen.
  rewrite (Open_run _ _ _ _ _ _ Hload), (bind_run _ _ _ _ _ Hmk).
  unfold after_mkdb. cbn [fst snd].
  assert (H1 : exists st3,
             (match err with Some e0 => Fatal f [e0] | None => ret tt end) st2
             = (Ret tt, st3)).
  { destruct err; [rewrite Fatal_run, Hret|]; eexists; reflexivity. }
  destruct H1 as [st3 H1]. rewrite (bind_run _ _ _ _ _ H1).
  rewrite (bind_run _ _ _ _ _ (emit_run _ _)).
  assert (Hso : forall s, sql_Open env "postgres" url s
                          = (Ret (None, Some e), logged s [EvOpen "postgres" url])).
  { intros s. unfold sql_Open. rewrite (bind_run _ _ _ _ _ (emit_run _ _)), Hopen.
    reflexivity. }
  rewrite (bind_run _ _ _ _ _ (Hso _)). cbn [fst snd].
  assert (HF : forall s, Fatal f [e] s = (Ret tt, logged s [EvFatal [e]])).
  { intros s. rewrite Fatal_run, Hret. reflexivity. }
  rewrite (bind_run _ _ _ _ _ (HF _)).
  split.
  - intros ->. reflexivity.
  - intros Hne. destruct (schema data) as [|text rest]; [contradiction|]. reflexivity.
Qed.

Lemma unopened_database_is_nil_witness :
  let env := with_open_err sample_env
               (fun _ dataSource =>
                  if String.eqb dataSource defaultURL then None
                  else Some "dial tcp: connection refused") in
  fst (Open env {| returns := true |} [] start) = Ret None
  /\ fst (Open env {| returns := true |} [SchemaFile "migrations/0001_a.sql"] start) = Panic.
Proof.
  intros env.
  destruct (mkdb env defaultURL start) as [[[url err]| |] st2] eqn:Hmk;
    try (vm_compute in Hmk; discriminate Hmk).
  assert (Ho : open_err env "postgres" url = Some "dial tcp: connection refused").
  { vm_compute in Hmk. injection Hmk as <- _ _. reflexivity. }
  split.
  - exact (proj1 (unopened_database_is_nil env {| returns := true |} [] start start st2
                    {| schema := []; schemaPaths := []; databaseURL := defaultURL |}
                    url err _ eq_refl eq_refl Hmk Ho) eq_refl).
  - exact (proj2 (unopened_database_is_nil env {| returns := true |}
                    [SchemaFile "migrations/0001_a.sql"] start start st2
                    {| schema := ["CREATE TABLE a ();"];
                       schemaPaths := ["migrations/0001_a.sql"];
                       databaseURL := defaultURL |}
                    url err _ eq_refl eq_refl Hmk Ho) ltac:(discriminate)).
Defined.

(** ** The options together *)

Lemma apply_readable (env : Env) (f : Fataler) (o : Option) (data : optionData)
    (st : State) :
  readable env o = true ->
  apply env o f data st = (Ret (add_paths data (contribution env o)), st).
Proof.
  destruct o as [filePath|dir]; cbn [readable contribution apply]; intros Hr.
  - reflexivity.
  - unfold filepath_Walk. rewrite (walk_migrations _ Hr). reflexivity.
Qed.

(** X15.  Options whose directories can be read throughout compose in
    the order they are given: each adds its paths behind those of the
    options before it (a [SchemaFile] its one path, a [Migrations] the
    schema files of its tree in walk order), nothing is read before every
    option has run, and the schema texts are then the contents of the
    paths in that same order. *)
Theorem options_add_their_paths_in_order
    (env : Env) (f : Fataler) (opts : list Option) (data : optionData) (st : State) :
  forallb (readable env) opts = true ->
  applyAll env f opts data st =
    (Ret (add_paths data (concat (map (contribution env) opts))), st)
  /\ (forall data' st',
        loadOptions env f opts st = (Ret data', st') ->
        schemaPaths data' = concat (map (contribution env) opts)
        /\ schema data' = map (fun sp => fst (ReadFile env sp)) (schemaPaths data')).
Proof.
  intros Hr.
  assert (Hall : forall d, applyAll env f opts d st =
                           (Ret (add_paths d (concat (map (contribution env) opts))), st)).
  { clear data. induction opts as [|o opts IH]; intros d.
    - cbn. rewrite add_paths_nil. reflexivity.
    - cbn [forallb] in Hr. apply andb_prop in Hr as [Ho Hr].
      cbn [applyAll map concat].
      rewrite (bind_run _ _ _ _ _ (apply_readable env f o d st Ho)).
      rewrite (IH Hr), add_paths_app. reflexivity. }
  split; [apply Hall|].
  intros data' st' Hload. unfold loadOptions in Hload.
  rewrite (bind_run _ _ _ _ _ (Hall _)) in Hload.
  apply readSchemas_schema in Hload as [Hs Hp].
  cbn [add_paths schemaPaths schema app] in Hs, Hp.
  rewrite Hp, Hs. split; reflexivity.
Qed.

Lemma options_add_their_paths_in_order_witness :
  exists data' st',
    loadOptions sample_env {| returns := true |}
      [SchemaFile "b.sql"; Migrations "migrations"; SchemaFile "migrations/0001_a.sql"]
      start = (Ret data', st')
    /\ schemaPaths data' =
         ["b.sql"; "migrations/0001_a.sql"; "migrations/0002_b.sql";
          "migrations/old/0000_z.sql"; "migrations/old.sql"; "migrations/0001_a.sql"].
Proof.
  pose (opts := [SchemaFile "b.sql"; Migrations "migrations";
                 SchemaFile "migrations/0001_a.sql"]).
  destruct (loadOptions sample_env {| returns := true |} opts start)
    as [[data'| |] st'] eqn:Hload; try (vm_compute in Hload; discriminate Hload).
  exists data', st'. split; [exact Hload|].
  destruct (options_add_their_paths_in_order sample_env {| returns := true |} opts
              {| schema := []; schemaPaths := []; databaseURL := defaultURL |} start
              eq_refl) as [_ H].
  destruct (H data' st' Hload) as [Hp _]. rewrite Hp. reflexivity.
Defined.

(** ** [Migrations] on a tree with errors *)

Lemma walk_errors_Dir (entries : list (string * OS.node)) :
  walk_errors (OS.Dir entries) =
  concat (map (fun en => walk_errors (snd en)) (Walk.sort_by_name entries)).
Proof.
  cbn [walk_errors].
  rewrite (sort_by_name_map (fun en => walk_errors (snd en))).
  rewrite List.map_map. reflexivity.
Qed.

Lemma run_all_until_error (path : string) (es : list (string * OS.node)) :
  Forall (fun en => forall p data,
            let r := Walk.walk migrationsWalkFn p (snd en) data in
            fst r = head (walk_errors (snd en))
            /\ exists loaded rest,
                 sql_files p (snd en) = loaded ++ rest
                 /\ snd r = add_paths data loaded
                 /\ (fst r = None -> rest = [])) es ->
  forall data,
    let r := Walk.run_all
               (map (fun en => Walk.walk migrationsWalkFn (Filepath.Join path (fst en))
                                 (snd en)) es) data in
    fst r = head (concat (map (fun en => walk_errors (snd en)) es))
    /\ exists loaded rest,
         concat (map (fun en => sql_files (Filepath.Join path (fst en)) (snd en)) es)
           = loaded ++ rest
         /\ snd r = add_paths data loaded
         /\ (fst r = None -> rest = []).
Proof.
  induction 1 as [|en es Hen _ IH]; intros data.
  - cbn. split; [reflexivity|]. exists [], []. rewrite add_paths_nil. auto.
  - cbn [map Walk.run_all concat].
    destruct (Hen (Filepath.Join path (fst en)) data) as [He [l1 [r1 [Hf [Hs Hn]]]]].
    destruct (Walk.walk migrationsWalkFn (Filepath.Join path (fst en)) (snd en) data)
      as [[e|] d1]; cbn [fst snd] in *.
    + split.
      * destruct (walk_errors (snd en)); [discriminate He|]. exact He.
      * exists l1, (r1 ++ concat (map (fun en0 => sql_files (Filepath.Join path (fst en0))
                                                   (snd en0)) es)).
        rewrite Hf, <- app_assoc. split; [reflexivity|]. split; [exact Hs|discriminate].
    + subst d1. destruct (IH (add_paths data l1)) as [He2 [l2 [r2 [Hf2 [Hs2 Hn2]]]]].
      rewrite (Hn eq_refl), app_nil_r in Hf. split.
      * destruct (walk_errors (snd en)); [exact He2|discriminate He].
      * exists (l1 ++ l2), r2. rewrite Hf, Hf2, Hs2, add_paths_app, <- app_assoc.
        split; [reflexivity|]. split; [reflexivity|exact Hn2].
Qed.

Lemma walk_until_error (n : OS.node) :
  forall path data,
    let r := Walk.walk migrationsWalkFn path n data in
    fst r = head (walk_errors n)
    /\ exists loaded rest,
         sql_files path n = loaded ++ rest
         /\ snd r = add_paths data loaded
         /\ (fst r = None -> rest = []).
Proof.
  induction n as [|entries IH|e|e] using node_induction; intros path data.
  - cbn [Walk.walk sql_files walk_errors]. unfold migrationsWalkFn. cbn [OS.IsDir].
    rewrite orb_false_r.
    destruct (String.eqb (Filepath.Ext path) ".sql"); cbn [negb fst snd].
    + split; [reflexivity|]. exists [path], []. auto.
    + split; [reflexivity|]. exists [], []. rewrite add_paths_nil. auto.
  - assert (Hw : Walk.walk migrationsWalkFn path (OS.Dir entries) data =
                 Walk.run_all
                   (map (fun en => Walk.walk migrationsWalkFn (Filepath.Join path (fst en))
                                     (snd en)) (Walk.sort_by_name entries)) data).
    { cbn [Walk.walk]. unfold migrationsWalkFn at 1. cbn [OS.IsDir]. rewrite orb_true_r.
      rewrite (sort_by_name_map
                 (fun en => Walk.walk migrationsWalkFn (Filepath.Join path (fst en))
                              (snd en))).
      rewrite List.map_map. reflexivity. }
    cbv zeta. rewrite Hw, sql_files_Dir, walk_errors_Dir.
    apply run_all_until_error. apply List.Forall_forall. intros en Hin.
    assert (Hin' : In en entries).
    { eapply Permutation_in; [apply sort_by_name_perm|exact Hin]. }
    exact (proj1 (List.Forall_forall _ _) IH _ Hin').
  - cbn. split; [reflexivity|]. exists [], []. rewrite add_paths_nil.
    split; [reflexivity|]. split; [reflexivity|discriminate].
  - cbn. split; [reflexivity|]. exists [], []. rewrite add_paths_nil.
    split; [reflexivity|]. split; [reflexivity|discriminate].
Qed.

(** X16.  On any tree the walk of [Migrations] stops at the first error
    in walk order (a directory that cannot be listed, a path that cannot
    be examined): the paths added are the schema files met before it, an
    initial part of the schema files of the tree, and [Fatal] is called
    once, with that error.  Without an error all schema files are added
    and [Fatal] is not called. *)
Theorem Migrations_stops_at_first_error
    (env : Env) (f : Fataler) (dir : string) (data : optionData) (st : State) :
  let n := lstat env dir in
  exists loaded rest,
    sql_files dir n = loaded ++ rest
    /\ match head (walk_errors n) with
       | None =>
           rest = []
           /\ apply env (Migrations dir) f data st = (Ret (add_paths data loaded), st)
       | Some e =>
           apply env (Migrations dir) f data st =
             (if returns f then Ret (add_paths data loaded) else Exit,
              logged st [EvFatal [e]])
       end.
Proof.
  intros n. cbn [apply]. unfold filepath_Walk. fold n.
  destruct (walk_until_error n dir data) as [He [loaded [rest [Hf [Hs Hn]]]]].
  destruct (Walk.walk migrationsWalkFn dir n data) as [err d1]. cbn [fst snd] in *.
  exists loaded, rest. split; [exact Hf|]. rewrite <- He. subst d1.
  destruct err as [e|].
  - unfold bind. rewrite Fatal_run. destruct (returns f); reflexivity.
  - split; [apply Hn; reflexivity|reflexivity].
Qed.

(** A tree whose second subdirectory cannot be listed: the files before
    it are loaded, those after it are not. *)
Example Migrations_broken_tree :
  let tree := OS.Dir [("c.sql", OS.NotDir); ("b", OS.DirUnreadable "permission denied");
                      ("a.sql", OS.NotDir)] in
  apply (with_tree sample_env tree) (Migrations "m") {| returns := true |}
    {| schema := []; schemaPaths := []; databaseURL := defaultURL |} start
  = (Ret {| schema := []; schemaPaths := ["m/a.sql"]; databaseURL := defaultURL |},
     logged start [EvFatal ["permission denied"]]).
Proof. vm_compute. reflexivity. Qed.

(** ** The statements sent *)

Lemma double_quotes_injective (a b : string) :
  double_quotes a = double_quotes b -> a = b.
Proof.
  revert b. induction a as [|c a IH]; intros [|d b]; cbn [double_quotes].
  - reflexivity.
  - destruct (Ascii.eqb d quote); discriminate.
  - destruct (Ascii.eqb c quote); discriminate.
  - destruct (Ascii.eqb c quote) eqn:Hc, (Ascii.eqb d quote) eqn:Hd.
    + apply Ascii.eqb_eq in Hc, Hd. subst. intros [= H]. f_equal. apply IH, H.
    + intros [= <- H]. rewrite Ascii.eqb_refl in Hd. discriminate.
    + intros [= -> H]. rewrite Ascii.eqb_refl in Hc. discriminate.
    + intros [= <- H]. f_equal. apply IH, H.
Qed.

Lemma until_nul_free (s : string) : nul_free s = true -> until_nul s = s.
Proof.
  unfold nul_free. induction s as [|c s IH]; cbn [Str.all_chars until_nul];
    [reflexivity|].
  intros H. apply andb_prop in H as [Hc Hs]. apply negb_true_iff in Hc.
  rewrite Hc, (IH Hs). reflexivity.
Qed.

Lemma append_quote_injective (a b : string) :
  a +:+ String quote EmptyString = b +:+ String quote EmptyString -> a = b.
Proof.
  revert b. induction a as [|c a IH]; intros [|d b].
  - reflexivity.
  - change (String quote EmptyString = String d (b +:+ String quote EmptyString) -> "" = String d b).
    intros [= _ H]. destruct b; discriminate H.
  - change (String c (a +:+ String quote EmptyString) = String quote EmptyString
            -> String c a = "").
    intros [= _ H]. destruct a; discriminate H.
  - change (String c (a +:+ String quote EmptyString)
            = String d (b +:+ String quote EmptyString) -> String c a = String d b).
    intros [= -> H]. f_equal. apply IH, H.
Qed.

Lemma QuoteIdentifier_injective (a b : string) :
  nul_free a = true -> nul_free b = true ->
  QuoteIdentifier a = QuoteIdentifier b -> a = b.
Proof.
  intros Ha Hb. unfold QuoteIdentifier. rewrite (until_nul_free _ Ha), (until_nul_free _ Hb).
  change (String quote ?x +:+ ?y) with (String quote (x +:+ y)).
  intros [= H]. apply double_quotes_injective, append_quote_injective, H.
Qed.

Lemma append_inv_head (a x y : string) : a +:+ x = a +:+ y -> x = y.
Proof.
  induction a as [|c a IH]; [intros H; exact H|].
  change (String c (a +:+ x) = String c (a +:+ y) -> x = y).
  intros [= H]. apply IH, H.
Qed.

(** X17.  The statements name their database without loss: for names
    without a NUL byte, two [DROP DATABASE] statements dispatched by the
    collector, or two [CREATE DATABASE] statements of [mkdb], are the same
    text only for the same name, whatever quotes or other bytes the names
    hold. *)
Theorem statements_identify_the_database (db : DB) (a b : string) :
  nul_free a = true -> nul_free b = true ->
  (drop_event db a = drop_event db b -> a = b)
  /\ (create_stmt a = create_stmt b -> a = b).
Proof.
  intros Ha Hb. unfold drop_event, create_stmt. split.
  - intros H. apply (QuoteIdentifier_injective _ _ Ha Hb).
    assert (H' : "DROP DATABASE " +:+ QuoteIdentifier a
                 = "DROP DATABASE " +:+ QuoteIdentifier b) by congruence.
    exact (append_inv_head _ _ _ H').
  - intros H. apply (QuoteIdentifier_injective _ _ Ha Hb).
    exact (append_inv_head _ _ _ H).
Qed.

Lemma statements_identify_the_database_witness :
  let a := String "p" (String quote (String ";" EmptyString)) in
  let b := String "p" (String quote (String quote (String ";" EmptyString))) in
  nul_free a = true /\ nul_free b = true
  /\ String.eqb (create_stmt a) (create_stmt b) = false.
Proof.
  intros a b. split; [reflexivity|]. split; [reflexivity|].
  destruct (String.eqb (create_stmt a) (create_stmt b)) eqn:E; [|reflexivity].
  apply String.eqb_eq in E.
  apply (proj2 (statements_identify_the_database {| dsn := defaultURL |} a b
                  eq_refl eq_refl)) in E.
  discriminate E.
Defined.

(** X18.  Above the underscore nothing is collected: a name that is
    [pqtest] followed by a byte above the underscore (a small letter,
    as in [pqtestify]) matches the pattern, yet never sorts below the
    bound. *)
Theorem gcWhere_above_underscore (now : GoTime.Time) (c : ascii) (rest : string) :
  (95 < N_of_ascii c)%N ->
  gcWhere (gcBound now) ("pqtest" +:+ String c rest) = false.
Proof.
  intros Hc. unfold gcWhere. apply andb_false_iff. right.
  apply not_true_is_false. intros Hlt. apply ltb_lt in Hlt.
  unfold Str.lt, gcBound, formatDBName in Hlt.
  rewrite pqtest_prefix, compare_app_prefix in Hlt.
  change ("_" +:+ ?x) with (String "_" x) in Hlt.
  cbn [String.append String.compare] in Hlt.
  assert (Ha : Ascii.compare c "_" = Gt).
  { unfold Ascii.compare. apply N.compare_gt_iff. exact Hc. }
  rewrite Ha in Hlt. discriminate Hlt.
Qed.

Lemma gcWhere_above_underscore_witness :
  (95 < N_of_ascii "i")%N
  /\ gcWhere (gcBound (1777777777 * GoTime.Second)) "pqtestify" = false.
Proof.
  assert (H : (95 < N_of_ascii "i")%N) by reflexivity.
  split; [exact H|].
  exact (gcWhere_above_underscore (1777777777 * GoTime.Second) "i" "fy" H).
Defined.

(** ** From creation to collection *)

Lemma In_firstn_middle {A : Type} (n : nat) (l1 l2 : list A) (x : A) :
  (length l1 < n)%nat -> In x (firstn n (l1 ++ x :: l2)).
Proof.
  revert n. induction l1 as [|y l1 IH]; intros [|n] Hn; cbn [length] in Hn; try lia.
  - left. reflexivity.
  - cbn [app firstn]. right. apply IH. lia.
Qed.

(** X19.  What one call creates a later call collects: a name generated
    by [randomDBName] at one clock reading satisfies the [WHERE] clause
    of every collection pass whose clock, less the three-minute window,
    reads a later second, and the pass dispatches its [DROP DATABASE]
    when the server lists it with fewer than six selected names before
    it and the enumeration does not fail. *)
Theorem created_database_is_collected
    (env : Env) (db : DB) (file : string) (st0 st : State)
    (names before after : list string) :
  let name := generated_name env file st0 in
  let now := clock env (ticks st) in
  four_digit_year (clock env (ticks st0)) ->
  four_digit_year (gcTime now) ->
  GoTime.Unix (clock env (ticks st0)) < GoTime.Unix (gcTime now) ->
  enumerate env (gcBound now) = inl names ->
  pg_database env = before ++ name :: after ->
  (length (List.filter (gcWhere (gcBound now)) before) < 6)%nat ->
  gcWhere (gcBound now) name = true
  /\ In (drop_event db name) (trace (snd (garbageCollectDBs env db st))).
Proof.
  intros name now Y0 Y1 Hlt Henum Hdb Hlen.
  destruct (randomDBName_effects_aux env file st0) as [letters Hr].
  assert (Hname : name = formatDBName (letters +:+ caller_tag file)
                           (clock env (ticks st0))).
  { unfold name, generated_name. rewrite Hr. reflexivity. }
  assert (Hw : gcWhere (gcBound now) name = true).
  { rewrite Hname. unfold gcWhere, gcBound. apply andb_true_intro. split.
    - unfold formatDBName. apply like_pqtest.
    - apply ltb_lt. apply formatDBName_compare; assumption. }
  split; [exact Hw|].
  rewrite garbageCollectDBs_run. cbv zeta. fold now. rewrite Henum.
  cbn [snd logged trace]. apply List.in_or_app. right. apply List.in_map.
  apply enumerate_inl in Henum. subst names.
  rewrite Hdb, List.filter_app. cbn [List.filter]. rewrite Hw.
  apply In_firstn_middle, Hlen.
Qed.

Lemma created_database_is_collected_witness :
  let env := with_clock_and_databases sample_env
               (fun n => 1777777777 * GoTime.Second + Z.of_nat n * (4 * GoTime.Minute))
               ["postgres"; "pqtest_20260503030937Z_dkryfmtaho_store_test"] in
  let db := {| dsn := defaultURL |} in
  generated_name env (caller env) start = "pqtest_20260503030937Z_dkryfmtaho_store_test"
  /\ In (drop_event db "pqtest_20260503030937Z_dkryfmtaho_store_test")
        (trace (snd (garbageCollectDBs env db (ticked start)))).
Proof.
  intros env db.
  assert (N : generated_name env (caller env) start
              = "pqtest_20260503030937Z_dkryfmtaho_store_test") by (vm_compute; reflexivity).
  split; [exact N|].
  assert (Y0 : four_digit_year (clock env (ticks start))) by (vm_compute; split; discriminate).
  assert (Y1 : four_digit_year (gcTime (clock env (ticks (ticked start)))))
    by (vm_compute; split; discriminate).
  assert (L : GoTime.Unix (clock env (ticks start))
              < GoTime.Unix (gcTime (clock env (ticks (ticked start)))))
    by (vm_compute; reflexivity).
  assert (E : enumerate env (gcBound (clock env (ticks (ticked start))))
              = inl ["pqtest_20260503030937Z_dkryfmtaho_store_test"])
    by (vm_compute; reflexivity).
  assert (D : pg_database env
              = ["postgres"] ++ generated_name env (caller env) start :: [])
    by (rewrite N; reflexivity).
  assert (B : (length (List.filter
                         (gcWhere (gcBound (clock env (ticks (ticked start)))))
                         ["postgres"]) < 6)%nat)
    by (apply Nat.ltb_lt; vm_compute; reflexivity).
  pose proof (proj2 (created_database_is_collected env db (caller env) start
                       (ticked start) _ ["postgres"] [] Y0 Y1 L E D B)) as H.
  rewrite N in H. exact H.
Defined.
